(** * Configuration reconciliation of the calibration analyzer

    A shallow embedding of the configuration page script
    (getConfigurations, saveConfig, applyConfig, normalizeRangeSetting)
    together with the JavaScript built-ins it calls: strings of UTF-16 code
    units, IEEE 754 binary64 numbers, [parseFloat], [String(v)],
    [Number.prototype.toString] and [String.prototype.trim]. *)

From Stdlib Require Import ZArith NArith List Bool String Ascii Lia.
From Stdlib Require Import Floats.SpecFloat.
From Stdlib Require Import DecimalN.
Import ListNotations.

Local Open Scope Z_scope.

(** ** JavaScript built-ins *)

Module JS.

(** *** Strings: sequences of UTF-16 code units *)

Definition code_unit := N.
Definition jsstring := list code_unit.

(** An ASCII literal as a JavaScript string. *)
Definition lit (s : string) : jsstring :=
  List.map N_of_ascii (list_ascii_of_string s).

Fixpoint str_eqb (a b : jsstring) : bool :=
  match a, b with
  | [], [] => true
  | x :: a', y :: b' => N.eqb x y && str_eqb a' b'
  | _, _ => false
  end.

(** WhiteSpace and LineTerminator code points (ECMAScript 12.2, 12.3):
    TAB, VT, FF, SP, NBSP, ZWNBSP, the category Zs, LF, CR, LS, PS. *)
Definition is_whitespace (c : code_unit) : bool :=
  match c with
  | 9 | 10 | 11 | 12 | 13 | 32 | 160 => true
  | 5760 | 8232 | 8233 | 8239 | 8287 | 12288 | 65279 => true
  | _ => (8192 <=? c)%N && (c <=? 8202)%N
  end%N.

Fixpoint trimStart (s : jsstring) : jsstring :=
  match s with
  | [] => []
  | c :: s' => if is_whitespace c then trimStart s' else s
  end.

Definition trimEnd (s : jsstring) : jsstring := rev (trimStart (rev s)).

(** [String.prototype.trim]. *)
Definition trim (s : jsstring) : jsstring := trimEnd (trimStart s).

(** [true] when [p] is a prefix of [s]; the rest of [s] is returned. *)
Fixpoint strip_prefix (p s : jsstring) : option jsstring :=
  match p, s with
  | [], _ => Some s
  | x :: p', y :: s' => if N.eqb x y then strip_prefix p' s' else None
  | _ :: _, [] => None
  end.

(** *** Numbers: IEEE 754 binary64 *)

Definition number := spec_float.
Definition prec : Z := 53.
Definition emax : Z := 1024.

Definition NaN : number := S754_nan.
Definition sub : number -> number -> number := SFsub prec emax.
Definition abs : number -> number := SFabs.
Definition ltb : number -> number -> bool := SFltb.
Definition eqb : number -> number -> bool := SFeqb.

(** The global [isNaN] on a number. *)
Definition isNaN (x : number) : bool :=
  match x with S754_nan => true | _ => false end.

Definition is_finite (x : number) : bool :=
  match x with S754_zero _ | S754_finite _ _ _ => true | _ => false end.

(** The Number value of the decimal [m * 10^e10] with sign [neg]: the
    binary64 nearest to it, ties to even. *)
Definition of_decimal (neg : bool) (m : N) (e10 : Z) : number :=
  match m with
  | N0 => S754_zero neg
  | Npos p =>
      if 0 <=? e10
      then binary_normalize prec emax
             (cond_Zopp neg (Zpos p * 10 ^ e10)) 0 neg
      else SFdiv prec emax (S754_finite neg p 0)
             (S754_finite false (Z.to_pos (10 ^ (- e10))) 0)
  end.

(** *** Decimal digits *)

Definition digit_value (c : code_unit) : option N :=
  if ((48 <=? c) && (c <=? 57))%N then Some (c - 48)%N else None.

Definition digit_char (d : N) : code_unit := (48 + d)%N.

(** The longest prefix of decimal digits, as digit values, and the rest. *)
Fixpoint take_digits (s : jsstring) : list N * jsstring :=
  match s with
  | [] => ([], [])
  | c :: s' =>
      match digit_value c with
      | Some d => let (ds, r) := take_digits s' in (d :: ds, r)
      | None => ([], s)
      end
  end.

Definition digits_value (ds : list N) : N :=
  fold_left (fun acc d => (10 * acc + d)%N) ds 0%N.

(** The decimal digits of a natural number, most significant first. *)
Fixpoint uint_digits (u : Decimal.uint) : list N :=
  match u with
  | Decimal.Nil => []
  | Decimal.D0 u' => 0%N :: uint_digits u'
  | Decimal.D1 u' => 1%N :: uint_digits u'
  | Decimal.D2 u' => 2%N :: uint_digits u'
  | Decimal.D3 u' => 3%N :: uint_digits u'
  | Decimal.D4 u' => 4%N :: uint_digits u'
  | Decimal.D5 u' => 5%N :: uint_digits u'
  | Decimal.D6 u' => 6%N :: uint_digits u'
  | Decimal.D7 u' => 7%N :: uint_digits u'
  | Decimal.D8 u' => 8%N :: uint_digits u'
  | Decimal.D9 u' => 9%N :: uint_digits u'
  end.

Definition decimal_digits (n : N) : list N := uint_digits (N.to_uint n).

Definition decimal_string (n : N) : jsstring :=
  List.map digit_char (decimal_digits n).

(** *** parseFloat on a string (ECMAScript 19.2.4)

    Leading white space is skipped, the longest prefix that is a
    StrDecimalLiteral is read, and its mathematical value is rounded to a
    Number; without such a prefix the result is NaN. *)

(** ExponentPart: [e] or [E], an optional sign, at least one digit.  A
    malformed exponent is not part of the literal and counts as 0. *)
Definition parse_exponent (s : jsstring) : Z :=
  match s with
  | c :: r =>
      if (N.eqb c 101 || N.eqb c 69)%bool then
        let '(neg, r') :=
          match r with
          | 43%N :: r' => (false, r')
          | 45%N :: r' => (true, r')
          | _ => (false, r)
          end in
        match fst (take_digits r') with
        | [] => 0
        | ds => cond_Zopp neg (Z.of_N (digits_value ds))
        end
      else 0
  | [] => 0
  end.

(** StrUnsignedDecimalLiteral with the sign already read. *)
Definition parse_unsigned (neg : bool) (s : jsstring) : number :=
  match strip_prefix (lit "Infinity") s with
  | Some _ => S754_infinity neg
  | None =>
      let (ip, r1) := take_digits s in
      match r1 with
      | 46%N :: r2 =>
          let (fp, r3) := take_digits r2 in
          match ip, fp with
          | [], [] => NaN
          | _, _ =>
              of_decimal neg (digits_value (ip ++ fp))
                (parse_exponent r3 - Z.of_nat (List.length fp))
          end
      | _ =>
          match ip with
          | [] => NaN
          | _ => of_decimal neg (digits_value ip) (parse_exponent r1)
          end
      end
  end.

Definition parseFloat_string (s : jsstring) : number :=
  match trimStart s with
  | 43%N :: r => parse_unsigned false r
  | 45%N :: r => parse_unsigned true r
  | r => parse_unsigned false r
  end.

(** *** Number::toString (ECMAScript 6.1.6.1.20), radix 10

    For a finite non-zero [x] the digits are those of the integer [s] with
    the fewest digits [k] such that [s * 10^(n-k)] rounds to [x]; of two
    such integers the closer to [x] is taken, the even one when they are
    equally close.  The search goes as far as the number of digits of the
    exact decimal expansion of [x], which stands for [x] itself. *)

(** [floor ((num/den) / 10^q)]. *)
Definition scaled_floor (num den q : Z) : Z :=
  if 0 <=? q then num / (den * 10 ^ q) else (num * 10 ^ (- q)) / den.

(** For [num < den]: the least [j >= 1] with [num * 10^j >= den]. *)
Fixpoint first_scale (fuel : nat) (num den j : Z) : Z :=
  match fuel with
  | O => j
  | S fuel' =>
      if den <=? num * 10 ^ j then j else first_scale fuel' num den (j + 1)
  end.

(** The [n] with [10^(n-1) <= num/den < 10^n], for [0 < num/den]. *)
Definition decimal_exponent (num den : Z) : Z :=
  if den <=? num
  then Z.of_nat (List.length (decimal_digits (Z.to_N (num / den))))
  else 1 - first_scale (S (Z.to_nat (Z.log2 den))) num den 1.

(** A candidate for [s]: its digits, and the [n] at which they stand for
    [s * 10^q]. *)
Definition candidate (q s : Z) : list N * Z :=
  let ds := decimal_digits (Z.to_N s) in
  (ds, q + Z.of_nat (List.length ds)).

(** The decimal of the digits [fst c] at the exponent [snd c] rounds to
    [x]. *)
Definition rounds_to (x : number) (c : list N * Z) : bool :=
  eqb (of_decimal false (digits_value (fst c))
         (snd c - Z.of_nat (List.length (fst c)))) x.

(** The digits and exponent for the positive number [x = num/den] when
    [k] digits are enough.  The candidates are the two integers next to
    [x / 10^(n0-k)]; the upper one may be [10^k], which is the digit 1 one
    place higher. *)
Definition pick (k : Z) (x : number) (num den n0 : Z) : option (list N * Z) :=
  let q := n0 - k in
  let lo := scaled_floor num den q in
  let hi := lo + 1 in
  let take_lo := candidate q lo in
  let take_hi := if hi =? 10 ^ k then ([1%N], q + k + 1) else candidate q hi in
  let closer :=
    if 0 <=? q
    then Z.compare (2 * num) ((2 * lo + 1) * 10 ^ q * den)
    else Z.compare (2 * num * 10 ^ (- q)) ((2 * lo + 1) * den) in
  match rounds_to x take_lo, rounds_to x take_hi with
  | true, true =>
      Some match closer with
           | Lt => take_lo
           | Gt => take_hi
           | Eq => if Z.even lo then take_lo else take_hi
           end
  | true, false => Some take_lo
  | false, true => Some take_hi
  | false, false => None
  end.

(** The digits of [s] and the exponent [n] for the positive number
    [x = num/den], trying [k], [k+1], ... digits. *)
Fixpoint shortest_digits (fuel : nat) (k : Z) (x : number) (num den n0 : Z)
  : list N * Z :=
  match pick k x num den n0 with
  | Some c => c
  | None =>
      match fuel with
      | O => candidate (n0 - k) (scaled_floor num den (n0 - k))
      | S fuel' => shortest_digits fuel' (k + 1) x num den n0
      end
  end.

(** Steps 7 to 13 of Number::toString: the text for digits [ds] of [s]
    and exponent [n]. *)
Definition format_decimal (ds : list N) (n : Z) : jsstring :=
  let k := Z.of_nat (List.length ds) in
  let cs := List.map digit_char ds in
  if (k <=? n) && (n <=? 21) then
    cs ++ repeat 48%N (Z.to_nat (n - k))
  else if (0 <? n) && (n <=? 21) then
    firstn (Z.to_nat n) cs ++ 46%N :: skipn (Z.to_nat n) cs
  else if (-6 <? n) && (n <=? 0) then
    48%N :: 46%N :: repeat 48%N (Z.to_nat (- n)) ++ cs
  else
    let e := n - 1 in
    let sign := if e <? 0 then 45%N else 43%N in
    let mantissa :=
      match cs with
      | c :: (_ :: _) as r => c :: 46%N :: r
      | _ => cs
      end in
    mantissa ++ 101%N :: sign :: decimal_string (Z.to_N (Z.abs e)).

Definition Number_toString (x : number) : jsstring :=
  match x with
  | S754_nan => lit "NaN"
  | S754_zero _ => lit "0"
  | S754_infinity s => (if s then [45%N] else []) ++ lit "Infinity"
  | S754_finite s m e =>
      let num := if 0 <=? e then Zpos m * 2 ^ e else Zpos m in
      let den := if 0 <=? e then 1 else 2 ^ (- e) in
      let n0 := decimal_exponent num den in
      let '(ds, n) :=
        shortest_digits (Z.to_nat (Z.max 16 (n0 + Z.max 0 (- e)))) 1
          (S754_finite false m e) num den n0 in
      (if s then [45%N] else []) ++ format_decimal ds n
  end.

(** *** Language values

    The primitive values a dataset attribute, a control or a field of a
    parsed JSON record can hold. *)

Inductive value :=
| VUndefined
| VNull
| VBool (b : bool)
| VNum (x : number)
| VStr (s : jsstring).

(** The abstract operation ToString, which [String(v)], template literals
    and [parseFloat] apply to their argument. *)
Definition ToString (v : value) : jsstring :=
  match v with
  | VUndefined => lit "undefined"
  | VNull => lit "null"
  | VBool true => lit "true"
  | VBool false => lit "false"
  | VNum x => Number_toString x
  | VStr s => s
  end.

(** ToBoolean. *)
Definition truthy (v : value) : bool :=
  match v with
  | VUndefined | VNull => false
  | VBool b => b
  | VNum (S754_zero _) | VNum S754_nan => false
  | VNum _ => true
  | VStr [] => false
  | VStr _ => true
  end.

(** IsStrictlyEqual, the [===] operator. *)
Definition strict_eq (a b : value) : bool :=
  match a, b with
  | VUndefined, VUndefined => true
  | VNull, VNull => true
  | VBool x, VBool y => Bool.eqb x y
  | VNum x, VNum y => eqb x y
  | VStr x, VStr y => str_eqb x y
  | _, _ => false
  end.

(** The global [parseFloat]: its argument is first converted to a string. *)
Definition parseFloat (v : value) : number := parseFloat_string (ToString v).

End JS.

(** ** The configuration page script *)

Import JS.

(** *** Exceptions *)

(** [new Error(message)], the only exception the script throws. *)
Inductive exn := Error (message : jsstring).

Inductive result (A : Type) :=
| Ok (a : A)
| Throw (e : exn).

Arguments Ok {A} a.
Arguments Throw {A} e.

Definition bind {A B : Type} (m : result A) (k : A -> result B) : result B :=
  match m with
  | Ok a => k a
  | Throw e => Throw e
  end.

Notation "x <- m ;; k" := (bind m (fun x => k))
  (at level 61, m at next level, right associativity).

(** *** The page state *)

(** A row [tr] of [#config-table tbody]: the three [data-*] attributes
    the script reads ([row.dataset.k] is a string, or [undefined] when the
    attribute is missing) and the text held by its three controls
    [.range-input], [.reference-input] and [.tolerance-input].  Every row
    of the table carries the three controls, so the [querySelector] calls
    of the script return an element and the guards [&& rangeInput],
    [&& referenceInput], [&& toleranceInput] of [applyConfig] hold. *)
Record row := {
  testValue : option jsstring;
  rangeSetting : option jsstring;
  ioType : option jsstring;
  rangeInput : jsstring;
  referenceInput : jsstring;
  toleranceInput : jsstring
}.

(** [row.dataset.k]. *)
Definition dataset (attribute : option jsstring) : value :=
  match attribute with
  | Some s => VStr s
  | None => VUndefined
  end.

(** The three controls of a row. *)
Inductive control := RangeInput | Reference | Tolerance.

(** The value sanitization algorithm of each control: the text the
    control holds once a string has been assigned to its [value].  It is
    fixed by the [type] of the input element in the page template, which
    is not part of the script: a text input drops the line breaks of the
    string, a number input replaces whatever is not a floating-point
    number by the empty string. *)
Class Controls := { sanitize : control -> jsstring -> jsstring }.

(** The setter of the [value] of an input element: the assigned value is
    converted to a string, [null] to the empty string, and the string is
    sanitized. *)
Definition set_value `{Controls} (k : control) (v : value) : jsstring :=
  sanitize k match v with
             | VNull => []
             | _ => ToString v
             end.

(** The sanitization of a text input: U+000A and U+000D are removed. *)
Definition strip_newlines (s : jsstring) : jsstring :=
  filter (fun c => negb (N.eqb c 10 || N.eqb c 13)) s.

(** The global [filesInfo], defined by the page; the script only reads
    its [unit]. *)
Record files_info := { unit : value }.

(** The object [getConfigurations] pushes for a row. *)
Record config := {
  test_value : number;
  range_setting : value;
  io_type : value;
  range_input : jsstring;
  reference : number;
  tolerance : number
}.

(** A configuration document as [saveConfig] builds it and as its file
    gives it back: every field of a record is a primitive, [undefined]
    when the key is missing. *)
Module Doc.

Record record := {
  test_value : value;
  range_setting : value;
  io_type : value;
  range_input : value;
  reference : value;
  tolerance : value
}.

(** [configurations] is [None] when the document has no such key. *)
Record t := {
  unit : value;
  configurations : option (list record)
}.

End Doc.

(** The literal [0.0001] of [applyConfig]. *)
Definition tolerance_1e_4 : number := S754_finite false 7378697629483821 (-66).

Definition zero : number := S754_zero false.

Section Page.

Context `{Controls}.
Variable filesInfo : files_info.

(** *** getConfigurations *)

(** The body of the [rows.forEach] callback, up to the [push]. *)
Definition read_row (r : row) : result config :=
  let testValue := parseFloat (dataset (testValue r)) in
  let rangeSetting := dataset (rangeSetting r) in
  let ioType := dataset (ioType r) in
  let rangeInput := trim (rangeInput r) in
  let reference := parseFloat (VStr (referenceInput r)) in
  let tolerance := parseFloat (VStr (toleranceInput r)) in
  if isNaN reference || isNaN tolerance then
    Throw (Error (lit "Invalid values for test point "
                    ++ ToString (VNum testValue) ++ lit " "
                    ++ ToString (unit filesInfo)))
  else if ltb tolerance zero then
    Throw (Error (lit "Tolerance must be positive for test point "
                    ++ ToString (VNum testValue) ++ lit " "
                    ++ ToString (unit filesInfo)))
  else
    Ok {| test_value := testValue;
          range_setting := rangeSetting;
          io_type := ioType;
          range_input := match rangeInput with [] => lit "N/A" | _ => rangeInput end;
          reference := reference;
          tolerance := tolerance |}.

(** [rows.forEach], with the array [configs] built so far. *)
Fixpoint read_rows (rows : list row) (configs : list config)
  : result (list config) :=
  match rows with
  | [] => Ok configs
  | r :: rows' => c <- read_row r ;; read_rows rows' (configs ++ [c])
  end.

Definition getConfigurations (rows : list row) : result (list config) :=
  read_rows rows [].

(** *** saveConfig *)

(** The callback of [configs.map]. *)
Definition save_entry (c : config) : Doc.record :=
  {| Doc.test_value := VNum (test_value c);
     Doc.range_setting :=
       if strict_eq (range_setting c) (VStr (lit "N/A")) then VNull
       else range_setting c;
     Doc.io_type := io_type c;
     Doc.range_input := VStr (range_input c);
     Doc.reference := VStr (Number_toString (reference c));
     Doc.tolerance := VStr (Number_toString (tolerance c)) |}.

(** The document [configData] that [saveConfig] posts and offers for
    download; a failed extraction is caught and reported instead. *)
Definition saveConfig (rows : list row) : result Doc.t :=
  configs <- getConfigurations rows ;;
  Ok {| Doc.unit := unit filesInfo;
        Doc.configurations := Some (List.map save_entry configs) |}.

(** *** normalizeRangeSetting *)

Definition normalizeRangeSetting (v : value) : jsstring :=
  if strict_eq v VNull || strict_eq v VUndefined
     || strict_eq v (VStr (lit "None")) || strict_eq v (VStr (lit "null"))
  then lit "N/A"
  else trim (ToString v).

(** *** applyConfig *)

(** The condition [testValueMatch && rangeMatch && ioTypeMatch]. *)
Definition is_match (c : Doc.record) (r : row) : bool :=
  let configTestValue := parseFloat (Doc.test_value c) in
  let configRangeSetting := normalizeRangeSetting (Doc.range_setting c) in
  let configIoType := Doc.io_type c in
  let rowTestValue := parseFloat (dataset (testValue r)) in
  let rowRangeSetting := normalizeRangeSetting (dataset (rangeSetting r)) in
  let rowIoType := dataset (ioType r) in
  let testValueMatch :=
    ltb (abs (sub rowTestValue configTestValue)) tolerance_1e_4 in
  let rangeMatch := str_eqb rowRangeSetting configRangeSetting in
  let ioTypeMatch := strict_eq rowIoType configIoType in
  testValueMatch && rangeMatch && ioTypeMatch.

(** [if (f !== undefined && input) input.value = f], for the control
    [k] holding [current]. *)
Definition assign (k : control) (f : value) (current : jsstring) : jsstring :=
  match f with
  | VUndefined => current
  | _ => set_value k f
  end.

(** The three assignments made to a matching row. *)
Definition overwrite (c : Doc.record) (r : row) : row :=
  {| testValue := testValue r;
     rangeSetting := rangeSetting r;
     ioType := ioType r;
     rangeInput := assign RangeInput (Doc.range_input c) (rangeInput r);
     referenceInput := assign Reference (Doc.reference c) (referenceInput r);
     toleranceInput := assign Tolerance (Doc.tolerance c) (toleranceInput r) |}.

(** The inner [rows.forEach] for one record: the rows after it and the
    counter [loadedCount]. *)
Fixpoint apply_record (c : Doc.record) (rows : list row) (loadedCount : nat)
  : list row * nat :=
  match rows with
  | [] => ([], loadedCount)
  | r :: rows' =>
      if is_match c r then
        let (done, n) := apply_record c rows' (S loadedCount) in
        (overwrite c r :: done, n)
      else
        let (done, n) := apply_record c rows' loadedCount in
        (r :: done, n)
  end.

(** The outer [configurations.forEach]. *)
Fixpoint apply_records (cs : list Doc.record) (rows : list row)
  (loadedCount : nat) : list row * nat :=
  match cs with
  | [] => (rows, loadedCount)
  | c :: cs' =>
      let (rows', n) := apply_record c rows loadedCount in
      apply_records cs' rows' n
  end.

(** The merge: [applyConfig] from [const configurations = ...] on.  It
    yields the rows as it leaves them and the count it logs. *)
Definition merge (configurations : option (list Doc.record))
  (rows : list row) : list row * nat :=
  let configurations :=
    match configurations with Some cs => cs | None => [] end in
  apply_records configurations rows 0%nat.

(** [applyConfig(configData)]; [confirm] is the answer of the user to the
    dialog.  The count is [None] when the function returns before the
    merge. *)
Definition applyConfig (confirm : jsstring -> bool) (configData : Doc.t)
  (rows : list row) : list row * option nat :=
  if truthy (Doc.unit configData)
     && negb (strict_eq (Doc.unit configData) (unit filesInfo))
     && negb (confirm (lit "Config file unit ("
                         ++ ToString (Doc.unit configData)
                         ++ lit ") differs from current unit ("
                         ++ ToString (unit filesInfo)
                         ++ lit "). Load anyway?"))
  then (rows, None)
  else
    let (rows', n) := merge (Doc.configurations configData) rows in
    (rows', Some n).

End Page.

(** *** applyConfig on any parsed document

    [Doc.t] holds the documents whose [configurations], when present, is
    an array of objects, as [saveConfig] writes them.  A file picked by
    the user parses to any JSON value. *)

Module Loaded.

(** The value of the key [configurations]: [Absent] when the key is
    missing or its value is falsy, [Entries] for an array, [NotArray] for
    any other truthy value.  An entry of the array is [None] for [null];
    any other entry is given by the values read from its six keys, each
    [undefined] when the entry has no such key (as is the case of every
    key of a number, a boolean or a string). *)
Inductive configurations_value :=
| Absent
| Entries (entries : list (option Doc.record))
| NotArray.

Record t := {
  unit : value;
  configurations : configurations_value
}.

(** The TypeErrors [applyConfig] can run into: [configData] is
    [undefined], [configurations.forEach] is not a function, and [config]
    is [null] when [config.test_value] is read. *)
Inductive type_error :=
| UndefinedDocument
| ForEachNotAFunction
| NullEntry.

(** How [applyConfig] ends: it returns after the merge, having logged the
    count; it returns at the dialog; or it throws. *)
Inductive ending :=
| Merged (loadedCount : nat)
| Declined
| Thrown (e : type_error).

(** A document of [Doc.t] as a parsed document. *)
Definition of_doc (d : Doc.t) : t :=
  {| unit := Doc.unit d;
     configurations :=
       match Doc.configurations d with
       | Some cs => Entries (List.map Some cs)
       | None => Absent
       end |}.

End Loaded.

Section LoadedPage.

Context `{Controls}.
Variable filesInfo : files_info.

(** The outer [configurations.forEach] over the entries of an array: the
    rows as the entries before a [null] left them, when there is one. *)
Fixpoint apply_entries (entries : list (option Doc.record)) (rows : list row)
  (loadedCount : nat) : list row * Loaded.ending :=
  match entries with
  | [] => (rows, Loaded.Merged loadedCount)
  | None :: _ => (rows, Loaded.Thrown Loaded.NullEntry)
  | Some c :: entries' =>
      let (rows', n) := apply_record c rows loadedCount in
      apply_entries entries' rows' n
  end.

(** The merge on any value of [configurations]: [applyConfig] from
    [const configurations = ...] on. *)
Definition merge_loaded (configurations : Loaded.configurations_value)
  (rows : list row) : list row * Loaded.ending :=
  match configurations with
  | Loaded.Absent => apply_entries [] rows 0%nat
  | Loaded.Entries entries => apply_entries entries rows 0%nat
  | Loaded.NotArray => (rows, Loaded.Thrown Loaded.ForEachNotAFunction)
  end.

(** [applyConfig(configData)] on any document; [configData] is [None]
    for [undefined]. *)
Definition applyConfig_loaded (confirm : jsstring -> bool)
  (configData : option Loaded.t) (rows : list row)
  : list row * Loaded.ending :=
  match configData with
  | None => (rows, Loaded.Thrown Loaded.UndefinedDocument)
  | Some configData =>
      if truthy (Loaded.unit configData)
         && negb (strict_eq (Loaded.unit configData) (unit filesInfo))
         && negb (confirm (lit "Config file unit ("
                             ++ ToString (Loaded.unit configData)
                             ++ lit ") differs from current unit ("
                             ++ ToString (unit filesInfo)
                             ++ lit "). Load anyway?"))
      then (rows, Loaded.Declined)
      else merge_loaded (Loaded.configurations configData) rows
  end.

End LoadedPage.

(** *** The saved file *)

(** Modelled from the spec: the endpoints [/api/save-config] and
    [/api/load-config] (server code, not part of the script) store the
    posted document and return the parsed content of the uploaded file.
    The file is the JSON text of the document, so a value comes back as
    [JSON.parse (JSON.stringify v)]: a finite number is written with
    Number::toString and read back from that text, a [NaN] or an infinity
    is written as [null], and a key whose value is [undefined] is left
    out, which reads as [undefined] again. *)
Definition JSON_value (v : value) : value :=
  match v with
  | VNum x =>
      if is_finite x then VNum (parseFloat_string (Number_toString x))
      else VNull
  | _ => v
  end.

Definition JSON_record (c : Doc.record) : Doc.record :=
  {| Doc.test_value := JSON_value (Doc.test_value c);
     Doc.range_setting := JSON_value (Doc.range_setting c);
     Doc.io_type := JSON_value (Doc.io_type c);
     Doc.range_input := JSON_value (Doc.range_input c);
     Doc.reference := JSON_value (Doc.reference c);
     Doc.tolerance := JSON_value (Doc.tolerance c) |}.

(** Modelled from the spec: the document that loading the saved file of
    [d] hands to [applyConfig]. *)
Definition reload (d : Doc.t) : Doc.t :=
  {| Doc.unit := JSON_value (Doc.unit d);
     Doc.configurations :=
       option_map (List.map JSON_record) (Doc.configurations d) |}.

(** ** Vocabulary of the statements *)

(** *** Numbers and their texts *)

(** The exponent of the last bit of a binary64 whose leading bit has the
    exponent [e - 1]. *)
Definition fexp64 : Z -> Z := SpecFloat.fexp prec emax.

(** A value of [number] that is a binary64: the mantissa of a finite one
    is aligned and its exponent is in range. *)
Definition valid_number (x : number) : bool := valid_binary prec emax x.

(** A list of decimal digits. *)
Definition small (ds : list N) : Prop := Forall (fun d => (d < 10)%N) ds.

(** A string that does not go on with a decimal digit. *)
Definition no_digit_head (s : jsstring) : Prop :=
  match s with
  | [] => True
  | c :: _ => digit_value c = None
  end.

(** A candidate that stands for [x], with digits to print. *)
Definition good (x : number) (c : list N * Z) : Prop :=
  rounds_to x c = true /\ fst c <> [] /\ small (fst c).

(** The test value the script reads from a row and from a record. *)
Definition row_test_value (r : row) : number :=
  parseFloat (dataset (testValue r)).

Definition record_test_value (c : Doc.record) : number :=
  parseFloat (Doc.test_value c).

(** What one record does to one row. *)
Definition step `{Controls} (c : Doc.record) (r : row) : row :=
  if is_match c r then overwrite c r else r.

(** What a list of records, applied in order, does to one row. *)
Definition steps `{Controls} (cs : list Doc.record) (r : row) : row :=
  fold_left (fun r' c => step c r') cs r.

(** The pairs (record, row) that match. *)
Definition match_pairs (cs : list Doc.record) (rows : list row)
  : list (Doc.record * row) :=
  filter (fun p => is_match (fst p) (snd p)) (list_prod cs rows).

(** The three controls of a row: the field of a record that feeds each,
    and the text each holds. *)
Definition supplied (k : control) (c : Doc.record) : value :=
  match k with
  | RangeInput => Doc.range_input c
  | Reference => Doc.reference c
  | Tolerance => Doc.tolerance c
  end.

Definition text (k : control) (r : row) : jsstring :=
  match k with
  | RangeInput => rangeInput r
  | Reference => referenceInput r
  | Tolerance => toleranceInput r
  end.

(** The records of an array of entries that come before its first
    [null], and whether the array holds a [null]. *)
Fixpoint before_null (entries : list (option Doc.record)) : list Doc.record :=
  match entries with
  | Some c :: entries' => c :: before_null entries'
  | _ => []
  end.

Definition has_null (entries : list (option Doc.record)) : bool :=
  existsb (fun e => match e with None => true | Some _ => false end) entries.

(** The inputs the normalizer maps to the sentinel. *)
Definition is_absent (v : value) : Prop :=
  v = VNull \/ v = VUndefined \/ v = VStr (lit "None") \/ v = VStr (lit "null").

(** A string that does not begin with white space. *)
Definition starts_clean (s : jsstring) : Prop :=
  match s with
  | [] => True
  | c :: _ => is_whitespace c = false
  end.

(** The check [getConfigurations] makes on a row: reference and
    tolerance parse as numbers, and the tolerance is not below zero. *)
Definition row_valid (r : row) : bool :=
  let reference := parseFloat (VStr (referenceInput r)) in
  let tolerance := parseFloat (VStr (toleranceInput r)) in
  negb (isNaN reference || isNaN tolerance) && negb (ltb tolerance zero).

(** The record of a row. *)
Definition record_of_row (r : row) : config :=
  {| test_value := row_test_value r;
     range_setting := dataset (rangeSetting r);
     io_type := dataset (ioType r);
     range_input :=
       match trim (rangeInput r) with
       | [] => lit "N/A"
       | _ => trim (rangeInput r)
       end;
     reference := parseFloat (VStr (referenceInput r));
     tolerance := parseFloat (VStr (toleranceInput r)) |}.

(** The error thrown for a row that is not valid. *)
Definition validation_error (fi : files_info) (r : row) : exn :=
  let reference := parseFloat (VStr (referenceInput r)) in
  let tolerance := parseFloat (VStr (toleranceInput r)) in
  Error ((if isNaN reference || isNaN tolerance
          then lit "Invalid values for test point "
          else lit "Tolerance must be positive for test point ")
           ++ ToString (VNum (row_test_value r)) ++ lit " "
           ++ ToString (unit fi)).

(** The message of [e] ends with the test value of [r] and the unit. *)
Definition names_test_point (fi : files_info) (r : row) (e : exn) : Prop :=
  exists text,
    e = Error (text ++ ToString (VNum (row_test_value r)) ++ lit " "
                 ++ ToString (unit fi)).

(** *** The round trip *)

(** The record of a row as the file gives it back. *)
Definition saved (r : row) : Doc.record :=
  JSON_record (save_entry (record_of_row r)).

(** Save the rows, load the file, merge it onto the same rows. *)
Definition round_trip `{Controls} (fi : files_info) (rows : list row)
  : result (list row) :=
  d <- saveConfig fi rows ;;
  Ok (fst (merge (Doc.configurations (reload d)) rows)).

(** The texts of the three controls of a row. *)
Definition editable (r : row) : jsstring * jsstring * jsstring :=
  (rangeInput r, referenceInput r, toleranceInput r).

(** No saved record matches a row other than the one it was read from. *)
Fixpoint distinct_keys (rows : list row) : bool :=
  match rows with
  | [] => true
  | r :: rows' =>
      forallb (fun r' => negb (is_match (saved r) r')
                         && negb (is_match (saved r') r)) rows'
      && distinct_keys rows'
  end.

(** A row holding the texts of its own record, as its controls take
    them: the trimmed range input, or "N/A", and the decimal text of the
    two numbers. *)
Definition canonical `{Controls} (r : row) : row :=
  {| testValue := testValue r;
     rangeSetting := rangeSetting r;
     ioType := ioType r;
     rangeInput := sanitize RangeInput (range_input (record_of_row r));
     referenceInput :=
       sanitize Reference (Number_toString (reference (record_of_row r)));
     toleranceInput :=
       sanitize Tolerance (Number_toString (tolerance (record_of_row r))) |}.

(** The number [x] is read back from its own text. *)
Definition survives (x : number) : Prop :=
  parseFloat (VStr (Number_toString x)) = x.

(** The control [k] takes the text [s] as it is. *)
Definition keeps `{Controls} (k : control) (s : jsstring) : Prop :=
  sanitize k s = s.

(** The controls of a row take the texts of its record as they are. *)
Definition keeps_record `{Controls} (r : row) : Prop :=
  keeps RangeInput (range_input (record_of_row r))
  /\ keeps Reference (Number_toString (reference (record_of_row r)))
  /\ keeps Tolerance (Number_toString (tolerance (record_of_row r))).

(** A text without line breaks, which a text input takes as it is. *)
Definition one_line (s : jsstring) : Prop :=
  Forall (fun c => c <> 10%N /\ c <> 13%N) s.

(** Two records supply the same values to the three controls. *)
Definition same_supplied (c c' : Doc.record) : bool :=
  strict_eq (Doc.range_input c) (Doc.range_input c')
  && strict_eq (Doc.reference c) (Doc.reference c')
  && strict_eq (Doc.tolerance c) (Doc.tolerance c').

(** Whenever the saved record of a row matches a row, the saved record
    of that row supplies the same values: rows may share a key when they
    hold equal values. *)
Definition agreeing_keys (rows : list row) : bool :=
  forallb
    (fun r =>
       forallb
         (fun r' =>
            implb (is_match (saved r) r') (same_supplied (saved r) (saved r')))
         rows)
    rows.

(** Some saved record of [rows] matches the row [r]. *)
Definition matched (rows : list row) (r : row) : bool :=
  existsb (fun r0 => is_match (saved r0) r) rows.

(** The records [c] and [c'] are equal field by field, the numbers of
    reference and tolerance compared with [===]. *)
Definition same_config (c c' : config) : Prop :=
  test_value c' = test_value c
  /\ range_setting c' = range_setting c
  /\ io_type c' = io_type c
  /\ range_input c' = range_input c
  /\ eqb (reference c') (reference c) = true
  /\ eqb (tolerance c') (tolerance c) = true.

(** Neither the reference nor the tolerance of the row is [-0]. *)
Definition no_negative_zero (r : row) : Prop :=
  reference (record_of_row r) <> S754_zero true
  /\ tolerance (record_of_row r) <> S754_zero true.

(** *** Sample data *)

(** The controls of the samples are text inputs. *)
#[global] Instance text_inputs : Controls :=
  {| sanitize := fun _ => strip_newlines |}.

Definition sample_unit : files_info := {| unit := VStr (lit "V") |}.

Definition sample_row (tv rs io ri ref tol : string) : row :=
  {| testValue := Some (lit tv);
     rangeSetting := Some (lit rs);
     ioType := Some (lit io);
     rangeInput := lit ri;
     referenceInput := lit ref;
     toleranceInput := lit tol |}.

Definition sample_record (tv : string) (rs : value) (io : string)
  (ri ref tol : value) : Doc.record :=
  {| Doc.test_value := VNum (parseFloat_string (lit tv));
     Doc.range_setting := rs;
     Doc.io_type := VStr (lit io);
     Doc.range_input := ri;
     Doc.reference := ref;
     Doc.tolerance := tol |}.

(** Two rows with the same key and different references. *)
Definition duplicate_rows : list row :=
  [ sample_row "10" "N/A" "V" "N/A" "1" "0.1";
    sample_row "10" "N/A" "V" "N/A" "2" "0.1" ].

(** Two rows with different keys. *)
Definition distinct_rows : list row :=
  [ sample_row "10" "N/A" "V" "  bench A " "1.0" "0.10";
    sample_row "20" "Range1" "V" "" "2.5e0" "0" ].

(** Two rows with the same key that hold the same values, written in two
    ways, and a third row with a key of its own. *)
Definition agreeing_rows : list row :=
  [ sample_row "10" "N/A" "V" "  bench A " "1.0" "0.10";
    sample_row "10.00001" "None" "V" "bench A" "1" "1e-1";
    sample_row "20" "Range1" "V" "" "-0" "0" ].

(** ** The rest of the page script *)

(** *** getMeasurementTypeSelections *)

(** A [select.measurement-type-select]: its [data-filename] attribute and
    the value selected in it. *)
Record select := {
  filename : option jsstring;
  selected : jsstring
}.

(** An object whose properties hold strings: its own properties, in the
    order of their creation. *)
Definition object := list (jsstring * jsstring).

(** [o[key] = v]: an existing property takes the new value, a new one is
    added. *)
Fixpoint set_property (o : object) (key v : jsstring) : object :=
  match o with
  | [] => [(key, v)]
  | (k, w) :: o' =>
      if str_eqb k key then (k, v) :: o'
      else (k, w) :: set_property o' key v
  end.

(** [o[key]], [None] for [undefined]. *)
Fixpoint get_property (o : object) (key : jsstring) : option jsstring :=
  match o with
  | [] => None
  | (k, w) :: o' => if str_eqb k key then Some w else get_property o' key
  end.

(** The property key [selections[filename]] uses for a select. *)
Definition selection_key (s : select) : jsstring :=
  ToString (dataset (filename s)).

(** [o[key] = v] on a plain object, for a string [v]: the key
    [__proto__] reaches the setter inherited from [Object.prototype],
    which ignores a string and creates no property; every other key is
    set as an own property. *)
Definition assign_property (o : object) (key v : jsstring) : object :=
  if str_eqb key (lit "__proto__") then o else set_property o key v.

Definition getMeasurementTypeSelections (selects : list select) : object :=
  fold_left
    (fun selections s =>
       assign_property selections (selection_key s) (selected s))
    selects [].

(** *** What the handlers do to the page and the network *)

Inductive request :=
| ProcessRequest (measurement_types : object) (configs : list config)
    (equipment_number : jsstring)
| SaveRequest (configData : Doc.t).

(** [alert], the loading overlay shown with a message, a [fetch] with a
    JSON body, the download of a document under a file name,
    [showNotification] and [console.log]. *)
Inductive effect :=
| Alert (message : jsstring)
| Loading (message : jsstring)
| Fetch (url : jsstring) (body : request)
| Download (name : jsstring) (configData : Doc.t)
| Notification (message : jsstring)
| Log (message : jsstring).

(** The answer of [/api/save-config]. *)
Module SaveData.
Record data := { success : value }.
End SaveData.

(** The answer of [/api/load-config], an object the endpoint builds;
    [config] is [None] when the key is missing or [null], and otherwise
    what the uploaded file parses to. *)
Module LoadData.
Record data := { error : value; config : option Loaded.t }.
End LoadData.

Section Handlers.

Context `{Controls}.
Variable filesInfo : files_info.

(** The message the engine gives to each TypeError. *)
Variable TypeError_message : Loaded.type_error -> jsstring.

(** *** processFiles, up to the request *)

Definition processFiles (selects : list select) (rows : list row)
  (equipment_number : jsstring) : list effect :=
  let measurementTypes := getMeasurementTypeSelections selects in
  match getConfigurations filesInfo rows with
  | Throw (Error message) => [Alert (lit "Configuration error: " ++ message)]
  | Ok configs =>
      let equipmentNumber := trim equipment_number in
      [ Loading (lit "Processing files...");
        Fetch (lit "/api/process")
          (ProcessRequest measurementTypes configs equipmentNumber) ]
  end.

(** *** saveConfig: the request, and the handler of its answer *)

Definition saveConfig_request (rows : list row) : list effect :=
  match saveConfig filesInfo rows with
  | Throw (Error message) => [Alert (lit "Configuration error: " ++ message)]
  | Ok configData => [Fetch (lit "/api/save-config") (SaveRequest configData)]
  end.

Definition saveConfig_then (configData : Doc.t) (data : SaveData.data)
  : list effect :=
  if truthy (SaveData.success data) then
    [ Download (lit "test_config.json") configData;
      Notification (lit "Configuration saved successfully!") ]
  else [].

(** *** loadConfigFromFile: the handler of the answer *)

(** The [then] callback, with the [catch] that follows it: a TypeError
    thrown by [applyConfig] skips the notification and is reported by the
    [catch]; what [applyConfig] wrote before it threw stays written. *)
Definition loadConfigFromFile_then (confirm : jsstring -> bool)
  (data : LoadData.data) (rows : list row) : list row * list effect :=
  if truthy (LoadData.error data) then
    (rows, [Alert (lit "Error loading config: "
                     ++ ToString (LoadData.error data))])
  else
    let (rows', ending) :=
      applyConfig_loaded filesInfo confirm (LoadData.config data) rows in
    (rows',
     match ending with
     | Loaded.Merged n =>
         [ Log (lit "Applied "
                  ++ ToString (VNum (of_decimal false (N.of_nat n) 0))
                  ++ lit " configurations");
           Notification (lit "Configuration loaded successfully!") ]
     | Loaded.Declined =>
         [Notification (lit "Configuration loaded successfully!")]
     | Loaded.Thrown e => [Alert (lit "Load failed: " ++ TypeError_message e)]
     end).

End Handlers.

(** *** Vocabulary for the rest *)

(** The text the control [k] ends with after the records [cs], in
    order, went over the row [r]; [s] is the text it starts with. *)
Definition field_after `{Controls} (k : control) (cs : list Doc.record)
  (r : row) (s : jsstring) : jsstring :=
  fold_left
    (fun s' c => if is_match c r then assign k (supplied k c) s' else s') cs s.

(** A string of white space. *)
Definition all_whitespace (s : jsstring) : Prop :=
  Forall (fun c => is_whitespace c = true) s.

(** The last select that uses the property key [key]. *)
Fixpoint last_select (selects : list select) (key : jsstring)
  : option select :=
  match selects with
  | [] => None
  | s :: selects' =>
      match last_select selects' key with
      | Some s' => Some s'
      | None => if str_eqb (selection_key s) key then Some s else None
      end
  end.

(** The message of an exception. *)
Definition error_message (e : exn) : jsstring :=
  match e with Error message => message end.

(** A row and the same row with white space typed around the range input
    and in front of the reference and of the tolerance. *)
Definition padded (r r' : row) : Prop :=
  testValue r' = testValue r
  /\ rangeSetting r' = rangeSetting r
  /\ ioType r' = ioType r
  /\ (exists l t, all_whitespace l /\ all_whitespace t
                  /\ rangeInput r' = l ++ rangeInput r ++ t)
  /\ (exists l, all_whitespace l /\ referenceInput r' = l ++ referenceInput r)
  /\ (exists l, all_whitespace l /\ toleranceInput r' = l ++ toleranceInput r).

(** [applyConfig] opens the dialog for this document. *)
Definition prompts (fi : files_info) (d : Doc.t) : bool :=
  truthy (Doc.unit d) && negb (strict_eq (Doc.unit d) (unit fi)).

(** The text the control [k] takes from the value [v] of a record:
    [String(v)], the empty string for [null], sanitized. *)
Definition taken `{Controls} (k : control) (v : value) : jsstring :=
  match v with
  | VNull => sanitize k []
  | VUndefined | VBool _ | VNum _ | VStr _ => sanitize k (ToString v)
  end.

(** A field of a record that keeps a row valid when it is assigned: it
    is missing, or the text the control takes from it parses as a number
    (not below zero, for a tolerance). *)
Definition sound_reference `{Controls} (f : value) : bool :=
  match f with
  | VUndefined => true
  | _ => negb (isNaN (parseFloat_string (taken Reference f)))
  end.

Definition sound_tolerance `{Controls} (f : value) : bool :=
  match f with
  | VUndefined => true
  | _ => negb (isNaN (parseFloat_string (taken Tolerance f)))
         && negb (ltb (parseFloat_string (taken Tolerance f)) zero)
  end.

(** A string that does not begin with [N] or [n]. *)
Definition head_plain (s : jsstring) : Prop :=
  match s with
  | [] => True
  | c :: _ => c <> 78%N /\ c <> 110%N
  end.

(** The question of the dialog. *)
Definition unit_dialog (fi : files_info) (d : Loaded.t) : jsstring :=
  lit "Config file unit (" ++ ToString (Loaded.unit d)
    ++ lit ") differs from current unit (" ++ ToString (unit fi)
    ++ lit "). Load anyway?".

(** The dialog is opened and the user answers no. *)
Definition declined (fi : files_info) (confirm : jsstring -> bool)
  (d : Loaded.t) : bool :=
  truthy (Loaded.unit d) && negb (strict_eq (Loaded.unit d) (unit fi))
  && negb (confirm (unit_dialog fi d)).

(** The alert of the [catch] of [loadConfigFromFile]. *)
Definition load_failed (message : jsstring) : effect :=
  Alert (lit "Load failed: " ++ message).

(** The merge of the document runs to its end: its [configurations] is
    absent, or an array without a [null]. *)
Definition merges (d : Loaded.t) : bool :=
  match Loaded.configurations d with
  | Loaded.Absent => true
  | Loaded.Entries entries => negb (has_null entries)
  | Loaded.NotArray => false
  end.

(** The line [applyConfig] logs for a count. *)
Definition applied_log (n : nat) : effect :=
  Log (lit "Applied " ++ ToString (VNum (of_decimal false (N.of_nat n) 0))
         ++ lit " configurations").

Definition loaded_notice : effect :=
  Notification (lit "Configuration loaded successfully!").

(** What holds of every record that extraction returns. *)
Definition well_formed (c : config) : Prop :=
  isNaN (reference c) = false
  /\ isNaN (tolerance c) = false
  /\ ltb (tolerance c) zero = false
  /\ range_input c <> []
  /\ starts_clean (range_input c)
  /\ starts_clean (rev (range_input c)).


(** More sample data. *)
Definition sample_selects : list select :=
  [ {| filename := Some (lit "a.csv"); selected := lit "Voltage" |};
    {| filename := Some (lit "b.txt"); selected := lit "Current" |};
    {| filename := Some (lit "a.csv"); selected := lit "Resistance" |} ].

(** ** Tactics *)

(** Goals about sample data are closed by running the script. *)
Ltac by_evaluation := vm_compute; reflexivity.

(** A [Forall] over an explicit list, one row at a time. *)
Ltac each_row tac := repeat (constructor; [tac|]); constructor.

(** ** Strings and values *)

Lemma str_eqb_eq (a b : jsstring) : str_eqb a b = true <-> a = b.
Proof.
  revert b; induction a as [|x a IH]; intros [|y b]; simpl;
    try (split; [discriminate | discriminate]); try tauto.
  rewrite andb_true_iff, N.eqb_eq, IH.
  split; [intros [-> ->]; reflexivity | intros H; injection H; auto].
Qed.

Lemma str_eqb_refl (a : jsstring) : str_eqb a a = true.
Proof. apply str_eqb_eq; reflexivity. Qed.

(** A dataset attribute is a string or [undefined], on which [===] is
    equality of values. *)
Lemma strict_eq_dataset (o : option jsstring) (v : value) :
  strict_eq (dataset o) v = true <-> dataset o = v.
Proof.
  destruct o as [s|], v as [| |b|x|t]; simpl;
    try (split; [discriminate | discriminate]); try tauto.
  rewrite str_eqb_eq. split; [intros ->; reflexivity | congruence].
Qed.

Lemma strict_eq_string (v : value) (s : jsstring) :
  strict_eq v (VStr s) = true <-> v = VStr s.
Proof.
  destruct v as [| |b|x|t]; simpl;
    try (split; [discriminate | discriminate]).
  rewrite str_eqb_eq. split; [intros ->; reflexivity | congruence].
Qed.

(** *** trim *)

Lemma trimStart_clean (s : jsstring) : starts_clean (trimStart s).
Proof.
  induction s as [|c s IH]; simpl; [exact I|].
  destruct (is_whitespace c) eqn:Hc; [exact IH | exact Hc].
Qed.

Lemma trimStart_id (s : jsstring) : starts_clean s -> trimStart s = s.
Proof. destruct s as [|c s]; simpl; [reflexivity | intros ->; reflexivity]. Qed.

(** [trimStart] removes a run of white space at the front, and nothing
    else. *)
Lemma trimStart_split (s : jsstring) :
  exists l, s = l ++ trimStart s /\ Forall (fun c => is_whitespace c = true) l.
Proof.
  induction s as [|c s [l [Hs Hl]]]; simpl.
  - exists []; split; [reflexivity | constructor].
  - destruct (is_whitespace c) eqn:Hc.
    + exists (c :: l); split; [simpl; congruence | constructor; assumption].
    + exists []; split; [reflexivity | constructor].
Qed.

Lemma trimStart_app_clean (s t : jsstring) (c : code_unit) :
  is_whitespace c = false ->
  exists u, trimStart (s ++ c :: t) = u ++ c :: t.
Proof.
  intros Hc; induction s as [|d s [u Hu]]; simpl.
  - rewrite Hc. exists []; reflexivity.
  - destruct (is_whitespace d); [exists u; exact Hu | exists (d :: s); reflexivity].
Qed.

Lemma trimEnd_clean (s : jsstring) : starts_clean s -> starts_clean (trimEnd s).
Proof.
  unfold trimEnd. destruct s as [|c s]; simpl; [trivial|].
  intros Hc. destruct (trimStart_app_clean (rev s) [] c Hc) as [u Hu].
  rewrite Hu, rev_app_distr. simpl. exact Hc.
Qed.

Lemma trimEnd_idem (s : jsstring) : trimEnd (trimEnd s) = trimEnd s.
Proof.
  unfold trimEnd. rewrite rev_involutive.
  rewrite (trimStart_id (trimStart (rev s))); [reflexivity | apply trimStart_clean].
Qed.

Lemma trim_clean_start (s : jsstring) : starts_clean (trim s).
Proof. apply trimEnd_clean, trimStart_clean. Qed.

Lemma trim_clean_end (s : jsstring) : starts_clean (rev (trim s)).
Proof. unfold trim, trimEnd. rewrite rev_involutive. apply trimStart_clean. Qed.

Lemma trim_idem (s : jsstring) : trim (trim s) = trim s.
Proof.
  unfold trim at 1. rewrite (trimStart_id (trim s)) by apply trim_clean_start.
  unfold trim. apply trimEnd_idem.
Qed.

(** [trim] removes white space at both ends, and nothing else. *)
Lemma trim_split (s : jsstring) :
  exists l r,
    s = l ++ trim s ++ r
    /\ Forall (fun c => is_whitespace c = true) l
    /\ Forall (fun c => is_whitespace c = true) r.
Proof.
  destruct (trimStart_split s) as [l [Hs Hl]].
  destruct (trimStart_split (rev (trimStart s))) as [r [Hr Hrw]].
  exists l, (rev r). repeat split.
  - rewrite Hs at 1. f_equal. unfold trim, trimEnd.
    rewrite <- rev_app_distr, <- Hr, rev_involutive. reflexivity.
  - exact Hl.
  - apply Forall_rev. exact Hrw.
Qed.

(** ** Numbers and their texts

    Every number [parseFloat] returns is a binary64, and is read back from
    the text [Number::toString] gives for it; only [-0], whose text is
    "0", comes back as [0]. *)

(** *** The number of bits of an integer *)

Lemma digits2_size (p : positive) : digits2_pos p = Pos.size p.
Proof. induction p; simpl; congruence. Qed.

Lemma Zdigits2_log2 (p : positive) : Zdigits2 (Zpos p) = Z.log2 (Zpos p) + 1.
Proof.
  simpl. rewrite digits2_size. destruct p; simpl; try reflexivity; lia.
Qed.

Lemma Zdigits2_nonneg (z : Z) : 0 <= Zdigits2 z.
Proof. destruct z; simpl; lia. Qed.

Lemma Zdigits2_le (a b : Z) : 0 <= a <= b -> Zdigits2 a <= Zdigits2 b.
Proof.
  intros [Ha Hab]. destruct a as [|a|a]; [apply Zdigits2_nonneg| |lia].
  destruct b as [|b|b]; try lia.
  rewrite !Zdigits2_log2. pose proof (Z.log2_le_mono (Zpos a) (Zpos b) Hab). lia.
Qed.

Lemma Zdigits2_shiftr (m n : Z) :
  0 <= m -> 0 <= n -> Zdigits2 (m / 2 ^ n) = Z.max 0 (Zdigits2 m - n).
Proof.
  intros Hm Hn. destruct m as [|m|m]; [|clear Hm|lia].
  - rewrite Z.div_0_l by (apply Z.pow_nonzero; lia). simpl. lia.
  - rewrite <- Z.shiftr_div_pow2 by exact Hn.
    pose proof (Z.log2_shiftr (Zpos m) n ltac:(lia)) as Hl.
    pose proof (Z.shiftr_nonneg (Zpos m) n) as Hs.
    destruct (Z.shiftr (Zpos m) n) as [|q|q] eqn:Hq.
    + rewrite Zdigits2_log2. simpl Zdigits2.
      assert (Hlt : Z.log2 (Zpos m) < n).
      { destruct (Z.lt_ge_cases (Z.log2 (Zpos m)) n) as [H|H]; [exact H|].
        exfalso. 
        assert (Z.shiftr (Zpos m) n <> 0).
        { rewrite Z.shiftr_eq_0_iff. intros [H0|[_ H1]]; lia. }
        congruence. }
      lia.
    + rewrite !Zdigits2_log2. rewrite Hl.
      assert (Hge : n <= Z.log2 (Zpos m)).
      { destruct (Z.lt_ge_cases (Z.log2 (Zpos m)) n) as [H|H]; [|exact H].
        exfalso. assert (Z.shiftr (Zpos m) n = 0).
        { apply Z.shiftr_eq_0; lia. }
        congruence. }
      lia.
    + lia.
Qed.

Lemma Zdigits2_shiftl (m : positive) (t : Z) :
  0 <= t -> Zdigits2 (Zpos m * 2 ^ t) = Zdigits2 (Zpos m) + t.
Proof.
  intros Ht.
  assert (Hp : 0 < Zpos m * 2 ^ t) by (apply Z.mul_pos_pos; [lia|apply Z.pow_pos_nonneg; lia]).
  destruct (Zpos m * 2 ^ t) as [|q|q] eqn:Hq; try lia.
  rewrite !Zdigits2_log2, <- Hq, Z.log2_mul_pow2 by lia. lia.
Qed.

(** *** Shifting a mantissa to the right *)
Lemma shr_1_m (r : shr_record) : 0 <= shr_m r -> shr_m (shr_1 r) = shr_m r / 2.
Proof.
  destruct r as [m rb sb]. simpl. intros Hm.
  destruct m as [|[p|p|]|p]; simpl; try lia; try reflexivity.
  - rewrite Pos2Z.inj_xI. apply Z.div_unique with 1; lia.
  - rewrite Pos2Z.inj_xO. apply Z.div_unique with 0; lia.
Qed.

Lemma iter_shr_m (p : positive) : forall r,
  0 <= shr_m r -> shr_m (iter_pos shr_1 p r) = shr_m r / 2 ^ Zpos p.
Proof.
  induction p as [p IH|p IH|]; intros r Hr; cbn [iter_pos].
  - assert (H1 : 0 <= shr_m (shr_1 r)).
    { rewrite shr_1_m by exact Hr. apply Z.div_pos; lia. }
    assert (H2 : 0 <= shr_m (iter_pos shr_1 p (shr_1 r))).
    { rewrite IH by exact H1. apply Z.div_pos; [exact H1|]. apply Z.pow_pos_nonneg; lia. }
    rewrite IH by exact H2. rewrite IH by exact H1. rewrite shr_1_m by exact Hr.
    rewrite !Z.div_div by (try apply Z.pow_pos_nonneg; lia).
    f_equal.
    assert (E : Zpos p~1 = 1 + Zpos p + Zpos p) by lia. rewrite E.
    rewrite !Z.pow_add_r by lia. lia.
  - assert (H2 : 0 <= shr_m (iter_pos shr_1 p r)).
    { rewrite IH by exact Hr. apply Z.div_pos; [exact Hr|]. apply Z.pow_pos_nonneg; lia. }
    rewrite IH by exact H2. rewrite IH by exact Hr.
    rewrite !Z.div_div by (try apply Z.pow_pos_nonneg; lia).
    f_equal.
    assert (E : Zpos p~0 = Zpos p + Zpos p) by lia. rewrite E.
    rewrite !Z.pow_add_r by lia. lia.
  - rewrite shr_1_m by exact Hr. reflexivity.
Qed.

Lemma shr_spec (r : shr_record) (e n : Z) :
  0 <= shr_m r -> 0 <= n ->
  shr_m (fst (shr r e n)) = shr_m r / 2 ^ n /\ snd (shr r e n) = e + n.
Proof.
  intros Hr Hn. destruct n as [|p|p]; simpl; try lia.
  - rewrite Z.div_1_r. split; [reflexivity|lia].
  - split; [|reflexivity]. apply iter_shr_m, Hr.
Qed.

Lemma shr_m_of_loc (m : Z) (l : location) : shr_m (shr_record_of_loc m l) = m.
Proof. destruct l as [|[]]; reflexivity. Qed.

Lemma round_nearest_even_bounds (m : Z) (l : location) :
  m <= round_nearest_even m l <= m + 1.
Proof. destruct l as [|[]]; simpl; try lia. destruct (Z.even m); lia. Qed.

Lemma fexp_mono (a b : Z) : a <= b -> fexp64 a <= fexp64 b.
Proof. unfold fexp64, SpecFloat.fexp, emin, prec, emax. lia. Qed.

(** Rounding a mantissa that has bits to spare gives a binary64. *)
Lemma binary_round_aux_valid (sx : bool) (mx ex : Z) (lx : location) :
  0 <= mx -> ex <= fexp64 (Zdigits2 mx + ex) ->
  valid_binary prec emax (binary_round_aux prec emax sx mx ex lx) = true.
Proof.
  intros Hmx Hex. unfold binary_round_aux, shr_fexp. fold fexp64.
  set (n1 := fexp64 (Zdigits2 mx + ex) - ex).
  assert (Hn1 : 0 <= n1) by (unfold n1; lia).
  destruct (shr_spec (shr_record_of_loc mx lx) ex n1) as [Hm1 He1];
    [rewrite shr_m_of_loc; exact Hmx | exact Hn1 |].
  destruct (shr (shr_record_of_loc mx lx) ex n1) as [mrs1 e1].
  cbn [fst snd] in Hm1, He1. rewrite shr_m_of_loc in Hm1.
  set (m1' := round_nearest_even (shr_m mrs1) (loc_of_shr_record mrs1)).
  assert (Hm1pos : 0 <= shr_m mrs1).
  { rewrite Hm1. apply Z.div_pos; [exact Hmx|]. apply Z.pow_pos_nonneg; lia. }
  pose proof (round_nearest_even_bounds (shr_m mrs1) (loc_of_shr_record mrs1)) as Hb.
  fold m1' in Hb.
  set (n2 := fexp64 (Zdigits2 m1' + e1) - e1).
  assert (Hn2 : 0 <= n2).
  { unfold n2. 
    assert (Zdigits2 (shr_m mrs1) <= Zdigits2 m1') by (apply Zdigits2_le; lia).
    assert (Zdigits2 (shr_m mrs1) = Z.max 0 (Zdigits2 mx - n1))
      by (rewrite Hm1; apply Zdigits2_shiftr; assumption).
    assert (fexp64 (Zdigits2 mx + ex) <= fexp64 (Zdigits2 m1' + e1)) by (apply fexp_mono; lia).
    unfold n1 in He1. lia. }
  destruct (shr_spec (shr_record_of_loc m1' loc_Exact) e1 n2) as [Hm2 He2];
    [rewrite shr_m_of_loc; lia | exact Hn2 |].
  destruct (shr (shr_record_of_loc m1' loc_Exact) e1 n2) as [mrs2 e2].
  cbn [fst snd] in Hm2, He2. rewrite shr_m_of_loc in Hm2.
  destruct (shr_m mrs2) as [|m2|m2] eqn:Hmm; [reflexivity| |reflexivity].
  destruct (e2 <=? emax - prec) eqn:Hle; [|reflexivity].
  simpl. unfold bounded, canonical_mantissa. fold fexp64.
  rewrite Hle, andb_true_r. apply Z.eqb_eq.
  assert (Hd : Zdigits2 (Zpos m2) = Z.max 0 (Zdigits2 m1' - n2)).
  { rewrite Hm2. apply Zdigits2_shiftr; lia. }
  simpl Zdigits2 in Hd.
  replace (Zpos (digits2_pos m2) + e2) with (Zdigits2 m1' + e1) by (unfold n2 in *; lia).
  unfold n2 in He2. lia.
Qed.

Lemma iter_shr_exact (p : positive) : forall m : positive,
  iter_pos shr_1 p (Build_shr_record (Zpos m * 2 ^ Zpos p) false false)
  = Build_shr_record (Zpos m) false false.
Proof.
  assert (H1 : forall m : positive,
    shr_1 (Build_shr_record (Zpos m * 2) false false) = Build_shr_record (Zpos m) false false).
  { intros m. replace (Zpos m * 2) with (Zpos (xO m)) by lia. reflexivity. }
  induction p as [p IH|p IH|]; intros m; cbn [iter_pos].
  - assert (E : Zpos p~1 = Zpos p + Zpos p + 1) by lia. rewrite E.
    rewrite !Z.pow_add_r by lia. change (2 ^ 1) with 2.
    assert (Hq : exists q : positive, Zpos q = Zpos m * 2 ^ Zpos p * 2 ^ Zpos p).
    { assert (0 < Zpos m * 2 ^ Zpos p * 2 ^ Zpos p)
        by (repeat apply Z.mul_pos_pos; try apply Z.pow_pos_nonneg; lia).
      destruct (Zpos m * 2 ^ Zpos p * 2 ^ Zpos p) as [|q|q]; try lia. exists q; reflexivity. }
    destruct Hq as [q Hq].
    replace (Zpos m * (2 ^ Zpos p * 2 ^ Zpos p * 2)) with (Zpos q * 2) by lia.
    rewrite H1, Hq.
    assert (Hq' : exists q' : positive, Zpos q' = Zpos m * 2 ^ Zpos p).
    { assert (0 < Zpos m * 2 ^ Zpos p)
        by (repeat apply Z.mul_pos_pos; try apply Z.pow_pos_nonneg; lia).
      destruct (Zpos m * 2 ^ Zpos p) as [|q'|q']; try lia. exists q'; reflexivity. }
    destruct Hq' as [q' Hq']. rewrite <- Hq', IH, Hq'. apply IH.
  - assert (E : Zpos p~0 = Zpos p + Zpos p) by lia. rewrite E.
    rewrite !Z.pow_add_r by lia.
    assert (Hq' : exists q' : positive, Zpos q' = Zpos m * 2 ^ Zpos p).
    { assert (0 < Zpos m * 2 ^ Zpos p)
        by (repeat apply Z.mul_pos_pos; try apply Z.pow_pos_nonneg; lia).
      destruct (Zpos m * 2 ^ Zpos p) as [|q'|q']; try lia. exists q'; reflexivity. }
    destruct Hq' as [q' Hq'].
    replace (Zpos m * (2 ^ Zpos p * 2 ^ Zpos p)) with (Zpos q' * 2 ^ Zpos p) by lia.
    rewrite IH, Hq'. apply IH.
  - change (2 ^ 1) with 2. apply H1.
Qed.

(** Rounding a binary64 written with [t] more bits gives it back. *)
Lemma binary_round_aux_exact (s : bool) (m : positive) (e t : Z) :
  bounded prec emax m e = true -> 0 <= t ->
  binary_round_aux prec emax s (Zpos m * 2 ^ t) (e - t) loc_Exact
  = S754_finite s m e.
Proof.
  unfold bounded, canonical_mantissa. fold fexp64.
  intros Hb Ht. apply andb_true_iff in Hb. destruct Hb as [Hc Hle].
  apply Z.eqb_eq in Hc.
  unfold binary_round_aux, shr_fexp. fold fexp64.
  rewrite Zdigits2_shiftl by exact Ht. simpl Zdigits2.
  replace (fexp64 (Zpos (digits2_pos m) + t + (e - t)) - (e - t)) with t
    by (replace (Zpos (digits2_pos m) + t + (e - t)) with (Zpos (digits2_pos m) + e) by lia; lia).
  assert (Hshr : shr (shr_record_of_loc (Zpos m * 2 ^ t) loc_Exact) (e - t) t
                 = (Build_shr_record (Zpos m) false false, e)).
  { destruct t as [|p|p]; try lia.
    - simpl. rewrite Pos.mul_1_r. f_equal. lia.
    - unfold shr. cbn [shr_record_of_loc]. rewrite iter_shr_exact. f_equal. lia. }
  rewrite Hshr. cbn [shr_m loc_of_shr_record round_nearest_even].
  simpl Zdigits2. rewrite Hc. rewrite Z.sub_diag.
  cbn [shr shr_record_of_loc shr_m]. rewrite Hle. reflexivity.
Qed.

(** *** The decimal conversion gives a binary64 *)

Lemma iter_xO (d : positive) (m : positive) :
  Zpos (Pos.iter xO m d) = Zpos m * 2 ^ Zpos d.
Proof.
  revert m. induction d as [d IH|d IH|]; intros m; cbn [Pos.iter].
  - rewrite Pos2Z.inj_xO, !IH.
    assert (E : Zpos d~1 = Zpos d + Zpos d + 1) by lia. rewrite E.
    rewrite !Z.pow_add_r by lia. change (2 ^ 1) with 2. lia.
  - rewrite !IH.
    assert (E : Zpos d~0 = Zpos d + Zpos d) by lia. rewrite E.
    rewrite !Z.pow_add_r by lia. lia.
  - change (2 ^ 1) with 2. lia.
Qed.

Lemma binary_round_valid (sx : bool) (mx : positive) (ex : Z) :
  valid_number (binary_round prec emax sx mx ex) = true.
Proof.
  unfold valid_number, binary_round, shl_align. fold fexp64.
  set (d := fexp64 (Zpos (digits2_pos mx) + ex)).
  destruct (d - ex) as [|p|p] eqn:Hd.
  - apply binary_round_aux_valid; [lia|]. simpl Zdigits2. fold d. lia.
  - apply binary_round_aux_valid; [lia|]. simpl Zdigits2. fold d. lia.
  - apply binary_round_aux_valid; [lia|].
    rewrite iter_xO, Zdigits2_shiftl by lia. simpl Zdigits2.
    replace (Zpos (digits2_pos mx) + Zpos p + d) with (Zpos (digits2_pos mx) + ex) by lia.
    fold d. lia.
Qed.

Lemma Zdigits2_bounds (z : Z) :
  0 < z -> 2 ^ (Zdigits2 z - 1) <= z < 2 ^ Zdigits2 z.
Proof.
  intros Hz. destruct z as [|p|p]; try lia.
  rewrite Zdigits2_log2. replace (Z.log2 (Zpos p) + 1 - 1) with (Z.log2 (Zpos p)) by lia.
  pose proof (Z.log2_spec (Zpos p) Hz) as H.
  replace (Z.succ (Z.log2 (Zpos p))) with (Z.log2 (Zpos p) + 1) in H by lia. exact H.
Qed.

Lemma Zdigits2_ge (z d : Z) : 0 <= d -> 2 ^ d <= z -> d + 1 <= Zdigits2 z.
Proof.
  intros Hd Hz.
  assert (0 < z) by (pose proof (Z.pow_pos_nonneg 2 d); lia).
  destruct (Zdigits2_bounds z H) as [_ Hlt].
  destruct (Z.lt_ge_cases d (Zdigits2 z)) as [Hc|Hc]; [lia|].
  exfalso. pose proof (Z.pow_le_mono_r 2 (Zdigits2 z) d ltac:(lia) Hc). lia.
Qed.

Lemma shift_match (m s : Z) :
  0 <= s ->
  match s with Zpos _ => Z.shiftl m s | 0 => m | Zneg _ => 0 end = m * 2 ^ s.
Proof.
  intros Hs. destruct s as [|p|p]; try lia.
  apply Z.shiftl_mul_pow2. lia.
Qed.

Lemma SFdiv_valid (sx sy : bool) (mx my : positive) :
  valid_number (SFdiv prec emax (S754_finite sx mx 0) (S754_finite sy my 0)) = true.
Proof.
  unfold valid_number, SFdiv, SFdiv_core_binary. fold fexp64.
  set (d1 := Zdigits2 (Zpos mx)). set (d2 := Zdigits2 (Zpos my)).
  replace (d1 + 0 - (d2 + 0)) with (d1 - d2) by lia.
  change (0 - 0) with 0.
  set (e' := Z.min (fexp64 (d1 - d2)) 0).
  set (s := 0 - e').
  assert (Hs : 0 <= s) by (unfold s, e'; lia).
  set (m' := match s with Zpos _ => Z.shiftl (Zpos mx) s | 0 => Zpos mx | Zneg _ => 0 end).
  assert (Hm' : m' = Zpos mx * 2 ^ s) by (apply shift_match; exact Hs).
  pose proof (Z_div_mod m' (Zpos my) ltac:(lia)) as Hdm.
  destruct (Z.div_eucl m' (Zpos my)) as [q r] eqn:Hqr.
  destruct Hdm as [Heq Hr].
  assert (Hq : q = m' / Zpos my).
  { apply Z.div_unique with r; [left; lia | exact Heq]. }
  assert (Hq0 : 0 <= q).
  { rewrite Hq. apply Z.div_pos; [|lia]. rewrite Hm'.
    apply Z.mul_nonneg_nonneg; [lia|]. apply Z.pow_nonneg; lia. }
  apply binary_round_aux_valid; [exact Hq0|].
  (* digits of the quotient *)
  assert (Hdq : d1 + s - d2 <= Zdigits2 q).
  { destruct (Z.le_gt_cases (d1 + s - d2) 0) as [Hc|Hc];
      [pose proof (Zdigits2_nonneg q); lia|].
    destruct (Zdigits2_bounds (Zpos mx) ltac:(lia)) as [H1 _].
    destruct (Zdigits2_bounds (Zpos my) ltac:(lia)) as [_ H2].
    fold d1 in H1. fold d2 in H2.
    assert (Hd1 : 1 <= d1) by (unfold d1; simpl; lia).
    assert (Hd2 : 1 <= d2) by (unfold d2; simpl; lia).
    assert (Hpow : 2 ^ (d1 + s - d2 - 1) * Zpos my <= m').
    { rewrite Hm'.
      assert (2 ^ (d1 + s - d2 - 1) * 2 ^ d2 = 2 ^ (d1 - 1) * 2 ^ s).
      { rewrite <- !Z.pow_add_r by lia. f_equal. lia. }
      assert (0 < 2 ^ (d1 + s - d2 - 1)) by (apply Z.pow_pos_nonneg; lia).
      assert (0 < 2 ^ s) by (apply Z.pow_pos_nonneg; lia).
      apply Z.le_trans with (2 ^ (d1 + s - d2 - 1) * 2 ^ d2).
      - apply Z.mul_le_mono_nonneg_l; lia.
      - rewrite H. apply Z.mul_le_mono_nonneg_r; lia. }
    assert (2 ^ (d1 + s - d2 - 1) <= q).
    { rewrite Hq. apply Z.div_le_lower_bound; [lia|]. lia. }
    pose proof (Zdigits2_ge q (d1 + s - d2 - 1) ltac:(lia) H). lia. }
  assert (fexp64 (d1 - d2) <= fexp64 (Zdigits2 q + e')) by (apply fexp_mono; unfold s in *; lia).
  unfold e' in *. lia.
Qed.

Lemma of_decimal_valid (neg : bool) (m : N) (e10 : Z) :
  valid_number (of_decimal neg m e10) = true.
Proof.
  unfold of_decimal. destruct m as [|p]; [reflexivity|].
  destruct (0 <=? e10) eqn:He.
  - assert (Hp : 0 < Zpos p * 10 ^ e10).
    { apply Z.mul_pos_pos; [lia|]. apply Z.pow_pos_nonneg; lia. }
    destruct (Zpos p * 10 ^ e10) as [|q|q] eqn:Hq; try lia.
    destruct neg; simpl; apply binary_round_valid.
  - apply SFdiv_valid.
Qed.

Lemma parse_unsigned_valid (neg : bool) (s : jsstring) : valid_number
  (parse_unsigned neg s) = true.
Proof.
  unfold parse_unsigned.
  destruct (strip_prefix (lit "Infinity") s); [reflexivity|].
  destruct (take_digits s) as [ip r1].
  destruct r1 as [|c r2].
  - destruct ip; [reflexivity|apply of_decimal_valid].
  - assert (Hdef : valid_number
                     match ip with
                     | [] => NaN
                     | _ :: _ =>
                         of_decimal neg (digits_value ip)
                           (parse_exponent (c :: r2))
                     end = true).
    { destruct ip; [reflexivity|apply of_decimal_valid]. }
    destruct c as [|c]; [exact Hdef|].
    do 6 (destruct c as [c|c|]; try exact Hdef).
    destruct (take_digits r2) as [fp r3].
    destruct ip; destruct fp; try reflexivity; apply of_decimal_valid.
Qed.

Lemma parseFloat_string_valid (s : jsstring) : valid_number
  (parseFloat_string s) = true.
Proof.
  unfold parseFloat_string.
  destruct (trimStart s) as [|c r]; [reflexivity|].
  assert (Hdef : valid_number (parse_unsigned false (c :: r)) = true) by apply parse_unsigned_valid.
  destruct c as [|c]; [exact Hdef|].
  do 6 (destruct c as [c|c|]; try exact Hdef); apply parse_unsigned_valid.
Qed.

(** *** A decimal that is a binary64 converts to it *)

Lemma bounded_canonical (m : positive) (e : Z) :
  bounded prec emax m e = true ->
  fexp64 (Zpos (digits2_pos m) + e) = e /\ e <= emax - prec.
Proof.
  unfold bounded, canonical_mantissa. fold fexp64. intros H.
  apply andb_true_iff in H. destruct H as [H1 H2].
  apply Z.eqb_eq in H1. apply Z.leb_le in H2. split; assumption.
Qed.

Lemma Zpos_of_pos (z : Z) : 0 < z -> exists p, z = Zpos p.
Proof. destruct z as [|p|p]; try lia. exists p; reflexivity. Qed.

(** An integer that is a number converts to that number. *)
Lemma of_decimal_integer (m : positive) (e : Z) :
  bounded prec emax m e = true -> 0 <= e ->
  of_decimal false (Z.to_N (Zpos m * 2 ^ e)) 0 = S754_finite false m e.
Proof.
  intros Hb He. destruct (bounded_canonical m e Hb) as [Hc _].
  destruct (Zpos_of_pos (Zpos m * 2 ^ e)) as [p Hp].
  { apply Z.mul_pos_pos; [lia|]. apply Z.pow_pos_nonneg; lia. }
  rewrite Hp. cbn [Z.to_N]. unfold of_decimal. cbn [Z.leb Z.compare].
  change (10 ^ 0) with 1. rewrite Z.mul_1_r. cbn [cond_Zopp binary_normalize].
  unfold binary_round, shl_align. fold fexp64.
  assert (Hd : Zpos (digits2_pos p) = Zpos (digits2_pos m) + e).
  { change (Zdigits2 (Zpos p) = Zdigits2 (Zpos m) + e).
    rewrite <- Hp. apply Zdigits2_shiftl, He. }
  rewrite Hd, Z.add_0_r, Hc, Z.sub_0_r.
  destruct e as [|e'|e']; try lia.
  - rewrite <- Hp. apply (binary_round_aux_exact false m 0 0 Hb). lia.
  - rewrite <- Hp.
    pose proof (binary_round_aux_exact false m (Zpos e') (Zpos e') Hb ltac:(lia)) as H.
    rewrite Z.sub_diag in H. exact H.
Qed.

Lemma new_location_0 (n : Z) : new_location n 0 = loc_Exact.
Proof. unfold new_location. destruct (Z.even n); reflexivity. Qed.

Lemma Zdigits2_mul_le (a b : positive) :
  Zdigits2 (Zpos a * Zpos b) <= Zdigits2 (Zpos a) + Zdigits2 (Zpos b).
Proof.
  change (Zpos a * Zpos b) with (Zpos (a * b)). rewrite !Zdigits2_log2.
  pose proof (Z.log2_mul_above (Zpos a) (Zpos b) ltac:(lia) ltac:(lia)).
  change (Zpos a * Zpos b) with (Zpos (a * b)) in H. lia.
Qed.

(** A number with a fractional part is the quotient of its decimal
    expansion by a power of ten. *)
Lemma of_decimal_fraction (m : positive) (j : positive) :
  bounded prec emax m (Zneg j) = true ->
  of_decimal false (Z.to_N (Zpos m * 5 ^ Zpos j)) (Zneg j)
  = S754_finite false m (Zneg j).
Proof.
  intros Hb. destruct (bounded_canonical m _ Hb) as [Hc _].
  destruct (Zpos_of_pos (5 ^ Zpos j)) as [p5 Hp5]; [apply Z.pow_pos_nonneg; lia|].
  assert (Hten : 10 ^ Zpos j = Zpos p5 * 2 ^ Zpos j).
  { change 10 with (5 * 2). rewrite Z.pow_mul_l, Hp5. reflexivity. }
  destruct (Zpos_of_pos (10 ^ Zpos j)) as [p10 Hp10]; [apply Z.pow_pos_nonneg; lia|].
  rewrite Hp5. change (Zpos m * Zpos p5) with (Zpos (m * p5)). cbn [Z.to_N].
  unfold of_decimal. cbn [Z.leb Z.compare Z.opp]. rewrite Hp10. cbn [Z.to_pos].
  unfold SFdiv, SFdiv_core_binary. fold fexp64.
  set (d1 := Zdigits2 (Zpos (m * p5))). set (d2 := Zdigits2 (Zpos p10)).
  replace (d1 + 0 - (d2 + 0)) with (d1 - d2) by lia.
  change (0 - 0) with 0.
  assert (Hd2 : d2 = Zdigits2 (Zpos p5) + Zpos j).
  { unfold d2. rewrite <- Hp10, Hten. apply Zdigits2_shiftl. lia. }
  assert (Hd1 : d1 <= Zdigits2 (Zpos m) + Zdigits2 (Zpos p5)).
  { unfold d1. apply (Zdigits2_mul_le m p5). }
  assert (Hf : fexp64 (d1 - d2) <= Zneg j).
  { assert (fexp64 (d1 - d2) <= fexp64 (Zpos (digits2_pos m) + Zneg j))
      by (apply fexp_mono; simpl Zdigits2 in *; lia).
    lia. }
  replace (Z.min (fexp64 (d1 - d2)) 0) with (fexp64 (d1 - d2)) by lia.
  set (e' := fexp64 (d1 - d2)) in *.
  rewrite (shift_match (Zpos (m * p5)) (0 - e')) by lia.
  set (t := 0 - e' - Zpos j).
  assert (Ht : 0 <= t) by (unfold t; lia).
  assert (Hnum : Zpos (m * p5) * 2 ^ (0 - e') = Zpos p10 * (Zpos m * 2 ^ t)).
  { replace (0 - e') with (t + Zpos j) by (unfold t; lia).
    rewrite Z.pow_add_r by lia. rewrite <- Hp10, Hten.
    change (Zpos (m * p5)) with (Zpos m * Zpos p5). ring. }
  rewrite Hnum.
  assert (Hdiv : Z.div_eucl (Zpos p10 * (Zpos m * 2 ^ t)) (Zpos p10) = (Zpos m * 2 ^ t, 0)).
  { pose proof (Z_div_mod (Zpos p10 * (Zpos m * 2 ^ t)) (Zpos p10) ltac:(lia)) as H.
    destruct (Z.div_eucl _ _) as [q r]. destruct H as [H1 H2].
    assert (q = Zpos m * 2 ^ t) by nia. subst q. f_equal. lia. }
  rewrite Hdiv, new_location_0. cbn [xorb].
  replace e' with (Zneg j - t) by (unfold t; lia).
  apply binary_round_aux_exact; assumption.
Qed.

(** *** Equality of numbers *)

Lemma eqb_refl_finite (s : bool) (m : positive) (e : Z) :
  eqb (S754_finite s m e) (S754_finite s m e) = true.
Proof.
  unfold eqb, SFeqb, SFcompare. rewrite Z.compare_refl.
  change (Pos.compare_cont Eq m m) with (Pos.compare m m).
  rewrite Pos.compare_refl. destruct s; reflexivity.
Qed.

Lemma eqb_finite_eq (a : number) (s : bool) (m : positive) (e : Z) :
  eqb a (S754_finite s m e) = true -> a = S754_finite s m e.
Proof.
  unfold eqb, SFeqb, SFcompare.
  destruct a as [sa|sa| |sa ma ea]; try (destruct sa; discriminate);
    try (destruct s; discriminate); try discriminate.
  destruct (Z.compare ea e) eqn:He;
    destruct sa, s; try discriminate;
    apply Z.compare_eq in He; subst;
    change (Pos.compare_cont Eq ma m) with (Pos.compare ma m);
    destruct (Pos.compare ma m) eqn:Hm; try discriminate;
    apply Pos.compare_eq in Hm; subst; reflexivity.
Qed.

(** *** The sign *)

Lemma binary_round_aux_sign (mx ex : Z) (lx : location) :
  binary_round_aux prec emax true mx ex lx
  = SFopp (binary_round_aux prec emax false mx ex lx).
Proof.
  unfold binary_round_aux.
  destruct (shr_fexp prec emax mx ex lx) as [m1 e1].
  destruct (shr_fexp prec emax _ e1 loc_Exact) as [m2 e2].
  destruct (shr_m m2); try reflexivity.
  destruct (e2 <=? emax - prec); reflexivity.
Qed.

Lemma of_decimal_sign (m : N) (e10 : Z) :
  of_decimal true m e10 = SFopp (of_decimal false m e10).
Proof.
  unfold of_decimal. destruct m as [|p]; [reflexivity|].
  destruct (0 <=? e10) eqn:He.
  - apply Z.leb_le in He.
    destruct (Zpos_of_pos (Zpos p * 10 ^ e10)) as [q Hq].
    { apply Z.mul_pos_pos; [lia|]. apply Z.pow_pos_nonneg; lia. }
    rewrite Hq. cbn [cond_Zopp Z.opp binary_normalize]. unfold binary_round.
    destruct (shl_align q 0 _) as [mz ez]. apply binary_round_aux_sign.
  - unfold SFdiv. destruct (SFdiv_core_binary _ _ _ _ _ _) as [[mz ez] lz].
    apply binary_round_aux_sign.
Qed.

(** A power of ten moves between the digits and the exponent. *)
Lemma of_decimal_shift (neg : bool) (m : N) (z : Z) :
  0 <= z -> of_decimal neg (m * Z.to_N (10 ^ z)) 0 = of_decimal neg m z.
Proof.
  intros Hz. unfold of_decimal. destruct m as [|p]; [reflexivity|].
  destruct (Zpos_of_pos (10 ^ z)) as [t Ht]; [apply Z.pow_pos_nonneg; lia|].
  rewrite Ht. cbn [Z.to_N N.mul]. cbn [Z.leb Z.compare].
  assert ((0 <=? z) = true) as -> by (apply Z.leb_le; exact Hz).
  change (10 ^ 0) with 1. rewrite Z.mul_1_r. reflexivity.
Qed.

(** *** Decimal digits *)

Lemma digits_value_acc (d : Decimal.uint) (acc : positive) :
  fold_left (fun a x => (10 * a + x)%N) (uint_digits d) (Npos acc)
  = Npos (Pos.of_uint_acc d acc).
Proof.
  revert acc. induction d; intros acc; cbn [uint_digits fold_left Pos.of_uint_acc];
    try reflexivity; rewrite <- IHd; f_equal; lia.
Qed.

Lemma digits_value_uint (d : Decimal.uint) :
  digits_value (uint_digits d) = N.of_uint d.
Proof.
  unfold digits_value, N.of_uint.
  induction d; cbn [uint_digits fold_left Pos.of_uint]; try reflexivity;
    try exact IHd; apply digits_value_acc.
Qed.

Lemma digits_value_decimal (n : N) : digits_value (decimal_digits n) = n.
Proof. unfold decimal_digits. rewrite digits_value_uint. apply DecimalN.Unsigned.of_to. Qed.

Lemma uint_digits_small (u : Decimal.uint) : small (uint_digits u).
Proof. induction u; cbn [uint_digits]; constructor; try assumption; lia. Qed.

Lemma decimal_digits_small (n : N) : small (decimal_digits n).
Proof. apply uint_digits_small. Qed.

Lemma decimal_digits_nonempty (n : N) : decimal_digits n <> [].
Proof.
  unfold decimal_digits. destruct n as [|p]; [discriminate|].
  intros H. pose proof (DecimalN.Unsigned.of_to (Npos p)) as Hp.
  rewrite <- digits_value_uint, H in Hp. discriminate.
Qed.

Lemma digits_value_app (a b : list N) :
  digits_value (a ++ b)
  = (digits_value a * 10 ^ N.of_nat (List.length b) + digits_value b)%N.
Proof.
  unfold digits_value. rewrite fold_left_app.
  generalize (fold_left (fun acc d => (10 * acc + d)%N) a 0%N) as v.
  induction b as [|d b IH]; intros v; cbn [fold_left List.length].
  - change (N.of_nat 0) with 0%N. rewrite N.pow_0_r. lia.
  - rewrite (IH (10 * v + d)%N), (IH (10 * 0 + d)%N).
    rewrite Nat2N.inj_succ, N.pow_succ_r'. lia.
Qed.

Lemma digits_value_zeros (n : nat) : digits_value (repeat 0%N n) = 0%N.
Proof.
  unfold digits_value. induction n; cbn [repeat fold_left]; [reflexivity|exact IHn].
Qed.

Lemma repeat_small (n : nat) : small (repeat 0%N n).
Proof. induction n; constructor; [lia|assumption]. Qed.

(** *** Reading digits *)

Lemma digit_value_char (d : N) : (d < 10)%N -> digit_value
  (digit_char d) = Some d.
Proof.
  intros H. unfold digit_value, digit_char.
  assert (((48 <=? 48 + d) && (48 + d <=? 57))%N = true) as ->.
  { apply andb_true_iff. split; apply N.leb_le; lia. }
  f_equal. lia.
Qed.

Lemma take_digits_chars (ds : list N) (rest : jsstring) :
  small ds -> no_digit_head rest ->
  take_digits (List.map digit_char ds ++ rest) = (ds, rest).
Proof.
  intros Hs Hr. induction Hs as [|d ds Hd _ IH]; cbn [List.map app].
  - destruct rest as [|c r]; [reflexivity|]. cbn [take_digits].
    cbn [no_digit_head] in Hr. rewrite Hr. reflexivity.
  - cbn [take_digits]. rewrite digit_value_char by exact Hd. rewrite IH. reflexivity.
Qed.

Lemma digit_char_cases (d : N) :
  (d < 10)%N ->
  In (digit_char d) [48; 49; 50; 51; 52; 53; 54; 55; 56; 57]%N.
Proof.
  intros H. unfold digit_char.
  assert (Hc : (d = 0 \/ d = 1 \/ d = 2 \/ d = 3 \/ d = 4 \/ d = 5 \/ d = 6
               \/ d = 7 \/ d = 8 \/ d = 9)%N) by lia.
  cbn [In]. repeat destruct Hc as [-> | Hc]; try subst d; cbn; tauto.
Qed.

Lemma strip_prefix_digit (d : N) (s : jsstring) :
  (d < 10)%N -> strip_prefix (lit "Infinity") (digit_char d :: s) = None.
Proof.
  intros H. pose proof (digit_char_cases d H) as Hc. cbn [In] in Hc.
  repeat destruct Hc as [<- | Hc]; try reflexivity. contradiction.
Qed.

Lemma parseFloat_string_digit (d : N) (s : jsstring) :
  (d < 10)%N ->
  parseFloat_string (digit_char d :: s) = parse_unsigned false (digit_char d :: s).
Proof.
  intros H. pose proof (digit_char_cases d H) as Hc. cbn [In] in Hc.
  repeat destruct Hc as [<- | Hc]; try reflexivity. contradiction.
Qed.

(** *** Reading back a printed number *)

Lemma take_digits_end (ds : list N) :
  small ds -> take_digits (List.map digit_char ds) = (ds, []).
Proof.
  intros H. rewrite <- (app_nil_r (List.map digit_char ds)).
  apply take_digits_chars; [exact H | exact I].
Qed.

Lemma parse_exponent_text (neg : bool) (E : N) :
  parse_exponent (101%N :: (if neg then 45%N else 43%N) :: decimal_string E)
  = cond_Zopp neg (Z.of_N E).
Proof.
  unfold parse_exponent, decimal_string. cbn [N.eqb Pos.eqb orb].
  assert (H : fst (take_digits (List.map digit_char (decimal_digits E)))
              = decimal_digits E).
  { rewrite take_digits_end by apply decimal_digits_small. reflexivity. }
  destruct neg; cbn [fst snd]; rewrite H;
    pose proof (decimal_digits_nonempty E) as Hn;
    pose proof (digits_value_decimal E) as Hv;
    destruct (decimal_digits E); try contradiction; rewrite Hv; reflexivity.
Qed.

(** Digits alone, up to the end of the text or to an exponent. *)
Lemma parse_integer_end (neg : bool) (ds : list N) :
  ds <> [] -> small ds ->
  parse_unsigned neg (List.map digit_char ds)
  = of_decimal neg (digits_value ds) 0.
Proof.
  intros Hn Hs. unfold parse_unsigned.
  rewrite take_digits_end by exact Hs.
  destruct ds as [|d ds]; [contradiction|]. cbn [List.map].
  rewrite strip_prefix_digit by (inversion Hs; assumption). reflexivity.
Qed.

Lemma parse_integer_exp (neg : bool) (ds : list N) (r : jsstring) :
  ds <> [] -> small ds ->
  parse_unsigned neg (List.map digit_char ds ++ 101%N :: r)
  = of_decimal neg (digits_value ds) (parse_exponent (101%N :: r)).
Proof.
  intros Hn Hs. unfold parse_unsigned.
  rewrite take_digits_chars by (try exact Hs; reflexivity).
  destruct ds as [|d ds]; [contradiction|]. cbn [List.map app].
  rewrite strip_prefix_digit by (inversion Hs; assumption). reflexivity.
Qed.

(** Digits, a point, digits, then the end of the text or an exponent. *)
Lemma parse_fraction (neg : bool) (ip fp : list N) (rest : jsstring) :
  ip <> [] -> small ip -> small fp -> no_digit_head rest ->
  parse_unsigned neg
    (List.map digit_char ip ++ 46%N :: List.map digit_char fp ++ rest)
  = of_decimal neg (digits_value (ip ++ fp))
      (parse_exponent rest - Z.of_nat (List.length fp)).
Proof.
  intros Hn Hi Hf Hr. unfold parse_unsigned.
  rewrite take_digits_chars by (try exact Hi; reflexivity).
  rewrite take_digits_chars by assumption.
  destruct ip as [|d ip]; [contradiction|]. cbn [List.map app].
  rewrite strip_prefix_digit by (inversion Hi; assumption). reflexivity.
Qed.

Lemma small_app (a b : list N) : small a -> small b -> small (a ++ b).
Proof. intros Ha Hb. apply Forall_app. split; assumption. Qed.

Lemma small_firstn (n : nat) (ds : list N) : small ds -> small (firstn n ds).
Proof.
  intros H. rewrite <- (firstn_skipn n ds) in H. apply Forall_app in H. tauto.
Qed.

Lemma small_skipn (n : nat) (ds : list N) : small ds -> small (skipn n ds).
Proof.
  intros H. rewrite <- (firstn_skipn n ds) in H. apply Forall_app in H. tauto.
Qed.

Lemma digits_value_lead (n : nat) (ds : list N) :
  digits_value (repeat 0%N n ++ ds) = digits_value ds.
Proof.
  rewrite digits_value_app, digits_value_zeros. lia.
Qed.

Lemma map_repeat_zero (n : nat) :
  repeat 48%N n = List.map digit_char (repeat 0%N n).
Proof. induction n; cbn [repeat List.map]; [reflexivity|]. rewrite IHn. reflexivity. Qed.

(** What the text of the digits [ds] at the exponent [n] reads as. *)
Lemma parse_format_decimal (neg : bool) (ds : list N) (n : Z) :
  ds <> [] -> small ds ->
  parse_unsigned neg (format_decimal ds n)
  = of_decimal neg (digits_value ds) (n - Z.of_nat (List.length ds)).
Proof.
  intros Hn Hs. unfold format_decimal.
  set (k := Z.of_nat (List.length ds)).
  destruct ((k <=? n) && (n <=? 21)) eqn:H1.
  { apply andb_true_iff in H1. destruct H1 as [H1 _]. apply Z.leb_le in H1.
    rewrite map_repeat_zero, <- map_app.
    rewrite parse_integer_end.
    - rewrite digits_value_app, digits_value_zeros, repeat_length.
      rewrite N.add_0_r, <- (of_decimal_shift neg (digits_value ds) (n - k)) by lia.
      f_equal. f_equal. rewrite Z2N.inj_pow by lia. f_equal. lia.
    - destruct ds; [contradiction|discriminate].
    - apply small_app; [exact Hs | apply repeat_small]. }
  destruct ((0 <? n) && (n <=? 21)) eqn:H2.
  { apply andb_true_iff in H2. destruct H2 as [H2 H3].
    apply Z.ltb_lt in H2. rewrite H3, andb_true_r in H1. apply Z.leb_gt in H1.
    rewrite firstn_map, skipn_map.
    rewrite <- (app_nil_r (List.map digit_char (skipn (Z.to_nat n) ds))).
    rewrite parse_fraction.
    - rewrite firstn_skipn, length_skipn. cbn [parse_exponent].
      f_equal. unfold k in *. lia.
    - destruct ds as [|d ds']; [contradiction|].
      destruct (Z.to_nat n) eqn:Hz; [lia|discriminate].
    - apply small_firstn, Hs.
    - apply small_skipn, Hs.
    - exact I. }
  destruct ((-6 <? n) && (n <=? 0)) eqn:H3.
  { apply andb_true_iff in H3. destruct H3 as [_ H3]. apply Z.leb_le in H3.
    change (48%N :: 46%N :: repeat 48%N (Z.to_nat (- n)) ++ List.map digit_char ds)
      with (List.map digit_char [0%N] ++ 46%N
              :: repeat 48%N (Z.to_nat (- n)) ++ List.map digit_char ds).
    rewrite map_repeat_zero, <- map_app.
    rewrite <- (app_nil_r (List.map digit_char (repeat 0%N (Z.to_nat (- n)) ++ ds))).
    rewrite parse_fraction.
    - change ([0%N] ++ repeat 0%N (Z.to_nat (- n)) ++ ds)
        with (repeat 0%N (S (Z.to_nat (- n))) ++ ds).
      rewrite digits_value_lead, length_app, repeat_length. cbn [parse_exponent].
      f_equal. unfold k. lia.
    - discriminate.
    - constructor; [lia|constructor].
    - apply small_app; [apply repeat_small | exact Hs].
    - exact I. }
  set (e := n - 1).
  assert (Hexp : parse_exponent
                   (101%N :: (if e <? 0 then 45%N else 43%N)
                      :: decimal_string (Z.to_N (Z.abs e))) = e).
  { rewrite (parse_exponent_text (e <? 0) (Z.to_N (Z.abs e))).
    destruct (e <? 0) eqn:He; cbn [cond_Zopp].
    - apply Z.ltb_lt in He. lia.
    - apply Z.ltb_ge in He. lia. }
  destruct ds as [|d [|d' ds']]; [contradiction| |].
  - cbn [List.map]. change ([digit_char d]) with (List.map digit_char [d]).
    rewrite parse_integer_exp by (try discriminate; exact Hs).
    rewrite Hexp. f_equal; try (unfold e, k; cbn [List.length]; lia).
  - cbn [List.map].
    change ((digit_char d :: 46%N :: digit_char d' :: List.map digit_char ds')
            ++ 101%N :: (if e <? 0 then 45%N else 43%N)
               :: decimal_string (Z.to_N (Z.abs e)))
      with (List.map digit_char [d] ++ 46%N :: List.map digit_char (d' :: ds')
            ++ 101%N :: (if e <? 0 then 45%N else 43%N)
               :: decimal_string (Z.to_N (Z.abs e))).
    rewrite parse_fraction.
    + rewrite Hexp. f_equal; try (unfold e, k; cbn [List.length]; lia).
    + discriminate.
    + inversion Hs; subst. constructor; [assumption|constructor].
    + inversion Hs; assumption.
    + reflexivity.
Qed.

(** *** The digit search *)

Lemma candidate_digits (q s : Z) :
  fst (candidate q s) <> [] /\ small (fst (candidate q s)).
Proof.
  unfold candidate. cbn [fst].
  split; [apply decimal_digits_nonempty | apply decimal_digits_small].
Qed.

Lemma pick_good (k : Z) (x : number) (num den n0 : Z) (c : list N * Z) :
  pick k x num den n0 = Some c -> good x c.
Proof.
  unfold pick.
  set (q := n0 - k). set (lo := scaled_floor num den q).
  set (take_lo := candidate q lo).
  set (take_hi := if lo + 1 =? 10 ^ k then ([1%N], q + k + 1) else candidate q (lo + 1)).
  assert (Hlo : fst take_lo <> [] /\ small (fst take_lo)) by apply candidate_digits.
  assert (Hhi : fst take_hi <> [] /\ small (fst take_hi)).
  { unfold take_hi. destruct (lo + 1 =? 10 ^ k); [|apply candidate_digits].
    cbn [fst]. split; [discriminate|]. constructor; [lia|constructor]. }
  destruct (rounds_to x take_lo) eqn:Rlo; destruct (rounds_to x take_hi) eqn:Rhi;
    intros H; try discriminate; injection H as <-; unfold good.
  - destruct (if 0 <=? q then _ else _); [destruct (Z.even lo)| |]; tauto.
  - tauto.
  - tauto.
Qed.

Lemma pick_exact (k : Z) (x : number) (num den n0 : Z) :
  rounds_to x (candidate (n0 - k) (scaled_floor num den (n0 - k))) = true ->
  pick k x num den n0 <> None.
Proof.
  unfold pick. intros ->.
  destruct (rounds_to x _); discriminate.
Qed.

(** The search ends on a candidate that stands for [x] when one of the
    numbers of digits it tries has one. *)
Lemma shortest_digits_good (x : number) (num den n0 : Z) (fuel : nat) :
  forall k,
    (exists k', k <= k' <= k + Z.of_nat fuel
                /\ rounds_to x (candidate (n0 - k') (scaled_floor num den (n0 - k')))
                   = true) ->
    good x (shortest_digits fuel k x num den n0).
Proof.
  induction fuel as [|fuel IH]; intros k (k' & Hk & Hr); cbn [shortest_digits].
  - destruct (pick k x num den n0) as [c|] eqn:Hp; [apply (pick_good _ _ _ _ _ _ Hp)|].
    exfalso. assert (k' = k) by lia. subst k'.
    apply (pick_exact k x num den n0 Hr Hp).
  - destruct (pick k x num den n0) as [c|] eqn:Hp; [apply (pick_good _ _ _ _ _ _ Hp)|].
    apply IH. exists k'. split; [|exact Hr].
    assert (k' <> k).
    { intros ->. apply (pick_exact k x num den n0 Hr Hp). }
    lia.
Qed.

Lemma shortest_digits_small (fuel : nat) (k : Z) (x : number) (num den n0 : Z) :
  Forall (fun d => (d < 10)%N) (fst (shortest_digits fuel k x num den n0)).
Proof.
  revert k; induction fuel as [|fuel IH]; intros k; cbn [shortest_digits];
    destruct (pick k x num den n0) as [c|] eqn:Hp;
    try (apply (pick_good _ _ _ _ _ _ Hp)); [|apply IH].
  apply candidate_digits.
Qed.

(** *** The exact decimal expansion *)

Lemma rounds_to_candidate (x : number) (q s : Z) :
  rounds_to x (candidate q s) = eqb (of_decimal false (Z.to_N s) q) x.
Proof.
  unfold rounds_to, candidate. cbn [fst snd].
  rewrite digits_value_decimal. f_equal. f_equal. lia.
Qed.

Lemma exact_integer (m : positive) (e : Z) :
  bounded prec emax m e = true -> 0 <= e ->
  rounds_to (S754_finite false m e)
    (candidate 0 (scaled_floor (Zpos m * 2 ^ e) 1 0)) = true.
Proof.
  intros Hb He. rewrite rounds_to_candidate.
  unfold scaled_floor. cbn [Z.leb Z.compare].
  change (1 * 10 ^ 0) with 1. rewrite Z.div_1_r.
  rewrite of_decimal_integer by assumption. apply eqb_refl_finite.
Qed.

Lemma exact_fraction (m j : positive) :
  bounded prec emax m (Zneg j) = true ->
  rounds_to (S754_finite false m (Zneg j))
    (candidate (Zneg j) (scaled_floor (Zpos m) (2 ^ Zpos j) (Zneg j))) = true.
Proof.
  intros Hb. rewrite rounds_to_candidate.
  unfold scaled_floor. cbn [Z.leb Z.compare Z.opp].
  assert (Hdiv : Zpos m * 10 ^ Zpos j / 2 ^ Zpos j = Zpos m * 5 ^ Zpos j).
  { change 10 with (5 * 2). rewrite Z.pow_mul_l, Z.mul_assoc.
    apply Z.div_mul. apply Z.pow_nonzero; lia. }
  rewrite Hdiv, of_decimal_fraction by exact Hb. apply eqb_refl_finite.
Qed.

(** *** The decimal exponent *)

Lemma first_scale_le (num den j : Z) (fuel : nat) :
  forall i,
    i <= j -> den <= num * 10 ^ j -> j - i < Z.of_nat fuel ->
    first_scale fuel num den i <= j.
Proof.
  induction fuel as [|fuel IH]; intros i Hi Hj Hf; [lia|].
  cbn [first_scale]. destruct (den <=? num * 10 ^ i) eqn:Hc; [exact Hi|].
  apply Z.leb_gt in Hc.
  assert (i <> j) by (intros ->; lia).
  apply IH; lia.
Qed.

Lemma decimal_exponent_integer (num : Z) :
  1 <= num -> 1 <= decimal_exponent num 1.
Proof.
  intros H. unfold decimal_exponent.
  assert ((1 <=? num) = true) as -> by (apply Z.leb_le; exact H).
  pose proof (decimal_digits_nonempty (Z.to_N (num / 1))).
  destruct (decimal_digits (Z.to_N (num / 1))); [contradiction|].
  cbn [List.length]. lia.
Qed.

Lemma decimal_exponent_fraction (m j : positive) :
  1 - Zpos j <= decimal_exponent (Zpos m) (2 ^ Zpos j).
Proof.
  unfold decimal_exponent.
  destruct (2 ^ Zpos j <=? Zpos m).
  - pose proof (decimal_digits_nonempty (Z.to_N (Zpos m / 2 ^ Zpos j))).
    destruct (decimal_digits _); [contradiction|]. cbn [List.length]. lia.
  - rewrite Z.log2_pow2 by lia.
    assert (first_scale (S (Z.to_nat (Zpos j))) (Zpos m) (2 ^ Zpos j) 1 <= Zpos j);
      [|lia].
    apply first_scale_le; [lia| |lia].
    assert (2 ^ Zpos j <= 10 ^ Zpos j) by (apply Z.pow_le_mono_l; lia).
    assert (0 < 10 ^ Zpos j) by (apply Z.pow_pos_nonneg; lia).
    nia.
Qed.

(** *** A number is read back from its text *)

(** The exact expansion is within the reach of the search. *)
Lemma shortest_digits_finite (m : positive) (e : Z) :
  bounded prec emax m e = true ->
  let num := if 0 <=? e then Zpos m * 2 ^ e else Zpos m in
  let den := if 0 <=? e then 1 else 2 ^ (- e) in
  let n0 := decimal_exponent num den in
  good (S754_finite false m e)
    (shortest_digits (Z.to_nat (Z.max 16 (n0 + Z.max 0 (- e)))) 1
       (S754_finite false m e) num den n0).
Proof.
  intros Hb num den n0. apply shortest_digits_good.
  destruct e as [|e|j].
  - exists n0. unfold n0, num, den. cbn [Z.leb Z.compare].
    split.
    + pose proof (decimal_exponent_integer (Zpos m * 2 ^ 0) ltac:(lia)). lia.
    + rewrite Z.sub_diag. apply exact_integer; [exact Hb|lia].
  - exists n0. unfold n0, num, den. cbn [Z.leb Z.compare].
    split.
    + assert (1 <= Zpos m * 2 ^ Zpos e).
      { pose proof (Z.pow_pos_nonneg 2 (Zpos e)). nia. }
      pose proof (decimal_exponent_integer (Zpos m * 2 ^ Zpos e) H). lia.
    + rewrite Z.sub_diag. apply exact_integer; [exact Hb|lia].
  - exists (n0 + Zpos j). unfold n0, num, den. cbn [Z.leb Z.compare Z.opp].
    split.
    + pose proof (decimal_exponent_fraction m j). lia.
    + replace (decimal_exponent (Zpos m) (2 ^ Zpos j)
               - (decimal_exponent (Zpos m) (2 ^ Zpos j) + Zpos j))
        with (Zneg j) by lia.
      apply exact_fraction, Hb.
Qed.

Theorem parse_toString_finite (s : bool) (m : positive) (e : Z) :
  bounded prec emax m e = true ->
  parseFloat_string (Number_toString (S754_finite s m e)) = S754_finite s m e.
Proof.
  intros Hb. pose proof (shortest_digits_finite m e Hb) as Hg.
  cbv zeta in Hg. unfold Number_toString.
  destruct (shortest_digits _ 1 _ _ _ _) as [ds n].
  destruct Hg as (Hr & Hn & Hs). cbn [fst snd] in Hr, Hn, Hs.
  unfold rounds_to in Hr. cbn [fst snd] in Hr. apply eqb_finite_eq in Hr.
  assert (Hhead : exists d r, (d < 10)%N /\ format_decimal ds n = digit_char d :: r).
  { unfold format_decimal.
    destruct ds as [|d ds']; [contradiction|].
    assert (Hd : (d < 10)%N) by (inversion Hs; assumption).
    cbn [List.map].
    destruct ((Z.of_nat (List.length (d :: ds')) <=? n) && (n <=? 21));
      [eexists d, _; split; [exact Hd|reflexivity]|].
    destruct ((0 <? n) && (n <=? 21)) eqn:H2.
    { apply andb_true_iff in H2. destruct H2 as [H2 _]. apply Z.ltb_lt in H2.
      destruct (Z.to_nat n) eqn:Hz; [lia|]. cbn [firstn app].
      eexists d, _; split; [exact Hd|reflexivity]. }
    destruct ((-6 <? n) && (n <=? 0)).
    { exists 0%N. eexists. split; [lia|reflexivity]. }
    destruct ds'; eexists d, _; (split; [exact Hd|reflexivity]). }
  destruct Hhead as (d & r & Hd & Hf).
  destruct s; cbn [app].
  - change (parseFloat_string (45%N :: format_decimal ds n))
      with (parse_unsigned true (format_decimal ds n)).
    rewrite parse_format_decimal by assumption.
    rewrite of_decimal_sign, Hr. reflexivity.
  - rewrite Hf, parseFloat_string_digit by exact Hd. rewrite <- Hf.
    rewrite parse_format_decimal by assumption. exact Hr.
Qed.

Theorem parse_toString (x : number) :
  valid_number x = true -> isNaN x = false ->
  eqb (parseFloat_string (Number_toString x)) x = true
  /\ (x <> S754_zero true -> parseFloat_string (Number_toString x) = x).
Proof.
  intros Hv Hn. destruct x as [s|s| |s m e]; try discriminate.
  - split; [destruct s; reflexivity|]. destruct s; [congruence|reflexivity].
  - split; [destruct s; reflexivity|]. destruct s; reflexivity.
  - rewrite parse_toString_finite by exact Hv.
    split; [apply eqb_refl_finite|reflexivity].
Qed.

(** ** The merge *)

(** Matching reads the [data-*] attributes only, which no assignment of
    the merge touches. *)
Lemma is_match_overwrite `{controls : Controls} (c c' : Doc.record) (r : row) :
  is_match c (overwrite c' r) = is_match c r.
Proof. reflexivity. Qed.

Lemma is_match_step `{controls : Controls} (c c' : Doc.record) (r : row) :
  is_match c (step c' r) = is_match c r.
Proof. unfold step. destruct (is_match c' r); reflexivity. Qed.

Lemma is_match_steps `{controls : Controls} (c : Doc.record)
  (cs : list Doc.record) (r : row) :
  is_match c (steps cs r) = is_match c r.
Proof.
  unfold steps. revert r; induction cs as [|c' cs IH]; intros r; simpl.
  - reflexivity.
  - rewrite IH. apply is_match_step.
Qed.

Lemma filter_match_map_step `{controls : Controls} (c c' : Doc.record)
  (rows : list row) :
  List.length (filter (is_match c) (List.map (step c') rows))
  = List.length (filter (is_match c) rows).
Proof.
  induction rows as [|r rows IH]; cbn [List.map filter]; [reflexivity|].
  rewrite is_match_step.
  destruct (is_match c r); cbn [List.length]; rewrite IH; reflexivity.
Qed.

(** The inner loop overwrites exactly the matching rows and counts them. *)
Lemma apply_record_spec `{controls : Controls} (c : Doc.record)
  (rows : list row) (n : nat) :
  apply_record c rows n
  = (List.map (step c) rows, (n + List.length (filter (is_match c) rows))%nat).
Proof.
  revert n; induction rows as [|r rows IH]; intros n; simpl.
  - f_equal. lia.
  - unfold step at 1. destruct (is_match c r); rewrite IH; simpl; f_equal; lia.
Qed.

Lemma count_after_step `{controls : Controls} (c : Doc.record)
  (cs : list Doc.record) (rows : list row) :
  list_sum (List.map (fun c' => List.length (filter (is_match c') (List.map (step c) rows))) cs)
  = list_sum (List.map (fun c' => List.length (filter (is_match c') rows)) cs).
Proof.
  induction cs as [|c' cs IH]; simpl; [reflexivity|].
  rewrite filter_match_map_step, IH. reflexivity.
Qed.

(** The outer loop: every row goes through all the records in order, and
    the counter adds up the matches of each record. *)
Lemma apply_records_spec `{controls : Controls} (cs : list Doc.record)
  (rows : list row) (n : nat) :
  apply_records cs rows n
  = (List.map (steps cs) rows,
     (n + list_sum (List.map (fun c => List.length (filter (is_match c) rows)) cs))%nat).
Proof.
  revert rows n; induction cs as [|c cs IH]; intros rows n; simpl.
  - rewrite map_id. f_equal. lia.
  - rewrite apply_record_spec, IH, map_map, count_after_step.
    f_equal. lia.
Qed.

Lemma match_pairs_count (cs : list Doc.record) (rows : list row) :
  List.length (match_pairs cs rows)
  = list_sum (List.map (fun c => List.length (filter (is_match c) rows)) cs).
Proof.
  unfold match_pairs. induction cs as [|c cs IH]; simpl; [reflexivity|].
  rewrite filter_app, length_app, IH. f_equal.
  clear IH. induction rows as [|r rows IHr]; simpl; [reflexivity|].
  destruct (is_match c r); simpl; rewrite IHr; reflexivity.
Qed.

Lemma merge_spec `{controls : Controls} (cs : list Doc.record)
  (rows : list row) :
  merge (Some cs) rows
  = (List.map (steps cs) rows, List.length (match_pairs cs rows)).
Proof.
  unfold merge. rewrite apply_records_spec, match_pairs_count. reflexivity.
Qed.

(** Index-wise reading of a [map]. *)
Lemma Forall2_map_nth {A B : Type} (P : A -> B -> Prop) (f : A -> B)
  (l : list A) :
  (forall j a, nth_error l j = Some a -> P a (f a)) ->
  Forall2 P l (List.map f l).
Proof.
  induction l as [|a l IH]; intros H; simpl; constructor.
  - apply (H 0%nat). reflexivity.
  - apply IH. intros j b Hj. apply (H (S j)). exact Hj.
Qed.

(** Records that do not match a row leave it as it is. *)
Lemma steps_no_match `{controls : Controls} (cs : list Doc.record) (r : row) :
  (forall c, In c cs -> is_match c r = false) -> steps cs r = r.
Proof.
  unfold steps. induction cs as [|c cs IH]; intros H; simpl; [reflexivity|].
  unfold step at 2. rewrite (H c) by (left; reflexivity).
  apply IH. intros c' Hc'. apply H. right; exact Hc'.
Qed.

Lemma steps_dataset `{controls : Controls} (cs : list Doc.record) (r : row) :
  testValue (steps cs r) = testValue r
  /\ rangeSetting (steps cs r) = rangeSetting r
  /\ ioType (steps cs r) = ioType r.
Proof.
  unfold steps. revert r; induction cs as [|c cs IH]; intros r; simpl.
  - repeat split.
  - destruct (IH (step c r)) as (H1 & H2 & H3). rewrite H1, H2, H3.
    unfold step. destruct (is_match c r); repeat split.
Qed.

Lemma steps_app `{controls : Controls} (cs1 cs2 : list Doc.record) (r : row) :
  steps (cs1 ++ cs2) r = steps cs2 (steps cs1 r).
Proof. unfold steps. apply fold_left_app. Qed.

Lemma step_no_match `{controls : Controls} (c : Doc.record) (r : row) :
  is_match c r = false -> step c r = r.
Proof. unfold step. intros ->. reflexivity. Qed.

Lemma filter_none {A : Type} (f : A -> bool) (l : list A) :
  (forall a, In a l -> f a = false) -> filter f l = [].
Proof.
  induction l as [|a l IH]; intros H; simpl; [reflexivity|].
  rewrite (H a) by (left; reflexivity). apply IH. intros b Hb. apply H. right; exact Hb.
Qed.

(** A record that matches no row can be removed from the list. *)
Lemma merge_drop `{controls : Controls} (cs1 cs2 : list Doc.record)
  (E : Doc.record) (rows : list row) :
  (forall r, In r rows -> is_match E r = false) ->
  merge (Some (cs1 ++ E :: cs2)) rows = merge (Some (cs1 ++ cs2)) rows.
Proof.
  intros H. rewrite !merge_spec, !match_pairs_count. f_equal.
  - apply map_ext_in. intros r Hr.
    rewrite !steps_app. change (E :: cs2) with ([E] ++ cs2). rewrite steps_app.
    f_equal. unfold steps at 1. simpl. apply step_no_match.
    rewrite is_match_steps. apply H, Hr.
  - rewrite !map_app, !list_sum_app. simpl.
    rewrite (filter_none _ _ H). reflexivity.
Qed.



(** What an assignment leaves in a control. *)
Lemma set_value_taken `{controls : Controls} (k : control) (v : value) :
  set_value k v = taken k v.
Proof. destruct v; reflexivity. Qed.

Lemma text_overwrite `{controls : Controls} (k : control) (c : Doc.record)
  (r : row) :
  text k (overwrite c r) = assign k (supplied k c) (text k r).
Proof. destruct k; reflexivity. Qed.

Lemma assign_supplied `{controls : Controls} (k : control) (v : value)
  (s : jsstring) :
  (v <> VUndefined -> assign k v s = taken k v)
  /\ (v = VUndefined -> assign k v s = s).
Proof.
  split.
  - intros Hv. destruct v; try reflexivity. contradiction.
  - intros ->. reflexivity.
Qed.

(** The row at index [j] once the records [cs] and then a matching record
    [E] went over the rows. *)
Lemma merge_row_after_match `{controls : Controls} (cs : list Doc.record)
  (E : Doc.record) (rows : list row) (j : nat) (R : row) :
  nth_error rows j = Some R -> is_match E R = true ->
  nth_error (fst (merge (Some cs) rows)) j = Some (steps cs R)
  /\ nth_error (fst (merge (Some (cs ++ [E])) rows)) j
     = Some (overwrite E (steps cs R)).
Proof.
  intros Hj Hm. rewrite !merge_spec. cbn [fst].
  rewrite !nth_error_map, Hj. cbn [option_map]. split; [reflexivity|].
  rewrite steps_app. unfold steps at 1. cbn [fold_left]. unfold step.
  rewrite is_match_steps, Hm. reflexivity.
Qed.

(** C2. The merge applies each external record to every matching row:
    each row goes through all the records in order, and the count is the
    number of (record, row) pairs that match.  Once a record E has been
    processed, every row it matches, whatever its position, holds in each
    control the value E supplies for it, as the control takes it, and keeps
    in the others what the records before E left there.  In particular a
    record that matches two rows is applied to both and adds 2 to the
    count. *)
Theorem merge_applies_to_all_matches `{controls : Controls}
  (cs : list Doc.record) (rows : list row) :
  merge (Some cs) rows
  = (List.map (steps cs) rows, List.length (match_pairs cs rows))
  /\ (forall E j R,
        nth_error rows j = Some R -> is_match E R = true ->
        exists R0 R',
          nth_error (fst (merge (Some cs) rows)) j = Some R0
          /\ nth_error (fst (merge (Some (cs ++ [E])) rows)) j = Some R'
          /\ forall k,
               (supplied k E <> VUndefined ->
                text k R' = taken k (supplied k E))
               /\ (supplied k E = VUndefined -> text k R' = text k R0))
  /\ (forall E R1 R2,
        is_match E R1 = true -> is_match E R2 = true ->
        snd (merge (Some (cs ++ [E])) [R1; R2])
        = (snd (merge (Some cs) [R1; R2]) + 2)%nat
        /\ exists R1' R2',
             fst (merge (Some (cs ++ [E])) [R1; R2]) = [R1'; R2']
             /\ forall k,
                  supplied k E <> VUndefined ->
                  text k R1' = taken k (supplied k E)
                  /\ text k R2' = taken k (supplied k E)).
Proof.
  split; [apply merge_spec|]. split.
  - intros E j R Hj Hm.
    destruct (merge_row_after_match cs E rows j R Hj Hm) as [H0 H1].
    exists (steps cs R), (overwrite E (steps cs R)).
    split; [exact H0|]. split; [exact H1|].
    intros k. rewrite text_overwrite. apply assign_supplied.
  - intros E R1 R2 H1 H2. split.
    + rewrite !merge_spec, !match_pairs_count. cbn [snd].
      rewrite map_app, list_sum_app. cbn [List.map filter].
      rewrite H1, H2. unfold list_sum. cbn [List.length fold_right]. lia.
    + exists (overwrite E (steps cs R1)), (overwrite E (steps cs R2)). split.
      * rewrite merge_spec. cbn [fst List.map].
        rewrite !steps_app. unfold steps at 1 3. cbn [fold_left]. unfold step.
        rewrite !is_match_steps, H1, H2. reflexivity.
      * intros k Hk. rewrite !text_overwrite.
        split; apply assign_supplied; exact Hk.
Qed.

Lemma merge_applies_to_all_matches_witness :
  snd (merge
         (Some ([] ++ [sample_record "10" VNull "V" VUndefined
                         (VStr (lit "5")) (VStr (lit "0.2"))]))
         duplicate_rows) = 2%nat
  /\ fst (merge
            (Some ([] ++ [sample_record "10" VNull "V" VUndefined
                            (VStr (lit "5")) (VStr (lit "0.2"))]))
            duplicate_rows)
     = [ sample_row "10" "N/A" "V" "N/A" "5" "0.2";
         sample_row "10" "N/A" "V" "N/A" "5" "0.2" ].
Proof.
  destruct (merge_applies_to_all_matches [] duplicate_rows) as (_ & _ & H).
  destruct (H (sample_record "10" VNull "V" VUndefined
                 (VStr (lit "5")) (VStr (lit "0.2")))
              (sample_row "10" "N/A" "V" "N/A" "1" "0.1")
              (sample_row "10" "N/A" "V" "N/A" "2" "0.1"))
    as (Hn & _); [by_evaluation | by_evaluation |].
  split; [exact Hn | by_evaluation].
Defined.

(** C3. The merge never changes the test value, range setting or io type
    of a row, and a row that no external record matches comes out equal
    to what it was, in every field. *)
Theorem merge_frame `{controls : Controls} (cs : list Doc.record)
  (rows : list row) :
  Forall2
    (fun r r' =>
       testValue r' = testValue r
       /\ rangeSetting r' = rangeSetting r
       /\ ioType r' = ioType r
       /\ ((forall c, In c cs -> is_match c r = false) -> r' = r))
    rows (fst (merge (Some cs) rows)).
Proof.
  rewrite merge_spec. simpl. apply Forall2_map_nth. intros j r _.
  destruct (steps_dataset cs r) as (H1 & H2 & H3).
  repeat split; try assumption. apply steps_no_match.
Qed.

(** *** Documents of any shape *)

(** On a document of [Doc.t] the two models of [applyConfig] agree. *)
Lemma applyConfig_of_doc `{controls : Controls} (filesInfo : files_info)
  (confirm : jsstring -> bool) (d : Doc.t) (rows : list row) :
  applyConfig_loaded filesInfo confirm (Some (Loaded.of_doc d)) rows
  = (fst (applyConfig filesInfo confirm d rows),
     match snd (applyConfig filesInfo confirm d rows) with
     | Some n => Loaded.Merged n
     | None => Loaded.Declined
     end).
Proof.
  unfold applyConfig_loaded, applyConfig, Loaded.of_doc.
  cbn [Loaded.unit Loaded.configurations].
  match goal with |- context [if ?b then _ else _] => destruct b end;
    [reflexivity|].
  destruct (Doc.configurations d) as [cs|]; [|reflexivity].
  unfold merge_loaded, merge.
  generalize 0%nat. revert rows.
  induction cs as [|c cs IH]; intros rows n; [reflexivity|].
  cbn [List.map apply_entries apply_records].
  destruct (apply_record c rows n) as [rows' n']. apply IH.
Qed.

Lemma apply_entries_spec `{controls : Controls} (entries : list
  (option Doc.record))
  (rows : list row) (n : nat) :
  apply_entries entries rows n
  = (fst (apply_records (before_null entries) rows n),
     if has_null entries then Loaded.Thrown Loaded.NullEntry
     else Loaded.Merged (snd (apply_records (before_null entries) rows n))).
Proof.
  revert rows n; induction entries as [|[c|] entries IH]; intros rows n.
  - reflexivity.
  - cbn [apply_entries before_null apply_records has_null existsb orb].
    destruct (apply_record c rows n) as [rows' n']. apply IH.
  - reflexivity.
Qed.

Lemma merge_loaded_spec `{controls : Controls} (entries : list
  (option Doc.record))
  (rows : list row) :
  merge_loaded (Loaded.Entries entries) rows
  = (fst (merge (Some (before_null entries)) rows),
     if has_null entries then Loaded.Thrown Loaded.NullEntry
     else Loaded.Merged (snd (merge (Some (before_null entries)) rows))).
Proof. apply apply_entries_spec. Qed.

Lemma before_null_records (cs : list Doc.record) :
  before_null (List.map Some cs) = cs /\ has_null (List.map Some cs) = false.
Proof.
  induction cs as [|c cs [IH1 IH2]]; [split; reflexivity|].
  cbn [List.map before_null has_null existsb orb]. rewrite IH1.
  split; [reflexivity | exact IH2].
Qed.

Lemma before_null_app (es1 es2 : list (option Doc.record)) :
  before_null (es1 ++ es2)
  = (if has_null es1 then before_null es1 else before_null es1 ++ before_null es2)
  /\ has_null (es1 ++ es2) = has_null es1 || has_null es2.
Proof.
  split; [|apply existsb_app].
  induction es1 as [|[c|] es1 IH]; [reflexivity| |reflexivity].
  cbn [app before_null has_null existsb orb]. rewrite IH.
  fold (has_null es1). destruct (has_null es1); reflexivity.
Qed.

Lemma merge_no_match `{controls : Controls} (cs : list Doc.record)
  (rows : list row) :
  (forall c r, In c cs -> In r rows -> is_match c r = false) ->
  merge (Some cs) rows = (rows, 0%nat).
Proof.
  intros H. rewrite merge_spec, match_pairs_count. f_equal.
  - rewrite <- (map_id rows) at 2. apply map_ext_in. intros r Hr.
    apply steps_no_match. intros c Hc. apply H; assumption.
  - induction cs as [|c cs IH]; simpl; [reflexivity|].
    rewrite (filter_none (is_match c) rows).
    + apply IH. intros c' r Hc' Hr. apply H; [right|]; assumption.
    + intros r Hr. apply H; [left; reflexivity | exact Hr].
Qed.

(** C8, as amended.  The merge fails on a loaded document in two cases
    only, with a TypeError: when the value of [configurations] is truthy
    and not an array, before any row is written, and when the array holds
    a [null], after the records in front of the first [null] have been
    merged.  On every other document it does not fail: a [configurations]
    key that is absent is merged as the empty list, leaving the rows as
    they are with a count of 0, and an array of records is merged record
    by record.  A record that matches no row can be removed from the array
    without changing the rows, the count or the failure; and when no
    record matches any row, no row changes and the count is 0. *)
Theorem merge_fails_only_when_malformed `{controls : Controls}
  (rows : list row) :
  merge_loaded Loaded.Absent rows = (rows, Loaded.Merged 0)
  /\ (forall cs,
        merge_loaded (Loaded.Entries (List.map Some cs)) rows
        = (fst (merge (Some cs) rows),
           Loaded.Merged (snd (merge (Some cs) rows))))
  /\ (forall entries,
        merge_loaded (Loaded.Entries entries) rows
        = (fst (merge (Some (before_null entries)) rows),
           if has_null entries then Loaded.Thrown Loaded.NullEntry
           else Loaded.Merged (snd (merge (Some (before_null entries)) rows))))
  /\ merge_loaded Loaded.NotArray rows
     = (rows, Loaded.Thrown Loaded.ForEachNotAFunction)
  /\ (forall confirm filesInfo d,
        Loaded.configurations d = Loaded.Absent ->
        applyConfig_loaded filesInfo confirm (Some d) rows
        = (rows, Loaded.Merged 0)
        \/ applyConfig_loaded filesInfo confirm (Some d) rows
           = (rows, Loaded.Declined))
  /\ (forall es1 E es2,
        (forall r, In r rows -> is_match E r = false) ->
        merge_loaded (Loaded.Entries (es1 ++ Some E :: es2)) rows
        = merge_loaded (Loaded.Entries (es1 ++ es2)) rows)
  /\ (forall cs,
        (forall c r, In c cs -> In r rows -> is_match c r = false) ->
        merge_loaded (Loaded.Entries (List.map Some cs)) rows
        = (rows, Loaded.Merged 0)).
Proof.
  split; [reflexivity|]. split; [|split; [|split; [|split; [|split]]]].
  - intros cs. rewrite merge_loaded_spec.
    destruct (before_null_records cs) as [-> ->]. reflexivity.
  - intros entries. apply merge_loaded_spec.
  - reflexivity.
  - intros confirm filesInfo d Hd. unfold applyConfig_loaded. rewrite Hd.
    match goal with |- context [if ?b then _ else _] => destruct b end;
      [right | left]; reflexivity.
  - intros es1 E es2 HE. rewrite !merge_loaded_spec.
    destruct (before_null_app es1 (Some E :: es2)) as [-> ->].
    destruct (before_null_app es1 es2) as [-> ->].
    cbn [before_null has_null existsb orb]. fold (has_null es2).
    destruct (has_null es1); [reflexivity|].
    rewrite (merge_drop (before_null es1) (before_null es2) E rows HE).
    reflexivity.
  - intros cs H. rewrite merge_loaded_spec.
    destruct (before_null_records cs) as [-> ->].
    rewrite (merge_no_match cs rows H). reflexivity.
Qed.

(** C8, as stated, fails on a document that is not well shaped: a
    [null] after a matching record stops the merge with a TypeError once
    the row has been overwritten, and a [configurations] that is truthy
    and not an array stops it before anything is written. *)
Lemma merge_never_fails_counterexample :
  merge_loaded
    (Loaded.Entries
       [ Some (sample_record "10" VNull "V" VUndefined
                 (VStr (lit "5")) (VStr (lit "0.2")));
         None ])
    [sample_row "10" "N/A" "V" "N/A" "1" "0.1"]
  = ([sample_row "10" "N/A" "V" "N/A" "5" "0.2"],
     Loaded.Thrown Loaded.NullEntry)
  /\ merge_loaded Loaded.NotArray [sample_row "10" "N/A" "V" "N/A" "1" "0.1"]
     = ([sample_row "10" "N/A" "V" "N/A" "1" "0.1"],
        Loaded.Thrown Loaded.ForEachNotAFunction).
Proof. split; by_evaluation. Qed.

(** C9. When a record matches a row, each of the three editable fields
    is decided on its own: a field that is [undefined] in the record
    leaves the text of the control as it was, and any other value is
    assigned to the control, which then holds what it takes from the
    value converted to a string: from [null] what it takes from the empty
    string, from a string (the empty one included) what it takes from that
    string, from a number or a boolean what it takes from its text. *)
Theorem merge_overwrites_defined_fields `{controls : Controls}
  (E : Doc.record) (R : row) :
  is_match E R = true ->
  exists R',
    fst (merge (Some [E]) [R]) = [R']
    /\ forall k,
         (supplied k E = VUndefined -> text k R' = text k R)
         /\ (supplied k E = VNull -> text k R' = sanitize k (lit ""))
         /\ (forall s, supplied k E = VStr s -> text k R' = sanitize k s)
         /\ (forall x, supplied k E = VNum x ->
                       text k R' = sanitize k (Number_toString x))
         /\ (forall b, supplied k E = VBool b ->
                       text k R' = sanitize k (lit (if b then "true" else "false"))).
Proof.
  intros H. exists (overwrite E R). split.
  - unfold merge. simpl. rewrite H. reflexivity.
  - intros k. rewrite text_overwrite.
    repeat split; try intros ? Hk; try intros Hk; rewrite Hk;
      try reflexivity.
    destruct b; reflexivity.
Qed.

Lemma merge_overwrites_defined_fields_witness :
  exists R',
    fst (merge
           (Some [sample_record "10.00003" VNull "V" VUndefined VNull
                    (VStr (lit "0.25"))])
           [sample_row "10" "N/A" "V" "bench" "0" "0.1"]) = [R']
    /\ rangeInput R' = lit "bench"
    /\ referenceInput R' = lit ""
    /\ toleranceInput R' = lit "0.25".
Proof.
  destruct (merge_overwrites_defined_fields
              (sample_record "10.00003" VNull "V" VUndefined VNull
                 (VStr (lit "0.25")))
              (sample_row "10" "N/A" "V" "bench" "0" "0.1"))
    as (R' & HR & Hk); [by_evaluation|].
  exists R'. split; [exact HR|].
  destruct (Hk RangeInput) as (H1 & _).
  destruct (Hk Reference) as (_ & H2 & _).
  destruct (Hk Tolerance) as (_ & _ & H3 & _).
  split; [exact (H1 eq_refl)|].
  split; [exact (H2 eq_refl) | exact (H3 (lit "0.25") eq_refl)].
Defined.

(** C5. The key normalizer is a total function of its argument alone.
    On [null], [undefined], the string "None" and the string "null" it
    returns "N/A"; on every other value it returns the value converted to
    a string and trimmed, that is, the string without the white space at
    its two ends and with nothing else removed.  For "  Range1  " it
    returns "Range1". *)
Theorem normalizeRangeSetting_spec (v : value) :
  (is_absent v -> normalizeRangeSetting v = lit "N/A")
  /\ (~ is_absent v -> normalizeRangeSetting v = trim (ToString v))
  /\ (exists l r,
        ToString v = l ++ trim (ToString v) ++ r
        /\ Forall (fun c => is_whitespace c = true) l
        /\ Forall (fun c => is_whitespace c = true) r)
  /\ starts_clean (trim (ToString v))
  /\ starts_clean (rev (trim (ToString v)))
  /\ normalizeRangeSetting (VStr (lit "  Range1  ")) = lit "Range1".
Proof.
  split; [|split; [|split; [|split; [|split]]]].
  - unfold is_absent. intros [-> | [-> | [-> | ->]]]; reflexivity.
  - unfold is_absent, normalizeRangeSetting. intros H.
    destruct (strict_eq v VNull) eqn:E1.
    { destruct v; try discriminate. tauto. }
    destruct (strict_eq v VUndefined) eqn:E2.
    { destruct v; try discriminate. tauto. }
    destruct (strict_eq v (VStr (lit "None"))) eqn:E3.
    { apply strict_eq_string in E3. tauto. }
    destruct (strict_eq v (VStr (lit "null"))) eqn:E4.
    { apply strict_eq_string in E4. tauto. }
    reflexivity.
  - apply trim_split.
  - apply trim_clean_start.
  - apply trim_clean_end.
  - reflexivity.
Qed.

(** ** Extraction *)

Lemma read_row_valid (fi : files_info) (r : row) :
  row_valid r = true -> read_row fi r = Ok (record_of_row r).
Proof.
  unfold row_valid, read_row, record_of_row, row_test_value. cbv zeta.
  destruct (isNaN (parseFloat (VStr (referenceInput r)))
            || isNaN (parseFloat (VStr (toleranceInput r)))).
  - discriminate.
  - destruct (ltb (parseFloat (VStr (toleranceInput r))) zero).
    + discriminate.
    + reflexivity.
Qed.

Lemma read_row_invalid (fi : files_info) (r : row) :
  row_valid r = false ->
  read_row fi r = Throw (validation_error fi r)
  /\ names_test_point fi r (validation_error fi r).
Proof.
  unfold row_valid, read_row, validation_error, names_test_point. cbv zeta.
  fold (row_test_value r).
  destruct (isNaN (parseFloat (VStr (referenceInput r)))
            || isNaN (parseFloat (VStr (toleranceInput r)))).
  - intros _. split; [reflexivity | eexists; reflexivity].
  - destruct (ltb (parseFloat (VStr (toleranceInput r))) zero).
    + intros _. split; [reflexivity | eexists; reflexivity].
    + discriminate.
Qed.

(** The loop returns the records of the rows, in order, after those
    already collected, when every row is valid. *)
Lemma read_rows_valid (fi : files_info) (rows : list row) (acc : list config) :
  Forall (fun r => row_valid r = true) rows ->
  read_rows fi rows acc = Ok (acc ++ List.map record_of_row rows).
Proof.
  revert acc; induction rows as [|r rows IH]; intros acc H; simpl.
  - rewrite app_nil_r. reflexivity.
  - inversion H as [|? ? Hr Hrows]; subst.
    rewrite (read_row_valid fi r Hr). simpl.
    rewrite IH by assumption. rewrite <- app_assoc. reflexivity.
Qed.

(** The loop stops at the first row that is not valid, with the error of
    that row. *)
Lemma read_rows_invalid (fi : files_info) (rows : list row)
  (acc : list config) :
  Exists (fun r => row_valid r = false) rows ->
  exists pre r post,
    rows = pre ++ r :: post
    /\ Forall (fun r' => row_valid r' = true) pre
    /\ row_valid r = false
    /\ read_rows fi rows acc = Throw (validation_error fi r).
Proof.
  revert acc; induction rows as [|r rows IH]; intros acc H.
  - inversion H.
  - destruct (row_valid r) eqn:Hr.
    + assert (Hrows : Exists (fun r => row_valid r = false) rows).
      { inversion H; subst; [congruence | assumption]. }
      destruct (IH (acc ++ [record_of_row r]) Hrows)
        as (pre & r0 & post & Heq & Hpre & Hr0 & Hth).
      exists (r :: pre), r0, post. repeat split.
      * simpl. congruence.
      * constructor; assumption.
      * exact Hr0.
      * simpl. rewrite (read_row_valid fi r Hr). simpl. exact Hth.
    + exists [], r, rows. repeat split.
      * constructor.
      * exact Hr.
      * simpl. rewrite (proj1 (read_row_invalid fi r Hr)). reflexivity.
Qed.

Lemma Forall_or_Exists_valid (rows : list row) :
  Forall (fun r => row_valid r = true) rows
  \/ Exists (fun r => row_valid r = false) rows.
Proof.
  induction rows as [|r rows [IH|IH]].
  - left; constructor.
  - destruct (row_valid r) eqn:Hr.
    + left; constructor; assumption.
    + right; constructor; exact Hr.
  - right; apply Exists_cons_tl; exact IH.
Qed.

(** C4. Extraction is all-or-nothing.  It returns a list exactly when
    every row is valid (reference and tolerance parse as numbers and the
    tolerance is not below zero), and the list then holds the record of
    every row, in order.  When some row is not valid it throws, and
    returns no list: the error is that of the first such row and its
    message ends with the test value of that row and the unit.  A row
    whose tolerance is "-1" and a row whose reference is "abc" make it
    throw. *)
Theorem extraction_all_or_nothing (filesInfo : files_info) (rows : list row) :
  ((exists configs, getConfigurations filesInfo rows = Ok configs)
   <-> Forall (fun r => row_valid r = true) rows)
  /\ (forall configs,
        getConfigurations filesInfo rows = Ok configs ->
        configs = List.map record_of_row rows)
  /\ (Exists (fun r => row_valid r = false) rows ->
      exists pre r post,
        rows = pre ++ r :: post
        /\ Forall (fun r' => row_valid r' = true) pre
        /\ row_valid r = false
        /\ names_test_point filesInfo r (validation_error filesInfo r)
        /\ getConfigurations filesInfo rows
           = Throw (validation_error filesInfo r))
  /\ (forall r,
        In r rows ->
        toleranceInput r = lit "-1" \/ referenceInput r = lit "abc" ->
        exists e, getConfigurations filesInfo rows = Throw e).
Proof.
  assert (Hbad : Exists (fun r => row_valid r = false) rows ->
      exists pre r post,
        rows = pre ++ r :: post
        /\ Forall (fun r' => row_valid r' = true) pre
        /\ row_valid r = false
        /\ names_test_point filesInfo r (validation_error filesInfo r)
        /\ getConfigurations filesInfo rows
           = Throw (validation_error filesInfo r)).
  { intros H. destruct (read_rows_invalid filesInfo rows [] H)
      as (pre & r & post & Heq & Hpre & Hr & Hth).
    exists pre, r, post. repeat split; try assumption.
    apply (read_row_invalid filesInfo r Hr). }
  assert (Hgood : Forall (fun r => row_valid r = true) rows ->
      getConfigurations filesInfo rows = Ok (List.map record_of_row rows)).
  { intros H. unfold getConfigurations. rewrite read_rows_valid by exact H.
    reflexivity. }
  assert (Hok : forall configs, getConfigurations filesInfo rows = Ok configs ->
      Forall (fun r => row_valid r = true) rows).
  { intros configs H. destruct (Forall_or_Exists_valid rows) as [Hv|Hx];
      [exact Hv|].
    destruct (Hbad Hx) as (? & ? & ? & _ & _ & _ & _ & Hth). congruence. }
  split; [|split; [|split]].
  - split.
    + intros [configs H]. apply (Hok configs H).
    + intros H. eexists. apply Hgood, H.
  - intros configs H. rewrite (Hgood (Hok configs H)) in H. congruence.
  - exact Hbad.
  - intros r Hin Hr.
    assert (Hinv : row_valid r = false).
    { unfold row_valid. destruct Hr as [-> | ->].
      - destruct (isNaN (parseFloat (VStr (referenceInput r))));
          by_evaluation.
      - by_evaluation. }
    destruct Hbad as (? & r0 & ? & _ & _ & _ & _ & Hth).
    + apply Exists_exists. exists r. split; assumption.
    + eexists. exact Hth.
Qed.

(** *** What is saved *)

(** C7, as amended.  Each saved record carries the reference and the
    tolerance as strings, the text Number::toString gives for the
    numbers, also after the document went through the file; the test
    value, the io type and the range input are those of the extracted
    record.  Its range setting is [null] exactly when the extracted one is
    the string "N/A" itself, that is, when the [data-range-setting]
    attribute of the row is "N/A"; every other range setting is saved as
    it was extracted, also when it normalizes to the sentinel ("None",
    "null", " N/A ", a missing attribute); the string "N/A" is never
    saved.  For valid rows [saveConfig] builds the document of these
    records, one per row, with the unit of the page. *)
Theorem save_entry_shape (c : config) :
  Doc.reference (save_entry c) = VStr (Number_toString (reference c))
  /\ Doc.tolerance (save_entry c) = VStr (Number_toString (tolerance c))
  /\ Doc.reference (JSON_record (save_entry c))
     = VStr (Number_toString (reference c))
  /\ Doc.tolerance (JSON_record (save_entry c))
     = VStr (Number_toString (tolerance c))
  /\ (range_setting c = VStr (lit "N/A") ->
      Doc.range_setting (save_entry c) = VNull)
  /\ (range_setting c <> VStr (lit "N/A") ->
      Doc.range_setting (save_entry c) = range_setting c)
  /\ Doc.range_setting (save_entry c) <> VStr (lit "N/A")
  /\ Doc.test_value (save_entry c) = VNum (test_value c)
  /\ Doc.io_type (save_entry c) = io_type c
  /\ Doc.range_input (save_entry c) = VStr (range_input c)
  /\ (forall r,
        Doc.range_setting (save_entry (record_of_row r)) = VNull
        <-> rangeSetting r = Some (lit "N/A"))
  /\ (forall filesInfo rows,
        Forall (fun r => row_valid r = true) rows ->
        saveConfig filesInfo rows
        = Ok {| Doc.unit := unit filesInfo;
                Doc.configurations :=
                  Some (List.map (fun r => save_entry (record_of_row r))
                          rows) |}).
Proof.
  assert (Hrs : forall s, strict_eq (range_setting c) (VStr s) = false ->
                          range_setting c <> VStr s).
  { intros s H Heq. apply strict_eq_string in Heq. congruence. }
  repeat split; simpl.
  - intros ->. reflexivity.
  - intros H. destruct (strict_eq _ _) eqn:Heq; [|reflexivity].
    apply strict_eq_string in Heq. contradiction.
  - destruct (strict_eq _ _) eqn:Heq; [discriminate|]. apply Hrs, Heq.
  - destruct (rangeSetting r) as [s|]; cbn [dataset]; [|discriminate].
    destruct (strict_eq (VStr s) (VStr (lit "N/A"))) eqn:Heq;
      [|discriminate].
    intros _. apply strict_eq_string in Heq. congruence.
  - intros ->. reflexivity.
  - intros filesInfo rows Hv. unfold saveConfig, getConfigurations.
    rewrite read_rows_valid by exact Hv. cbn [app bind].
    rewrite map_map. reflexivity.
Qed.

(** C7, as stated, fails: for a valid row whose range setting is "None",
    or is missing, the sentinel applies, since the normalizer gives "N/A",
    but the range setting is saved as the string "None", or left
    [undefined], and not as [null]. *)
Lemma save_entry_counterexample :
  row_valid (sample_row "10" "None" "V" "N/A" "1" "0.1") = true
  /\ normalizeRangeSetting
       (dataset (rangeSetting (sample_row "10" "None" "V" "N/A" "1" "0.1")))
     = lit "N/A"
  /\ saveConfig sample_unit [sample_row "10" "None" "V" "N/A" "1" "0.1"]
     = Ok {| Doc.unit := VStr (lit "V");
             Doc.configurations :=
               Some [ {| Doc.test_value := VNum (parseFloat_string (lit "10"));
                         Doc.range_setting := VStr (lit "None");
                         Doc.io_type := VStr (lit "V");
                         Doc.range_input := VStr (lit "N/A");
                         Doc.reference := VStr (lit "1");
                         Doc.tolerance := VStr (lit "0.1") |} ] |}
  /\ normalizeRangeSetting (dataset None) = lit "N/A"
  /\ saveConfig sample_unit
       [ {| testValue := Some (lit "10");
            rangeSetting := None;
            ioType := Some (lit "V");
            rangeInput := lit "N/A";
            referenceInput := lit "1";
            toleranceInput := lit "0.1" |} ]
     = Ok {| Doc.unit := VStr (lit "V");
             Doc.configurations :=
               Some [ {| Doc.test_value := VNum (parseFloat_string (lit "10"));
                         Doc.range_setting := VUndefined;
                         Doc.io_type := VStr (lit "V");
                         Doc.range_input := VStr (lit "N/A");
                         Doc.reference := VStr (lit "1");
                         Doc.tolerance := VStr (lit "0.1") |} ] |}.
Proof. repeat split; by_evaluation. Qed.

(** *** A test value that is not a number *)

Lemma sub_NaN (x : number) : sub x NaN = NaN.
Proof. destruct x; reflexivity. Qed.

Lemma isNaN_eq (x : number) : isNaN x = true -> x = NaN.
Proof. destruct x; simpl; try discriminate. reflexivity. Qed.

(** A record whose test value reads as NaN fails the test on the
    difference against every row. *)
Lemma no_match_NaN (E : Doc.record) (R : row) :
  isNaN (record_test_value E) = true ->
  ltb (abs (sub (row_test_value R) (record_test_value E))) tolerance_1e_4 = false
  /\ is_match E R = false.
Proof.
  intros H. apply isNaN_eq in H. unfold is_match.
  fold (record_test_value E). fold (row_test_value R).
  rewrite H, sub_NaN. split; reflexivity.
Qed.

(** C10. Extraction does not validate the test value.  When the
    reference and the tolerance of every row parse as numbers and no
    tolerance is below zero, extraction returns the records of the rows,
    whatever their test values: the test value of a record is the number
    [parseFloat] reads, NaN when the attribute does not parse.  A record
    whose test value is NaN, as saved and as read back from the file,
    fails the test on the absolute difference against every row, and so
    matches none. *)
Theorem extraction_ignores_test_value (filesInfo : files_info)
  (rows : list row) :
  Forall (fun r => row_valid r = true) rows ->
  exists configs,
    getConfigurations filesInfo rows = Ok configs
    /\ Forall2 (fun r c => test_value c = row_test_value r) rows configs
    /\ forall c R,
         In c configs -> isNaN (test_value c) = true ->
         ltb (abs (sub (row_test_value R) (record_test_value (save_entry c))))
           tolerance_1e_4 = false
         /\ ltb (abs (sub (row_test_value R)
                        (record_test_value (JSON_record (save_entry c)))))
              tolerance_1e_4 = false
         /\ is_match (save_entry c) R = false
         /\ is_match (JSON_record (save_entry c)) R = false.
Proof.
  intros H. exists (List.map record_of_row rows). split; [|split].
  - unfold getConfigurations. rewrite read_rows_valid by exact H. reflexivity.
  - apply Forall2_map_nth. reflexivity.
  - intros c R _ Hc. apply isNaN_eq in Hc.
    assert (H1 : isNaN (record_test_value (save_entry c)) = true).
    { unfold record_test_value. simpl. rewrite Hc. reflexivity. }
    assert (H2 : isNaN (record_test_value (JSON_record (save_entry c))) = true).
    { unfold record_test_value. simpl. rewrite Hc. reflexivity. }
    destruct (no_match_NaN _ R H1) as [? ?].
    destruct (no_match_NaN _ R H2) as [? ?]. auto.
Qed.

Lemma extraction_ignores_test_value_witness :
  exists configs,
    getConfigurations sample_unit [sample_row "abc" "N/A" "V" "" "1" "0"]
    = Ok configs
    /\ Forall2 (fun r c => test_value c = row_test_value r)
         [sample_row "abc" "N/A" "V" "" "1" "0"] configs
    /\ forall c R,
         In c configs -> isNaN (test_value c) = true ->
         ltb (abs (sub (row_test_value R) (record_test_value (save_entry c))))
           tolerance_1e_4 = false
         /\ ltb (abs (sub (row_test_value R)
                        (record_test_value (JSON_record (save_entry c)))))
              tolerance_1e_4 = false
         /\ is_match (save_entry c) R = false
         /\ is_match (JSON_record (save_entry c)) R = false.
Proof.
  apply (extraction_ignores_test_value sample_unit
           [sample_row "abc" "N/A" "V" "" "1" "0"]).
  each_row by_evaluation.
Defined.

(** ** The round trip *)

(** What the record of a row, read back from the file, writes. *)
Lemma overwrite_saved `{controls : Controls} (r : row) : overwrite
  (saved r) r = canonical r.
Proof. reflexivity. Qed.

Lemma round_trip_valid `{controls : Controls} (fi : files_info)
  (rows : list row) :
  Forall (fun r => row_valid r = true) rows ->
  round_trip fi rows = Ok (List.map (steps (List.map saved rows)) rows).
Proof.
  intros H. unfold round_trip, saveConfig, getConfigurations.
  rewrite read_rows_valid by exact H. simpl.
  rewrite !map_map. fold saved.
  change (fun x : row => JSON_record (save_entry (record_of_row x))) with saved.
  rewrite merge_spec. reflexivity.
Qed.

Lemma distinct_keys_split (pre post : list row) (r : row) :
  distinct_keys (pre ++ r :: post) = true ->
  forall r', In r' (pre ++ post) -> is_match (saved r') r = false.
Proof.
  induction pre as [|p pre IH]; simpl; rewrite andb_true_iff, forallb_forall.
  - intros [H _] r' Hin. specialize (H r' Hin).
    apply andb_true_iff in H. destruct H as [_ H].
    apply negb_true_iff in H. exact H.
  - intros [H Hd] r' [<- | Hin].
    + specialize (H r). rewrite in_app_iff in H.
      assert (Hr : In r pre \/ In r (r :: post)) by (right; left; reflexivity).
      apply H in Hr. apply andb_true_iff in Hr. destruct Hr as [Hr _].
      apply negb_true_iff in Hr. exact Hr.
    + apply IH; assumption.
Qed.

(** With distinct keys, the records of the other rows leave a row alone:
    only its own record can write to it. *)
Lemma steps_own_record `{controls : Controls} (pre post : list row) (r : row) :
  distinct_keys (pre ++ r :: post) = true ->
  steps (List.map saved (pre ++ r :: post)) r = step (saved r) r.
Proof.
  intros H. pose proof (distinct_keys_split pre post r H) as Hno.
  rewrite map_app. simpl. rewrite steps_app.
  change (saved r :: List.map saved post) with ([saved r] ++ List.map saved post).
  rewrite steps_app.
  rewrite (steps_no_match (List.map saved pre) r).
  - unfold steps at 2. simpl. apply steps_no_match.
    intros c Hc. rewrite is_match_step.
    apply in_map_iff in Hc. destruct Hc as (r' & <- & Hin).
    apply Hno. apply in_app_iff. right; exact Hin.
  - intros c Hc. apply in_map_iff in Hc. destruct Hc as (r' & <- & Hin).
    apply Hno. apply in_app_iff. left; exact Hin.
Qed.

Lemma trim_range_input (s : jsstring) :
  trim (match trim s with [] => lit "N/A" | _ => trim s end)
  = match trim s with [] => lit "N/A" | _ => trim s end.
Proof.
  destruct (trim s) eqn:Hs; [reflexivity|]. rewrite <- Hs. apply trim_idem.
Qed.

(** *** Rows that share a key *)

Lemma saved_supplied (r : row) (k : control) :
  supplied k (saved r)
  = VStr match k with
         | RangeInput => range_input (record_of_row r)
         | Reference => Number_toString (reference (record_of_row r))
         | Tolerance => Number_toString (tolerance (record_of_row r))
         end.
Proof. destruct k; reflexivity. Qed.

Lemma same_supplied_eq (r r' : row) :
  same_supplied (saved r) (saved r') = true ->
  forall k, supplied k (saved r) = supplied k (saved r').
Proof.
  unfold same_supplied. rewrite !andb_true_iff. intros [[H1 H2] H3] k.
  pose proof (saved_supplied r' RangeInput) as E1.
  pose proof (saved_supplied r' Reference) as E2.
  pose proof (saved_supplied r' Tolerance) as E3.
  cbn [supplied] in E1, E2, E3. rewrite E1 in H1. rewrite E2 in H2.
  rewrite E3 in H3.
  apply strict_eq_string in H1. apply strict_eq_string in H2.
  apply strict_eq_string in H3.
  destruct k; cbn [supplied]; congruence.
Qed.

Lemma overwrite_same_supplied `{controls : Controls} (c c' : Doc.record)
  (x : row) :
  (forall k, supplied k c = supplied k c') -> overwrite c x = overwrite c' x.
Proof.
  intros H. unfold overwrite.
  pose proof (H RangeInput) as H1. pose proof (H Reference) as H2.
  pose proof (H Tolerance) as H3. cbn [supplied] in H1, H2, H3.
  rewrite H1, H2, H3. reflexivity.
Qed.

Lemma is_match_attributes (c : Doc.record) (x y : row) :
  testValue x = testValue y -> rangeSetting x = rangeSetting y ->
  ioType x = ioType y -> is_match c x = is_match c y.
Proof. unfold is_match. intros -> -> ->. reflexivity. Qed.

(** Records that all write the same texts to a row: the row ends with
    these texts when one of them matches, and as it was otherwise. *)
Lemma steps_to_target `{controls : Controls} (cs : list Doc.record)
  (r target : row) :
  testValue target = testValue r -> rangeSetting target = rangeSetting r ->
  ioType target = ioType r ->
  (forall c, In c cs -> is_match c r = true ->
             overwrite c r = target /\ overwrite c target = target) ->
  steps cs r = if existsb (fun c => is_match c r) cs then target else r.
Proof.
  intros H1 H2 H3.
  assert (Hfix : forall cs',
            (forall c, In c cs' -> is_match c r = true ->
                       overwrite c target = target) ->
            steps cs' target = target).
  { induction cs' as [|c cs' IH]; intros Hc; [reflexivity|].
    unfold steps. cbn [fold_left]. fold (steps cs' (step c target)).
    unfold step. rewrite (is_match_attributes c target r H1 H2 H3).
    destruct (is_match c r) eqn:Hm.
    - rewrite (Hc c (or_introl eq_refl) Hm). apply IH.
      intros c' Hin. apply Hc. right; exact Hin.
    - apply IH. intros c' Hin. apply Hc. right; exact Hin. }
  induction cs as [|c cs IH]; intros Hc; [reflexivity|].
  unfold steps. cbn [fold_left existsb]. fold (steps cs (step c r)).
  unfold step. destruct (is_match c r) eqn:Hm; cbn [orb].
  - destruct (Hc c (or_introl eq_refl) Hm) as [-> _]. apply Hfix.
    intros c' Hin Hm'. apply Hc; [right; exact Hin | exact Hm'].
  - apply IH. intros c' Hin. apply Hc. right; exact Hin.
Qed.

Lemma existsb_map_saved (f : Doc.record -> bool) (rows : list row) :
  existsb f (List.map saved rows) = existsb (fun r => f (saved r)) rows.
Proof.
  induction rows as [|r rows IH]; cbn [List.map existsb]; [reflexivity|].
  rewrite IH. reflexivity.
Qed.

Lemma agreeing_keys_spec (rows : list row) (r r' : row) :
  agreeing_keys rows = true -> In r rows -> In r' rows ->
  is_match (saved r) r' = true ->
  forall k, supplied k (saved r) = supplied k (saved r').
Proof.
  unfold agreeing_keys. rewrite forallb_forall. intros H Hr Hr' Hm.
  specialize (H r Hr). rewrite forallb_forall in H. specialize (H r' Hr').
  rewrite Hm in H. cbn [implb] in H. apply same_supplied_eq, H.
Qed.

(** With agreeing keys every record that matches a row writes to it what
    its own record writes. *)
Lemma steps_agreeing `{controls : Controls} (rows : list row) (r : row) :
  agreeing_keys rows = true -> In r rows ->
  steps (List.map saved rows) r = if matched rows r then canonical r else r.
Proof.
  intros Ha Hr.
  rewrite (steps_to_target (List.map saved rows) r (canonical r));
    try reflexivity.
  - unfold matched. rewrite existsb_map_saved. reflexivity.
  - intros c Hc Hm. apply in_map_iff in Hc. destruct Hc as (r0 & <- & Hr0).
    pose proof (agreeing_keys_spec rows r0 r Ha Hr0 Hr Hm) as Hk.
    rewrite !(overwrite_same_supplied (saved r0) (saved r)) by exact Hk.
    split; reflexivity.
Qed.

(** *** Reading the rows again *)

Lemma eqb_refl (x : number) : isNaN x = false -> eqb x x = true.
Proof.
  destruct x as [s|s| |s m e]; try discriminate; intros _;
    try (destruct s; reflexivity).
  apply eqb_refl_finite.
Qed.

Lemma eqb_not_NaN (x y : number) : eqb x y = true -> isNaN x = false.
Proof. destruct x; [reflexivity|reflexivity|discriminate|reflexivity]. Qed.

Lemma ltb_eqb (x y z : number) :
  eqb x y = true -> ltb x z = ltb y z.
Proof.
  intros H. destruct y as [sy|sy| |sy my ey].
  - destruct x as [[]|[]| |[] mx ex]; try discriminate H; reflexivity.
  - destruct x as [[]|[]| |[] mx ex]; destruct sy; try discriminate H;
      reflexivity.
  - destruct x as [[]|[]| |[] mx ex]; discriminate H.
  - apply eqb_finite_eq in H. rewrite H. reflexivity.
Qed.

(** A number read from a control is read back from its own text, up to
    the sign of zero. *)
Lemma read_back (s : jsstring) :
  isNaN (parseFloat_string s) = false ->
  eqb (parseFloat_string (Number_toString (parseFloat_string s)))
    (parseFloat_string s) = true
  /\ (parseFloat_string s <> S754_zero true ->
      parseFloat_string (Number_toString (parseFloat_string s))
      = parseFloat_string s).
Proof. apply parse_toString, parseFloat_string_valid. Qed.

(** A valid row whose controls took the texts of its own record is
    valid, and reads as the same record. *)
Lemma record_of_canonical `{controls : Controls} (r : row) :
  row_valid r = true -> keeps_record r ->
  row_valid (canonical r) = true
  /\ same_config (record_of_row r) (record_of_row (canonical r))
  /\ (no_negative_zero r -> record_of_row (canonical r) = record_of_row r).
Proof.
  intros Hv (K1 & K2 & K3). unfold keeps in K1, K2, K3.
  assert (R1 : rangeInput (canonical r) = range_input (record_of_row r))
    by exact K1.
  assert (R2 : referenceInput (canonical r)
               = Number_toString (reference (record_of_row r))) by exact K2.
  assert (R3 : toleranceInput (canonical r)
               = Number_toString (tolerance (record_of_row r))) by exact K3.
  unfold row_valid in Hv. apply andb_true_iff in Hv. destruct Hv as [Hn Hl].
  apply negb_true_iff in Hn, Hl. apply orb_false_iff in Hn.
  destruct Hn as [Hn1 Hn2]. unfold parseFloat in Hn1, Hn2, Hl.
  cbn [ToString] in Hn1, Hn2, Hl.
  destruct (read_back (referenceInput r) Hn1) as [E1 L1].
  destruct (read_back (toleranceInput r) Hn2) as [E2 L2].
  assert (Hri : match trim (range_input (record_of_row r)) with
                | [] => lit "N/A"
                | _ :: _ => trim (range_input (record_of_row r))
                end = range_input (record_of_row r)).
  { cbn [record_of_row range_input]. rewrite trim_range_input.
    destruct (trim (rangeInput r)); reflexivity. }
  assert (E : record_of_row (canonical r)
              = {| test_value := test_value (record_of_row r);
                   range_setting := range_setting (record_of_row r);
                   io_type := io_type (record_of_row r);
                   range_input := range_input (record_of_row r);
                   reference :=
                     parseFloat_string
                       (Number_toString (parseFloat_string (referenceInput r)));
                   tolerance :=
                     parseFloat_string
                       (Number_toString (parseFloat_string (toleranceInput r))) |}).
  { unfold record_of_row at 1. rewrite R1, R2, R3, Hri. reflexivity. }
  split; [|split].
  - unfold row_valid. rewrite R2, R3. unfold parseFloat. cbn [ToString].
    cbn [record_of_row reference tolerance]. unfold parseFloat. cbn [ToString].
    rewrite (eqb_not_NaN _ _ E1), (eqb_not_NaN _ _ E2).
    rewrite (ltb_eqb _ _ zero E2), Hl. reflexivity.
  - rewrite E. unfold same_config.
    cbn [test_value range_setting io_type range_input reference tolerance
           record_of_row].
    unfold parseFloat. cbn [ToString]. repeat split; assumption.
  - intros [Z1 Z2]. rewrite E.
    cbn [record_of_row reference tolerance] in Z1, Z2.
    unfold parseFloat in Z1, Z2. cbn [ToString] in Z1, Z2.
    rewrite (L1 Z1), (L2 Z2). reflexivity.
Qed.

(** *** Text inputs *)

Lemma strip_newlines_one_line (s : jsstring) :
  one_line s -> strip_newlines s = s.
Proof.
  unfold strip_newlines. induction 1 as [|c s [H1 H2] _ IH]; [reflexivity|].
  cbn [filter]. apply N.eqb_neq in H1, H2. rewrite H1, H2. cbn [orb negb].
  rewrite IH. reflexivity.
Qed.

Lemma trimStart_one_line (s : jsstring) : one_line s -> one_line (trimStart s).
Proof.
  induction 1 as [|c s Hc Hs IH]; [constructor|]. cbn [trimStart].
  destruct (is_whitespace c); [exact IH | constructor; assumption].
Qed.

Lemma trim_one_line (s : jsstring) : one_line s -> one_line (trim s).
Proof.
  intros H. unfold trim, trimEnd. apply Forall_rev, trimStart_one_line, Forall_rev.
  apply trimStart_one_line, H.
Qed.

Lemma digits_one_line (ds : list N) :
  small ds -> one_line (List.map digit_char ds).
Proof.
  induction 1 as [|d ds Hd _ IH]; cbn [List.map]; constructor; [|exact IH].
  unfold digit_char. lia.
Qed.

Lemma zeros_one_line (n : nat) : one_line (repeat 48%N n).
Proof. induction n; cbn [repeat]; constructor; [lia | assumption]. Qed.

Lemma format_decimal_one_line (ds : list N) (n : Z) :
  small ds -> one_line (format_decimal ds n).
Proof.
  intros Hs. pose proof (digits_one_line ds Hs) as Hcs.
  unfold format_decimal, one_line in *.
  destruct ((Z.of_nat (List.length ds) <=? n) && (n <=? 21)).
  { apply Forall_app. split; [exact Hcs | apply zeros_one_line]. }
  destruct ((0 <? n) && (n <=? 21)).
  { rewrite <- (firstn_skipn (Z.to_nat n) (List.map digit_char ds)) in Hcs.
    apply Forall_app in Hcs. destruct Hcs as [Ha Hb].
    apply Forall_app. split; [exact Ha|]. constructor; [lia | exact Hb]. }
  destruct ((-6 <? n) && (n <=? 0)).
  { constructor; [lia|]. constructor; [lia|].
    apply Forall_app. split; [apply zeros_one_line | exact Hcs]. }
  assert (Hexp : Forall (fun c => c <> 10%N /\ c <> 13%N)
                   (101%N :: (if n - 1 <? 0 then 45%N else 43%N)
                      :: decimal_string (Z.to_N (Z.abs (n - 1))))).
  { constructor; [lia|]. constructor; [destruct (n - 1 <? 0); lia|].
    apply digits_one_line, decimal_digits_small. }
  destruct (List.map digit_char ds) as [|c [|c' r]].
  - exact Hexp.
  - apply Forall_app. split; [exact Hcs | exact Hexp].
  - inversion Hcs; subst. apply Forall_app. split; [|exact Hexp].
    constructor; [assumption|]. constructor; [lia | assumption].
Qed.

Lemma Number_toString_one_line (x : number) : one_line (Number_toString x).
Proof.
  destruct x as [s|s| |s m e];
    try (destruct s; unfold one_line; cbn; repeat constructor; lia);
    try (unfold one_line; cbn; repeat constructor; lia).
  cbn [Number_toString].
  match goal with
  | |- context [shortest_digits ?f ?k ?x ?num ?den ?n0] =>
      pose proof (shortest_digits_small f k x num den n0) as Hd;
      destruct (shortest_digits f k x num den n0) as [ds n]
  end.
  cbn [fst] in Hd. pose proof (format_decimal_one_line ds n Hd) as Hf.
  destruct s; cbn [app]; [constructor; [lia | exact Hf] | exact Hf].
Qed.

(** Text inputs take the texts of the record of a row as they are when
    the range input of the row holds no line break. *)
Lemma text_inputs_keep (r : row) :
  one_line (rangeInput r) -> @keeps_record text_inputs r.
Proof.
  intros H. unfold keeps_record, keeps. cbn [sanitize text_inputs].
  repeat split; apply strip_newlines_one_line;
    try apply Number_toString_one_line.
  cbn [record_of_row range_input].
  pose proof (trim_one_line _ H) as Ht.
  destruct (trim (rangeInput r)); [|exact Ht].
  unfold one_line. cbn. repeat constructor; lia.
Qed.

Lemma Forall2_maps {A B C : Type} (P : B -> C -> Prop) (f : A -> B)
  (g : A -> C) (l : list A) :
  (forall a, In a l -> P (f a) (g a)) ->
  Forall2 P (List.map f l) (List.map g l).
Proof.
  induction l as [|a l IH]; intros H; cbn [List.map]; constructor.
  - apply H. left; reflexivity.
  - apply IH. intros b Hb. apply H. right; exact Hb.
Qed.

(** C6, as amended.  Take a valid row set in which rows may share a key
    only when they hold equal values: whenever the saved record of a row
    matches a row, the saved record of that row supplies the same range
    input, reference and tolerance.  Saving, reloading and merging onto
    the same rows leaves a row as it was when no saved record matches it,
    and otherwise holding the texts of its own record, as the controls
    take them: the range input trimmed, or "N/A" when blank, and the
    reference and tolerance in the decimal text of their numbers.  When
    the controls take these texts as they are, which text inputs do for
    every row whose range input holds no line break, extracting again
    succeeds and gives records equal to those extracted at first, field by
    field, the numbers of reference and tolerance compared with [===];
    and the very same records when no reference or tolerance is [-0]. *)
Theorem round_trip_agreeing_keys `{controls : Controls} (filesInfo : files_info)
  (rows : list row) :
  Forall (fun r => row_valid r = true) rows ->
  agreeing_keys rows = true ->
  exists rows',
    round_trip filesInfo rows = Ok rows'
    /\ Forall2
         (fun r r' => r' = if matched rows r then canonical r else r)
         rows rows'
    /\ (Forall keeps_record rows ->
        exists configs',
          getConfigurations filesInfo rows' = Ok configs'
          /\ Forall2 same_config (List.map record_of_row rows) configs'
          /\ (Forall no_negative_zero rows ->
              getConfigurations filesInfo rows'
              = getConfigurations filesInfo rows))
    /\ (forall r, one_line (rangeInput r) -> @keeps_record text_inputs r).
Proof.
  intros Hv Ha. eexists. split; [apply round_trip_valid, Hv|].
  assert (Hrows :
    Forall2 (fun r r' => r' = if matched rows r then canonical r else r)
      rows (List.map (steps (List.map saved rows)) rows)).
  { apply Forall2_map_nth. intros j r Hj.
    apply steps_agreeing; [exact Ha|]. apply (nth_error_In _ _ Hj). }
  split; [exact Hrows|]. split; [|apply text_inputs_keep].
  intros Hk.
  assert (Hall : forall r, In r rows ->
            row_valid (steps (List.map saved rows) r) = true
            /\ same_config (record_of_row r)
                 (record_of_row (steps (List.map saved rows) r))
            /\ (no_negative_zero r ->
                record_of_row (steps (List.map saved rows) r)
                = record_of_row r)).
  { intros r Hr. rewrite (steps_agreeing rows r Ha Hr).
    rewrite Forall_forall in Hv, Hk.
    destruct (matched rows r);
      [apply record_of_canonical; [apply Hv | apply Hk]; exact Hr|].
    split; [apply Hv, Hr|]. split; [|reflexivity].
    pose proof (Hv r Hr) as Hvr. unfold row_valid in Hvr.
    apply andb_true_iff in Hvr. destruct Hvr as [Hn _].
    apply negb_true_iff, orb_false_iff in Hn. destruct Hn as [Hn1 Hn2].
    unfold same_config. cbn [record_of_row reference tolerance].
    repeat split; apply eqb_refl; assumption. }
  exists (List.map record_of_row (List.map (steps (List.map saved rows)) rows)).
  assert (Hv' : Forall (fun r => row_valid r = true)
                  (List.map (steps (List.map saved rows)) rows)).
  { apply Forall_map, Forall_forall. intros r Hr. apply Hall, Hr. }
  split; [|split].
  - unfold getConfigurations. rewrite read_rows_valid by exact Hv'. reflexivity.
  - rewrite map_map. apply Forall2_maps. intros r Hr. apply Hall, Hr.
  - intros Hz. unfold getConfigurations.
    rewrite !read_rows_valid by assumption. do 2 f_equal.
    rewrite map_map. apply map_ext_in. intros r Hr.
    rewrite Forall_forall in Hz. apply Hall; [exact Hr | apply Hz, Hr].
Qed.

Lemma round_trip_agreeing_keys_witness :
  agreeing_keys agreeing_rows = true
  /\ round_trip sample_unit agreeing_rows
     = Ok [ sample_row "10" "N/A" "V" "bench A" "1" "0.1";
            sample_row "10.00001" "None" "V" "bench A" "1" "0.1";
            sample_row "20" "Range1" "V" "N/A" "0" "0" ]
  /\ exists configs',
       getConfigurations sample_unit
         [ sample_row "10" "N/A" "V" "bench A" "1" "0.1";
           sample_row "10.00001" "None" "V" "bench A" "1" "0.1";
           sample_row "20" "Range1" "V" "N/A" "0" "0" ] = Ok configs'
       /\ Forall2 same_config (List.map record_of_row agreeing_rows) configs'.
Proof.
  assert (Ha : agreeing_keys agreeing_rows = true) by by_evaluation.
  assert (Hrt : round_trip sample_unit agreeing_rows
                = Ok [ sample_row "10" "N/A" "V" "bench A" "1" "0.1";
                       sample_row "10.00001" "None" "V" "bench A" "1" "0.1";
                       sample_row "20" "Range1" "V" "N/A" "0" "0" ])
    by by_evaluation.
  destruct (round_trip_agreeing_keys sample_unit agreeing_rows)
    as (rows' & Hrt' & _ & Hsame & Hkeep).
  - each_row by_evaluation.
  - exact Ha.
  - split; [exact Ha|]. split; [exact Hrt|].
    rewrite Hrt in Hrt'. injection Hrt' as <-.
    destruct Hsame as (configs' & Hc & Hs & _).
    + each_row ltac:(apply Hkeep; unfold one_line; cbn;
                     repeat constructor; lia).
    + exists configs'. split; [exact Hc | exact Hs].
Defined.

(** C6, as stated, fails.  Two valid rows with the same key and the
    references "1" and "2": each saved record is applied to both rows, the
    second after the first, so both rows end with the reference "2", and
    extracting again no longer gives the reference 1 for the first row.
    And a single row whose controls hold "", "1.0" and "0.10" comes back
    holding "N/A", "1" and "0.1"; one whose reference is "-0" comes back
    with "0", which reads as the number 0 and not as -0. *)
Lemma round_trip_counterexample :
  Forall (fun r => row_valid r = true) duplicate_rows
  /\ List.map referenceInput duplicate_rows = [lit "1"; lit "2"]
  /\ round_trip sample_unit duplicate_rows
     = Ok [ sample_row "10" "N/A" "V" "N/A" "2" "0.1";
            sample_row "10" "N/A" "V" "N/A" "2" "0.1" ]
  /\ (forall rows',
        round_trip sample_unit duplicate_rows = Ok rows' ->
        List.map editable rows' <> List.map editable duplicate_rows
        /\ getConfigurations sample_unit rows'
           <> getConfigurations sample_unit duplicate_rows)
  /\ round_trip sample_unit [sample_row "10" "N/A" "V" "" "1.0" "0.10"]
     = Ok [sample_row "10" "N/A" "V" "N/A" "1" "0.1"]
  /\ round_trip sample_unit [sample_row "10" "N/A" "V" "N/A" "-0" "0"]
     = Ok [sample_row "10" "N/A" "V" "N/A" "0" "0"]
  /\ parseFloat (VStr (lit "-0")) = S754_zero true
  /\ parseFloat (VStr (lit "0")) = S754_zero false.
Proof.
  assert (H : round_trip sample_unit duplicate_rows
     = Ok [ sample_row "10" "N/A" "V" "N/A" "2" "0.1";
            sample_row "10" "N/A" "V" "N/A" "2" "0.1" ])
    by by_evaluation.
  split; [each_row by_evaluation|].
  split; [reflexivity|]. split; [exact H|].
  split; [|repeat split; by_evaluation].
  intros rows' H'. rewrite H in H'. injection H' as <-. split.
  - vm_compute. discriminate.
  - vm_compute. discriminate.
Qed.

(** ** The scenarios of the specification *)

(** The literal [0.0001] is the number its text denotes. *)
Example tolerance_literal : parseFloat_string (lit "0.0001") = tolerance_1e_4.
Proof. by_evaluation. Qed.

(** A row at 10.00005 matches a record at 10.0; a row at 10.001 does not. *)
Example match_within_tolerance :
  is_match (sample_record "10.0" VNull "V" VUndefined VUndefined VUndefined)
    (sample_row "10.00005" "N/A" "V" "" "0" "0.1") = true
  /\ is_match (sample_record "10.0" VNull "V" VUndefined VUndefined VUndefined)
       (sample_row "10.001" "N/A" "V" "" "0" "0.1") = false.
Proof. split; by_evaluation. Qed.

(** The io type is compared as it stands: another case, or a space, is
    another io type. *)
Example io_type_exact :
  is_match (sample_record "10" VNull "v" VUndefined VUndefined VUndefined)
    (sample_row "10" "N/A" "V" "" "0" "0.1") = false
  /\ is_match (sample_record "10" VNull " V" VUndefined VUndefined VUndefined)
       (sample_row "10" "N/A" "V" "" "0" "0.1") = false.
Proof. split; by_evaluation. Qed.

(** The row at 10 with the record at 10.00003: reference and tolerance
    are taken from the record, the count is 1. *)
Example scenario_merge :
  merge
    (Some [sample_record "10.00003" VNull "V" VUndefined
             (VStr (lit "5")) (VStr (lit "0.2"))])
    [sample_row "10" "N/A" "V" "" "0" "0.1"]
  = ([sample_row "10" "N/A" "V" "" "5" "0.2"], 1%nat).
Proof. by_evaluation. Qed.

(** A record for a test point that no row has: nothing changes. *)
Example scenario_absent :
  merge
    (Some [sample_record "30" VNull "V" (VStr (lit "x"))
             (VStr (lit "5")) (VStr (lit "0.2"))])
    [sample_row "10" "N/A" "V" "" "0" "0.1"]
  = ([sample_row "10" "N/A" "V" "" "0" "0.1"], 0%nat).
Proof. by_evaluation. Qed.

(** The two failing extractions of the specification, with their
    messages. *)
Example scenario_validation :
  getConfigurations sample_unit [sample_row "10" "N/A" "V" "" "0" "-1"]
  = Throw (Error (lit "Tolerance must be positive for test point 10 V"))
  /\ getConfigurations sample_unit [sample_row "10" "N/A" "V" "" "abc" "0.1"]
     = Throw (Error (lit "Invalid values for test point 10 V")).
Proof. split; by_evaluation. Qed.

(** The round trip on two rows with different keys: the controls come
    back holding the serialized values. *)
Example round_trip_texts :
  round_trip sample_unit distinct_rows
  = Ok [ sample_row "10" "N/A" "V" "bench A" "1" "0.1";
         sample_row "20" "Range1" "V" "N/A" "2.5" "0" ].
Proof. by_evaluation. Qed.

(** The normalizer on values of every kind. *)
Example normalizer_samples :
  List.map normalizeRangeSetting
    [VNull; VUndefined; VStr (lit "None"); VStr (lit "null");
     VStr (lit " N/A "); VStr (lit "  None "); VStr (lit "");
     VNum (parseFloat_string (lit "5.0")); VBool true]
  = List.map lit
      ["N/A"; "N/A"; "N/A"; "N/A"; "N/A"; "None"; ""; "5"; "true"]%string.
Proof. by_evaluation. Qed.

(** The texts of some numbers. *)
Example number_texts :
  List.map (fun s => Number_toString (parseFloat_string (lit s)))
    ["0.1"; "1e21"; "1e-7"; "123.456"; "5e-324"; "1e23"; "-1.50"; "-0";
     "0.000001"; "100"; "Infinity"; "x"]%string
  = List.map lit
      ["0.1"; "1e+21"; "1e-7"; "123.456"; "5e-324"; "1e+23"; "-1.5"; "0";
       "0.000001"; "100"; "Infinity"; "NaN"]%string.
Proof. by_evaluation. Qed.

(** ** More on the merge *)

Lemma field_after_key `{controls : Controls} (k : control)
  (cs : list Doc.record)
  (c : Doc.record) (r : row) (s : jsstring) :
  field_after k cs (step c r) s = field_after k cs r s.
Proof.
  unfold field_after. revert s; induction cs as [|c' cs IH]; intros s;
    cbn [fold_left]; [reflexivity|].
  rewrite is_match_step. apply IH.
Qed.

(** A row after the records: its attributes are its own, and each
    control holds what the matching records left in it. *)
Lemma steps_fields `{controls : Controls} (cs : list Doc.record) (r : row) :
  steps cs r
  = {| testValue := testValue r;
       rangeSetting := rangeSetting r;
       ioType := ioType r;
       rangeInput := field_after RangeInput cs r (rangeInput r);
       referenceInput := field_after Reference cs r (referenceInput r);
       toleranceInput := field_after Tolerance cs r (toleranceInput r) |}.
Proof.
  revert r; induction cs as [|c cs IH]; intros r.
  - destruct r; reflexivity.
  - change (steps (c :: cs) r) with (steps cs (step c r)).
    rewrite IH, !field_after_key.
    destruct (steps_dataset [c] r) as (H1 & H2 & H3).
    change (steps [c] r) with (step c r) in H1, H2, H3.
    rewrite H1, H2, H3. unfold field_after at 4 5 6. cbn [fold_left].
    unfold step. destruct (is_match c r); reflexivity.
Qed.

Lemma field_after_app `{controls : Controls} (k : control)
  (cs1 cs2 : list Doc.record)
  (r : row) (s : jsstring) :
  field_after k (cs1 ++ cs2) r s = field_after k cs2 r (field_after k cs1 r s).
Proof. unfold field_after. apply fold_left_app. Qed.

(** Records that do not feed a control, or do not match, leave its text. *)
Lemma field_after_idle `{controls : Controls} (k : control)
  (cs : list Doc.record)
  (r : row) (s : jsstring) :
  (forall c, In c cs -> is_match c r = true -> supplied k c = VUndefined) ->
  field_after k cs r s = s.
Proof.
  unfold field_after. revert s; induction cs as [|c cs IH]; intros s H;
    cbn [fold_left]; [reflexivity|].
  rewrite IH by (intros c' Hc'; apply H; right; exact Hc').
  destruct (is_match c r) eqn:Hm; [|reflexivity].
  rewrite (H c) by (try left; auto). reflexivity.
Qed.

(** The records either leave a control alone or put a fixed text in it. *)
Lemma field_after_id_or_const `{controls : Controls} (k : control)
  (cs : list Doc.record) (r : row) :
  (forall s, field_after k cs r s = s)
  \/ (exists t, forall s, field_after k cs r s = t).
Proof.
  unfold field_after. induction cs as [|c cs [IH | [t IH]]]; cbn [fold_left].
  - left; reflexivity.
  - destruct (is_match c r); [|left; exact IH].
    destruct (supplied k c) eqn:Hf; cbn [assign];
      [left; exact IH
      | right; eexists; intros ?; rewrite IH; reflexivity ..].
  - right; exists t; intros s; apply IH.
Qed.

Lemma field_after_idem `{controls : Controls} (k : control)
  (cs : list Doc.record)
  (r : row) (s : jsstring) :
  field_after k cs r (field_after k cs r s) = field_after k cs r s.
Proof.
  destruct (field_after_id_or_const k cs r) as [H | [t H]].
  - rewrite !H. reflexivity.
  - rewrite !H. reflexivity.
Qed.

Lemma field_after_steps `{controls : Controls} (k : control)
  (cs cs' : list Doc.record)
  (r : row) (s : jsstring) :
  field_after k cs (steps cs' r) s = field_after k cs r s.
Proof.
  unfold field_after. revert s; induction cs as [|c cs IH]; intros s;
    cbn [fold_left]; [reflexivity|].
  rewrite is_match_steps. apply IH.
Qed.

Lemma steps_idem `{controls : Controls} (cs : list Doc.record) (r : row) :
  steps cs (steps cs r) = steps cs r.
Proof.
  rewrite (steps_fields cs (steps cs r)), !field_after_steps.
  rewrite (steps_fields cs r) at 1 2 3 4 5 6. cbn [testValue rangeSetting ioType
    rangeInput referenceInput toleranceInput].
  rewrite !field_after_idem. symmetry. apply steps_fields.
Qed.

Lemma count_after_steps `{controls : Controls} (cs cs' : list Doc.record)
  (rows : list row) :
  list_sum (List.map (fun c => List.length (filter (is_match c) (List.map (steps cs') rows))) cs)
  = list_sum (List.map (fun c => List.length (filter (is_match c) rows)) cs).
Proof.
  f_equal. apply map_ext. intros c.
  induction rows as [|r rows IH]; cbn [List.map filter]; [reflexivity|].
  rewrite is_match_steps. destruct (is_match c r); cbn [List.length];
    rewrite IH; reflexivity.
Qed.

(** X1. Merging a list of records is merging its first part and then,
    on the rows this leaves, its second part; the counts add up. *)
Theorem merge_app `{controls : Controls} (cs1 cs2 : list Doc.record)
  (rows : list row) :
  merge (Some (cs1 ++ cs2)) rows
  = (fst (merge (Some cs2) (fst (merge (Some cs1) rows))),
     (snd (merge (Some cs1) rows)
      + snd (merge (Some cs2) (fst (merge (Some cs1) rows))))%nat).
Proof.
  rewrite !merge_spec. cbn [fst snd]. rewrite !match_pairs_count.
  rewrite map_map, count_after_steps, map_app, list_sum_app. f_equal.
  apply map_ext. intros r. apply steps_app.
Qed.

(** X2. Merging the same records a second time changes nothing more: the
    rows stay as the first merge left them, and the same count is
    logged. *)
Theorem merge_idempotent `{controls : Controls} (cs : list Doc.record)
  (rows : list row) :
  merge (Some cs) (fst (merge (Some cs) rows))
  = (fst (merge (Some cs) rows), snd (merge (Some cs) rows)).
Proof.
  rewrite !merge_spec. cbn [fst snd]. rewrite !match_pairs_count.
  rewrite map_map, count_after_steps. f_equal.
  apply map_ext. intros r. apply steps_idem.
Qed.

Lemma text_steps `{controls : Controls} (k : control) (cs : list Doc.record)
  (r : row) :
  text k (steps cs r) = field_after k cs r (text k r).
Proof. rewrite steps_fields. destruct k; reflexivity. Qed.

(** X3. The last word on a control belongs to the last record that
    matches the row and supplies the field: when [E] matches the row [R]
    and supplies a field, and no record after [E] that matches [R]
    supplies it, the control of [R] ends with what it takes from the value
    of [E] (its string form, the empty string for [null], sanitized),
    whatever the earlier records wrote. *)
Theorem merge_last_wins `{controls : Controls} (k : control)
  (cs1 cs2 : list Doc.record)
  (E : Doc.record) (rows : list row) (j : nat) (R : row) :
  nth_error rows j = Some R ->
  is_match E R = true ->
  supplied k E <> VUndefined ->
  (forall c, In c cs2 -> is_match c R = true -> supplied k c = VUndefined) ->
  option_map (text k)
    (nth_error (fst (merge (Some (cs1 ++ E :: cs2)) rows)) j)
  = Some (taken k (supplied k E)).
Proof.
  intros Hj Hm Hs Hlater. rewrite merge_spec. cbn [fst].
  rewrite nth_error_map, Hj. cbn [option_map]. f_equal.
  rewrite text_steps.
  change (E :: cs2) with ([E] ++ cs2). rewrite !field_after_app.
  rewrite (field_after_idle _ cs2) by exact Hlater.
  unfold field_after at 1. cbn [fold_left]. rewrite Hm.
  apply assign_supplied, Hs.
Qed.

Lemma merge_last_wins_witness :
  option_map (text Reference)
    (nth_error
       (fst (merge
               (Some ([sample_record "10" VNull "V" VUndefined
                         (VStr (lit "1")) VUndefined]
                      ++ sample_record "10" VNull "V" VUndefined
                           (VStr (lit "2")) VUndefined
                      :: [sample_record "10" VNull "V" (VStr (lit "x"))
                            VUndefined VUndefined]))
               duplicate_rows)) 1)
  = Some (lit "2").
Proof.
  rewrite (merge_last_wins Reference
             [sample_record "10" VNull "V" VUndefined (VStr (lit "1")) VUndefined]
             [sample_record "10" VNull "V" (VStr (lit "x")) VUndefined VUndefined]
             (sample_record "10" VNull "V" VUndefined (VStr (lit "2")) VUndefined)
             duplicate_rows 1
             (sample_row "10" "N/A" "V" "N/A" "2" "0.1")).
  - reflexivity.
  - reflexivity.
  - by_evaluation.
  - discriminate.
  - intros c [<- | []] _. reflexivity.
Defined.

Lemma step_swap `{controls : Controls} (E1 E2 : Doc.record) (r : row) :
  is_match E1 r = false \/ is_match E2 r = false ->
  step E2 (step E1 r) = step E1 (step E2 r).
Proof.
  intros [H | H].
  - rewrite (step_no_match E1 r H).
    rewrite (step_no_match E1 (step E2 r)); [reflexivity|].
    rewrite is_match_step. exact H.
  - rewrite (step_no_match E2 r H).
    rewrite (step_no_match E2 (step E1 r)); [reflexivity|].
    rewrite is_match_step. exact H.
Qed.

(** X4. Two neighbouring records that no row matches both can change
    places: the merge gives the same rows and the same count. *)
Theorem merge_swap `{controls : Controls} (cs1 cs2 : list Doc.record)
  (E1 E2 : Doc.record)
  (rows : list row) :
  (forall r, In r rows -> is_match E1 r = false \/ is_match E2 r = false) ->
  merge (Some (cs1 ++ E1 :: E2 :: cs2)) rows
  = merge (Some (cs1 ++ E2 :: E1 :: cs2)) rows.
Proof.
  intros H. rewrite !merge_spec, !match_pairs_count. f_equal.
  - apply map_ext_in. intros r Hr. rewrite !steps_app.
    change (E1 :: E2 :: cs2) with ([E1; E2] ++ cs2).
    change (E2 :: E1 :: cs2) with ([E2; E1] ++ cs2).
    rewrite !steps_app. f_equal. unfold steps at 1 3. cbn [fold_left].
    apply step_swap. rewrite !is_match_steps. apply H, Hr.
  - rewrite !map_app, !list_sum_app. unfold list_sum.
    cbn [List.map fold_right]. lia.
Qed.

Lemma merge_swap_witness :
  merge
    (Some ([] ++ sample_record "10" VNull "V" VUndefined (VStr (lit "5")) VUndefined
              :: sample_record "20" (VStr (lit "Range1")) "V" VUndefined
                   (VStr (lit "6")) VUndefined :: []))
    distinct_rows
  = merge
      (Some ([] ++ sample_record "20" (VStr (lit "Range1")) "V" VUndefined
                     (VStr (lit "6")) VUndefined
                :: sample_record "10" VNull "V" VUndefined (VStr (lit "5")) VUndefined
                :: []))
      distinct_rows.
Proof.
  apply (merge_swap [] []
           (sample_record "10" VNull "V" VUndefined (VStr (lit "5")) VUndefined)
           (sample_record "20" (VStr (lit "Range1")) "V" VUndefined
              (VStr (lit "6")) VUndefined)
           distinct_rows).
  unfold distinct_rows. intros r [<- | [<- | []]]; [right | left]; by_evaluation.
Defined.

Lemma list_sum_zero (l : list nat) :
  list_sum l = 0%nat -> forall n, In n l -> n = 0%nat.
Proof.
  induction l as [|a l IH]; intros H n Hn; [destruct Hn|].
  cbn [list_sum fold_right] in H. fold (list_sum l) in H.
  destruct Hn as [<- | Hn]; [lia | apply IH; [lia | exact Hn]].
Qed.

Lemma filter_length_zero {A : Type} (f : A -> bool) (l : list A) :
  List.length (filter f l) = 0%nat -> forall a, In a l -> f a = false.
Proof.
  induction l as [|b l IH]; cbn [filter]; intros H a Ha; [destruct Ha|].
  destruct (f b) eqn:Hb; [discriminate|].
  destruct Ha as [<- | Ha]; [exact Hb | apply IH; assumption].
Qed.

(** X5. The count never exceeds the number of records times the number
    of rows, and a count of 0 means that no row was touched. *)
Theorem merge_count `{controls : Controls} (cs : list Doc.record)
  (rows : list row) :
  (snd (merge (Some cs) rows) <= List.length cs * List.length rows)%nat
  /\ (snd (merge (Some cs) rows) = 0%nat ->
      fst (merge (Some cs) rows) = rows).
Proof.
  rewrite merge_spec. cbn [fst snd]. split.
  - unfold match_pairs.
    rewrite <- length_prod. apply filter_length_le.
  - rewrite match_pairs_count. intros H.
    rewrite <- (map_id rows) at 2. apply map_ext_in. intros r Hr.
    apply steps_no_match. intros c Hc.
    apply (filter_length_zero (is_match c) rows); [|exact Hr].
    apply (list_sum_zero _ H). apply in_map_iff. exists c. split; auto.
Qed.

Lemma overwrite_blank `{controls : Controls} (E : Doc.record) (r : row) :
  Doc.range_input E = VUndefined ->
  Doc.reference E = VUndefined ->
  Doc.tolerance E = VUndefined ->
  overwrite E r = r.
Proof.
  intros H1 H2 H3. unfold overwrite. rewrite H1, H2, H3.
  destruct r; reflexivity.
Qed.

(** X6. A record that supplies none of the three editable fields writes
    nothing, yet it is counted: with it in the list the rows come out as
    without it, and the count is higher by the number of rows it
    matches. *)
Theorem merge_blank_record `{controls : Controls} (cs1 cs2 : list Doc.record)
  (E : Doc.record)
  (rows : list row) :
  Doc.range_input E = VUndefined ->
  Doc.reference E = VUndefined ->
  Doc.tolerance E = VUndefined ->
  merge (Some (cs1 ++ E :: cs2)) rows
  = (fst (merge (Some (cs1 ++ cs2)) rows),
     (snd (merge (Some (cs1 ++ cs2)) rows)
      + List.length (filter (is_match E) rows))%nat).
Proof.
  intros H1 H2 H3. rewrite !merge_spec. cbn [fst snd].
  rewrite !match_pairs_count. f_equal.
  - apply map_ext. intros r. rewrite !steps_app.
    change (E :: cs2) with ([E] ++ cs2). rewrite steps_app. f_equal.
    unfold steps at 1. cbn [fold_left]. unfold step.
    destruct (is_match E (steps cs1 r)); [|reflexivity].
    apply overwrite_blank; assumption.
  - rewrite !map_app, !list_sum_app. unfold list_sum.
    cbn [List.map fold_right]. lia.
Qed.

Lemma merge_blank_record_witness :
  merge
    (Some ([] ++ sample_record "10" VNull "V" VUndefined VUndefined VUndefined
              :: []))
    duplicate_rows
  = (fst (merge (Some ([] ++ [])) duplicate_rows),
     (snd (merge (Some ([] ++ [])) duplicate_rows)
      + List.length
          (filter
             (is_match
                (sample_record "10" VNull "V" VUndefined VUndefined VUndefined))
             duplicate_rows))%nat).
Proof.
  apply (merge_blank_record [] []
           (sample_record "10" VNull "V" VUndefined VUndefined VUndefined)
           duplicate_rows); reflexivity.
Defined.

(** A difference with a NaN or an infinity is never below the
    tolerance. *)
Lemma difference_not_finite (x y : number) :
  is_finite x = false ->
  ltb (abs (sub x y)) tolerance_1e_4 = false
  /\ ltb (abs (sub y x)) tolerance_1e_4 = false.
Proof.
  destruct x as [s|s| |s m e]; try discriminate; intros _;
    destruct y as [t|t| |t n d]; try destruct s; try destruct t;
    split; reflexivity.
Qed.

(** X7. A match needs two finite test values: a row whose
    [data-test-value] is missing, does not parse or is infinite matches
    no record, and a record whose [test_value] is missing, [null], not a
    number or infinite matches no row. *)
Theorem match_needs_finite_test_values (E : Doc.record) (R : row) :
  is_match E R = true ->
  is_finite (row_test_value R) = true
  /\ is_finite (record_test_value E) = true
  /\ testValue R <> None
  /\ Doc.test_value E <> VUndefined
  /\ Doc.test_value E <> VNull.
Proof.
  unfold is_match. fold (row_test_value R). fold (record_test_value E).
  intros H. apply andb_true_iff in H. destruct H as [H _].
  apply andb_true_iff in H. destruct H as [H _].
  assert (Hrow : is_finite (row_test_value R) = true).
  { destruct (is_finite (row_test_value R)) eqn:Hf; [reflexivity|].
    destruct (difference_not_finite _ (record_test_value E) Hf) as [Hd _].
    congruence. }
  assert (Hrec : is_finite (record_test_value E) = true).
  { destruct (is_finite (record_test_value E)) eqn:Hf; [reflexivity|].
    destruct (difference_not_finite _ (row_test_value R) Hf) as [_ Hd].
    congruence. }
  repeat split; try assumption.
  - intros Hn. unfold row_test_value in Hrow. rewrite Hn in Hrow.
    vm_compute in Hrow. discriminate.
  - intros Hn. unfold record_test_value in Hrec. rewrite Hn in Hrec.
    vm_compute in Hrec. discriminate.
  - intros Hn. unfold record_test_value in Hrec. rewrite Hn in Hrec.
    vm_compute in Hrec. discriminate.
Qed.

Lemma match_needs_finite_test_values_witness :
  is_finite (row_test_value (sample_row "10" "N/A" "V" "" "0" "0.1")) = true
  /\ is_finite
       (record_test_value
          (sample_record "10.00003" VNull "V" VUndefined VUndefined VUndefined))
     = true
  /\ testValue (sample_row "10" "N/A" "V" "" "0" "0.1") <> None
  /\ Doc.test_value
       (sample_record "10.00003" VNull "V" VUndefined VUndefined VUndefined)
     <> VUndefined
  /\ Doc.test_value
       (sample_record "10.00003" VNull "V" VUndefined VUndefined VUndefined)
     <> VNull.
Proof.
  apply (match_needs_finite_test_values
           (sample_record "10.00003" VNull "V" VUndefined VUndefined VUndefined)
           (sample_row "10" "N/A" "V" "" "0" "0.1")).
  by_evaluation.
Defined.

(** ** More on extraction *)

Lemma getConfigurations_Ok (fi : files_info) (rows : list row)
  (configs : list config) :
  getConfigurations fi rows = Ok configs ->
  Forall (fun r => row_valid r = true) rows
  /\ configs = List.map record_of_row rows.
Proof.
  intros H. destruct (Forall_or_Exists_valid rows) as [Hv | Hx].
  - split; [exact Hv|]. unfold getConfigurations in H.
    rewrite read_rows_valid in H by exact Hv. cbn [app] in H. congruence.
  - destruct (read_rows_invalid fi rows [] Hx) as (? & ? & ? & _ & _ & _ & Hth).
    unfold getConfigurations in H. congruence.
Qed.

Lemma record_of_row_well_formed (r : row) :
  row_valid r = true -> well_formed (record_of_row r).
Proof.
  unfold row_valid, well_formed, record_of_row.
  cbn [reference tolerance range_input].
  intros H. apply andb_true_iff in H. destruct H as [Hn Hl].
  apply negb_true_iff in Hn, Hl. apply orb_false_iff in Hn.
  destruct Hn as [Hr Ht]. repeat split; try assumption.
  - destruct (trim (rangeInput r)); discriminate.
  - pose proof (trim_clean_start (rangeInput r)) as Hc.
    destruct (trim (rangeInput r)); [reflexivity | exact Hc].
  - pose proof (trim_clean_end (rangeInput r)) as Hc.
    destruct (trim (rangeInput r)); [reflexivity | exact Hc].
Qed.

(** X8. Every record that extraction returns is well formed: its
    reference and its tolerance are numbers, the tolerance is not below
    zero, and its range input is not empty and carries no white space at
    either end.  There is one record per row. *)
Theorem extracted_records_well_formed (filesInfo : files_info)
  (rows : list row) (configs : list config) :
  getConfigurations filesInfo rows = Ok configs ->
  Forall well_formed configs /\ List.length configs = List.length rows.
Proof.
  intros H. apply getConfigurations_Ok in H. destruct H as [Hv ->].
  split; [|apply length_map].
  induction Hv as [|r rows Hr _ IH]; cbn [List.map]; constructor.
  - apply record_of_row_well_formed, Hr.
  - exact IH.
Qed.

Lemma extracted_records_well_formed_witness :
  Forall well_formed (List.map record_of_row distinct_rows)
  /\ List.length (List.map record_of_row distinct_rows)
     = List.length distinct_rows.
Proof.
  apply (extracted_records_well_formed sample_unit distinct_rows).
  by_evaluation.
Defined.

(** ** More on the saved file *)

Lemma normalize_dataset_saved (o : option jsstring) :
  normalizeRangeSetting
    (if strict_eq (dataset o) (VStr (lit "N/A")) then VNull else dataset o)
  = normalizeRangeSetting (dataset o).
Proof.
  destruct (strict_eq (dataset o) (VStr (lit "N/A"))) eqn:H; [|reflexivity].
  apply strict_eq_string in H. rewrite H. reflexivity.
Qed.

Lemma JSON_value_dataset (o : option jsstring) :
  JSON_value (dataset o) = dataset o.
Proof. destruct o; reflexivity. Qed.

(** X9. The [null] written for a range setting "N/A" does not change
    the key: the record saved for a row, before and after it went
    through the file, has a range setting that normalizes as the
    attribute of the row does, and the io type of the row. *)
Theorem saved_record_keeps_key (r : row) :
  normalizeRangeSetting (Doc.range_setting (save_entry (record_of_row r)))
  = normalizeRangeSetting (dataset (rangeSetting r))
  /\ normalizeRangeSetting (Doc.range_setting (saved r))
     = normalizeRangeSetting (dataset (rangeSetting r))
  /\ Doc.io_type (save_entry (record_of_row r)) = dataset (ioType r)
  /\ Doc.io_type (saved r) = dataset (ioType r).
Proof.
  unfold saved, JSON_record, save_entry, record_of_row.
  cbn [Doc.range_setting Doc.io_type range_setting io_type].
  split; [apply normalize_dataset_saved|].
  split; [|split; [reflexivity | apply JSON_value_dataset]].
  destruct (strict_eq (dataset (rangeSetting r)) (VStr (lit "N/A"))) eqn:H.
  - apply strict_eq_string in H. rewrite H. reflexivity.
  - rewrite JSON_value_dataset. reflexivity.
Qed.

Lemma saved_record_keeps_key_aux (r : row) :
  normalizeRangeSetting (Doc.range_setting (saved r))
  = normalizeRangeSetting (dataset (rangeSetting r))
  /\ Doc.io_type (saved r) = dataset (ioType r).
Proof.
  unfold saved, JSON_record, save_entry, record_of_row.
  cbn [Doc.range_setting Doc.io_type range_setting io_type].
  split; [|apply JSON_value_dataset].
  destruct (strict_eq (dataset (rangeSetting r)) (VStr (lit "N/A"))) eqn:H.
  - apply strict_eq_string in H. rewrite H. reflexivity.
  - rewrite JSON_value_dataset. reflexivity.
Qed.

Lemma sub_diag (x : number) :
  is_finite x = true -> abs (sub x x) = S754_zero false.
Proof.
  destruct x as [s|s| |s m e]; try discriminate; intros _.
  - destruct s; reflexivity.
  - unfold sub, SFsub. rewrite Z.sub_diag. reflexivity.
Qed.

(** The record saved for a row matches it when the test value of the row
    is a finite number that is read back from its text. *)
Lemma saved_matches_own_row (r : row) :
  is_finite (row_test_value r) = true ->
  survives (row_test_value r) ->
  is_match (saved r) r = true.
Proof.
  intros Hf Hs. unfold is_match.
  destruct (saved_record_keeps_key_aux r) as (Hk & Hio).
  rewrite Hk, Hio, str_eqb_refl.
  replace (strict_eq (dataset (ioType r)) (dataset (ioType r))) with true
    by (symmetry; apply strict_eq_dataset; reflexivity).
  rewrite !andb_true_r.
  fold (row_test_value r).
  assert (Ht : parseFloat (Doc.test_value (saved r)) = row_test_value r).
  { unfold saved, JSON_record, save_entry, record_of_row.
    cbn [Doc.test_value test_value JSON_value]. rewrite Hf.
    unfold survives, parseFloat in Hs. cbn [ToString] in Hs.
    unfold parseFloat. cbn [ToString]. rewrite !Hs. reflexivity. }
  rewrite Ht, (sub_diag _ Hf). reflexivity.
Qed.

Lemma distinct_keys_own (pre post : list row) (r : row) :
  distinct_keys (pre ++ r :: post) = true ->
  forall r', In r' (pre ++ post) -> is_match (saved r) r' = false.
Proof.
  induction pre as [|p pre IH]; cbn [app distinct_keys];
    rewrite andb_true_iff, forallb_forall.
  - intros [H _] r' Hin. specialize (H r' Hin).
    apply andb_true_iff in H. destruct H as [H _].
    apply negb_true_iff in H. exact H.
  - intros [H Hd] r' [<- | Hin].
    + assert (Hr : In r (pre ++ r :: post))
        by (apply in_app_iff; right; left; reflexivity).
      apply H in Hr. apply andb_true_iff in Hr. destruct Hr as [_ Hr].
      apply negb_true_iff in Hr. exact Hr.
    + apply IH; assumption.
Qed.

Lemma list_sum_ones {A : Type} (f : A -> nat) (l : list A) :
  (forall a, In a l -> f a = 1%nat) ->
  list_sum (List.map f l) = List.length l.
Proof.
  induction l as [|a l IH]; intros H; [reflexivity|].
  cbn [List.map List.length]. change (list_sum (f a :: List.map f l))
    with (f a + list_sum (List.map f l))%nat.
  rewrite (H a) by (left; reflexivity).
  rewrite IH by (intros b Hb; apply H; right; exact Hb). reflexivity.
Qed.

(** X10. The round trip reaches every row once.  For a valid row set in
    which no saved record matches a row other than its own, and whose
    test values are finite numbers read back from their texts, merging
    the reloaded file onto the same rows applies to each row its own
    record and nothing else: every row ends holding the texts of its
    record, and the count is the number of rows. *)
Theorem round_trip_count `{controls : Controls} (filesInfo : files_info)
  (rows : list row) :
  Forall (fun r => row_valid r = true) rows ->
  distinct_keys rows = true ->
  Forall (fun r => is_finite (row_test_value r) = true
                   /\ survives (row_test_value r)) rows ->
  exists d,
    saveConfig filesInfo rows = Ok d
    /\ merge (Doc.configurations (reload d)) rows
       = (List.map canonical rows, List.length rows).
Proof.
  intros Hv Hd Hs. unfold saveConfig, getConfigurations.
  rewrite read_rows_valid by exact Hv. cbn [app bind].
  eexists. split; [reflexivity|].
  cbn [reload Doc.configurations option_map]. rewrite !map_map.
  change (fun x : row => JSON_record (save_entry (record_of_row x))) with saved.
  rewrite merge_spec, match_pairs_count. rewrite Forall_forall in Hs.
  f_equal.
  - apply map_ext_in. intros r Hr.
    destruct (in_split r rows Hr) as (pre & post & Heq).
    rewrite Heq in Hd |- *. rewrite (steps_own_record pre post r Hd).
    unfold step. rewrite saved_matches_own_row; [reflexivity | |];
      apply Hs; rewrite Heq; apply in_elt.
  - rewrite map_map. apply list_sum_ones. intros r Hr.
    destruct (in_split r rows Hr) as (pre & post & Heq).
    rewrite Heq in Hd |- *.
    pose proof (distinct_keys_own pre post r Hd) as Hno.
    rewrite filter_app. cbn [filter].
    rewrite saved_matches_own_row by (apply Hs; rewrite Heq; apply in_elt).
    rewrite !filter_none; [reflexivity | |];
      intros r' Hr'; apply Hno, in_app_iff; [right | left]; exact Hr'.
Qed.

Lemma round_trip_count_witness :
  exists d,
    saveConfig sample_unit distinct_rows = Ok d
    /\ merge (Doc.configurations (reload d)) distinct_rows
       = (List.map canonical distinct_rows, List.length distinct_rows).
Proof.
  apply (round_trip_count sample_unit distinct_rows).
  - each_row by_evaluation.
  - by_evaluation.
  - each_row ltac:(split; by_evaluation).
Defined.

(** *** White space in the controls *)

Lemma trimStart_whitespace (l s : jsstring) :
  all_whitespace l -> trimStart (l ++ s) = trimStart s.
Proof.
  induction 1 as [|c l Hc _ IH]; cbn [app trimStart]; [reflexivity|].
  rewrite Hc. exact IH.
Qed.

Lemma trimStart_app (s t : jsstring) :
  trimStart (s ++ t)
  = match trimStart s with
    | [] => trimStart t
    | _ => trimStart s ++ t
    end.
Proof.
  induction s as [|c s IH]; cbn [app trimStart].
  - destruct (trimStart t); reflexivity.
  - destruct (is_whitespace c); [exact IH | reflexivity].
Qed.

Lemma trimEnd_whitespace (s t : jsstring) :
  all_whitespace t -> trimEnd (s ++ t) = trimEnd s.
Proof.
  intros H. unfold trimEnd. rewrite rev_app_distr.
  rewrite trimStart_whitespace; [reflexivity|].
  apply Forall_rev, H.
Qed.

Lemma trim_padded (l s t : jsstring) :
  all_whitespace l -> all_whitespace t -> trim (l ++ s ++ t) = trim s.
Proof.
  intros Hl Ht. unfold trim. rewrite (trimStart_whitespace l _ Hl).
  rewrite trimStart_app. destruct (trimStart s) eqn:Hs.
  - rewrite <- (app_nil_r t), (trimStart_whitespace t [] Ht). reflexivity.
  - apply trimEnd_whitespace, Ht.
Qed.

Lemma parseFloat_padded (l s : jsstring) :
  all_whitespace l -> parseFloat (VStr (l ++ s)) = parseFloat (VStr s).
Proof.
  intros H. unfold parseFloat, parseFloat_string. cbn [ToString].
  rewrite (trimStart_whitespace l s H). reflexivity.
Qed.

Lemma read_row_padded (fi : files_info) (r r' : row) :
  padded r r' -> read_row fi r' = read_row fi r.
Proof.
  intros (H1 & H2 & H3 & (l & t & Hl & Ht & Hri) & (l2 & Hl2 & Href)
          & (l3 & Hl3 & Htol)).
  unfold read_row. rewrite H1, H2, H3, Hri, Href, Htol.
  rewrite (trim_padded l _ t Hl Ht), !parseFloat_padded by assumption.
  reflexivity.
Qed.

(** X11. White space typed around the range input, or in front of the
    reference or of the tolerance, does not count: extraction gives the
    same result, records or error, as without it. *)
Theorem extraction_ignores_padding (filesInfo : files_info)
  (rows rows' : list row) :
  Forall2 padded rows rows' ->
  getConfigurations filesInfo rows' = getConfigurations filesInfo rows.
Proof.
  intros H. unfold getConfigurations. generalize (@nil config).
  induction H as [|r r' l l' Hr _ IH]; intros acc; cbn [read_rows];
    [reflexivity|].
  rewrite (read_row_padded filesInfo r r' Hr).
  destruct (read_row filesInfo r); cbn [bind]; [apply IH | reflexivity].
Qed.

Lemma extraction_ignores_padding_witness :
  getConfigurations sample_unit
    [sample_row "10" "N/A" "V" "  bench A " " 1.0" "  0.10"]
  = getConfigurations sample_unit
      [sample_row "10" "N/A" "V" "bench A" "1.0" "0.10"].
Proof.
  apply (extraction_ignores_padding sample_unit
           [sample_row "10" "N/A" "V" "bench A" "1.0" "0.10"]
           [sample_row "10" "N/A" "V" "  bench A " " 1.0" "  0.10"]).
  constructor; [|constructor].
  repeat split.
  - exists (lit "  "), (lit " ").
    split; [each_row reflexivity|]. split; [each_row reflexivity|].
    reflexivity.
  - exists (lit " "). split; [each_row reflexivity | reflexivity].
  - exists (lit "  "). split; [each_row reflexivity | reflexivity].
Defined.

(** ** The measurement types *)

Lemma get_set_property (o : object) (key v key' : jsstring) :
  get_property (set_property o key v) key'
  = if str_eqb key key' then Some v else get_property o key'.
Proof.
  induction o as [|[k w] o IH]; cbn [set_property get_property].
  - reflexivity.
  - destruct (str_eqb k key) eqn:Hk; cbn [get_property].
    + apply str_eqb_eq in Hk. subst k.
      destruct (str_eqb key key'); reflexivity.
    + destruct (str_eqb k key') eqn:Hk'; [|exact IH].
      destruct (str_eqb key key') eqn:Hkk; [|reflexivity].
      apply str_eqb_eq in Hk', Hkk. subst. rewrite str_eqb_refl in Hk.
      discriminate.
Qed.

Lemma keys_set_property (o : object) (key v : jsstring) :
  List.map fst (set_property o key v)
  = match get_property o key with
    | Some _ => List.map fst o
    | None => List.map fst o ++ [key]
    end.
Proof.
  induction o as [|[k w] o IH]; cbn [set_property get_property List.map fst app].
  - reflexivity.
  - destruct (str_eqb k key); cbn [List.map fst]; [reflexivity|].
    rewrite IH. destruct (get_property o key); reflexivity.
Qed.

Lemma get_property_None (o : object) (key : jsstring) :
  get_property o key = None -> ~ In key (List.map fst o).
Proof.
  induction o as [|[k w] o IH]; cbn [get_property List.map fst In];
    [tauto|].
  destruct (str_eqb k key) eqn:Hk; [discriminate|].
  intros H [Heq | Hin]; [|exact (IH H Hin)].
  subst k. rewrite str_eqb_refl in Hk. discriminate.
Qed.

Lemma NoDup_set_property (o : object) (key v : jsstring) :
  NoDup (List.map fst o) -> NoDup (List.map fst (set_property o key v)).
Proof.
  intros H. rewrite keys_set_property.
  destruct (get_property o key) eqn:Hg; [exact H|].
  apply NoDup_app; [exact H | repeat constructor; intros [] |].
  intros k Hk [Heq | []]. subst k. exact (get_property_None o key Hg Hk).
Qed.

Lemma get_assign_property (o : object) (key v key' : jsstring) :
  get_property (assign_property o key v) key'
  = if str_eqb key (lit "__proto__") then get_property o key'
    else if str_eqb key key' then Some v else get_property o key'.
Proof.
  unfold assign_property. destruct (str_eqb key (lit "__proto__"));
    [reflexivity | apply get_set_property].
Qed.

Lemma selections_from (selects : list select) (o : object) (key : jsstring) :
  get_property
    (fold_left
       (fun selections s =>
          assign_property selections (selection_key s) (selected s))
       selects o) key
  = if str_eqb key (lit "__proto__") then get_property o key
    else match last_select selects key with
         | Some s => Some (selected s)
         | None => get_property o key
         end.
Proof.
  revert o; induction selects as [|s selects IH]; intros o;
    cbn [fold_left last_select].
  - destruct (str_eqb key (lit "__proto__")); reflexivity.
  - rewrite IH, get_assign_property.
    destruct (str_eqb key (lit "__proto__")) eqn:Hkey.
    + apply str_eqb_eq in Hkey. subst key.
      destruct (str_eqb (selection_key s) (lit "__proto__")); reflexivity.
    + destruct (last_select selects key); [reflexivity|].
      destruct (str_eqb (selection_key s) key) eqn:Hsk;
        destruct (str_eqb (selection_key s) (lit "__proto__")) eqn:Hs;
        try reflexivity.
      apply str_eqb_eq in Hs, Hsk. rewrite <- Hsk, Hs in Hkey.
      discriminate.
Qed.

Lemma selections_NoDup (selects : list select) (o : object) :
  NoDup (List.map fst o) ->
  NoDup
    (List.map fst
       (fold_left
          (fun selections s =>
             assign_property selections (selection_key s) (selected s))
          selects o)).
Proof.
  revert o; induction selects as [|s selects IH]; intros o Ho;
    cbn [fold_left]; [exact Ho|].
  apply IH. unfold assign_property.
  destruct (str_eqb (selection_key s) (lit "__proto__"));
    [exact Ho | apply NoDup_set_property, Ho].
Qed.

Lemma last_select_None (selects : list select) (key : jsstring) :
  last_select selects key = None
  <-> forall s, In s selects -> selection_key s <> key.
Proof.
  induction selects as [|s selects IH]; cbn [last_select].
  - split; [intros _ s [] | reflexivity].
  - destruct (last_select selects key) eqn:Hl.
    + split; [discriminate|]. intros H. exfalso.
      assert (Hno : forall x, In x selects -> selection_key x <> key)
        by (intros x Hx; apply H; right; exact Hx).
      apply IH in Hno. discriminate.
    + destruct (str_eqb (selection_key s) key) eqn:Hk.
      * split; [discriminate|]. intros H. exfalso.
        apply str_eqb_eq in Hk. apply (H s); [left; reflexivity | exact Hk].
      * split; [|reflexivity]. intros _ x [<- | Hx].
        -- intros Heq. rewrite Heq, str_eqb_refl in Hk. discriminate.
        -- apply (proj1 IH); [reflexivity | exact Hx].
Qed.

(** X12. The object of measurement types has one property per file
    name, and the property of a file name holds the value of the last
    select that carries it; a name that no select carries has no
    property.  The name [__proto__] is the exception: it never becomes a
    property. *)
Theorem selections_last_select (selects : list select) (key : jsstring) :
  get_property (getMeasurementTypeSelections selects) key
  = (if str_eqb key (lit "__proto__") then None
     else option_map selected (last_select selects key))
  /\ NoDup (List.map fst (getMeasurementTypeSelections selects))
  /\ (key <> lit "__proto__" ->
      (get_property (getMeasurementTypeSelections selects) key = None
       <-> forall s, In s selects -> selection_key s <> key)).
Proof.
  assert (Hget : get_property (getMeasurementTypeSelections selects) key
                 = (if str_eqb key (lit "__proto__") then None
                    else option_map selected (last_select selects key))).
  { unfold getMeasurementTypeSelections. rewrite selections_from.
    destruct (str_eqb key (lit "__proto__")); [reflexivity|].
    destruct (last_select selects key); reflexivity. }
  split; [exact Hget|]. split.
  - apply selections_NoDup. constructor.
  - intros Hkey. rewrite Hget.
    destruct (str_eqb key (lit "__proto__")) eqn:Hp.
    + apply str_eqb_eq in Hp. contradiction.
    + rewrite <- last_select_None.
      destruct (last_select selects key); cbn [option_map];
        split; (discriminate || reflexivity).
Qed.

(** ** The handlers *)

(** X13. A row that is not valid keeps the request from being sent:
    [processFiles] and [saveConfig] then only show an alert, "Configuration
    error: " followed by the message of the first such row, and the
    loading overlay is not shown.  When every row is valid,
    [processFiles] shows the overlay and posts the measurement types, the
    records of the rows and the trimmed equipment number, and
    [saveConfig] posts the document of the saved records. *)
Theorem validation_blocks_requests (filesInfo : files_info)
  (selects : list select) (rows : list row) (equipment_number : jsstring) :
  (Forall (fun r => row_valid r = true) rows ->
   processFiles filesInfo selects rows equipment_number
   = [ Loading (lit "Processing files...");
       Fetch (lit "/api/process")
         (ProcessRequest (getMeasurementTypeSelections selects)
            (List.map record_of_row rows) (trim equipment_number)) ]
   /\ saveConfig_request filesInfo rows
      = [ Fetch (lit "/api/save-config")
            (SaveRequest
               {| Doc.unit := unit filesInfo;
                  Doc.configurations :=
                    Some (List.map save_entry (List.map record_of_row rows)) |}) ])
  /\ (Exists (fun r => row_valid r = false) rows ->
      exists pre r post,
        rows = pre ++ r :: post
        /\ Forall (fun r' => row_valid r' = true) pre
        /\ row_valid r = false
        /\ processFiles filesInfo selects rows equipment_number
           = [Alert (lit "Configuration error: "
                       ++ error_message (validation_error filesInfo r))]
        /\ saveConfig_request filesInfo rows
           = [Alert (lit "Configuration error: "
                       ++ error_message (validation_error filesInfo r))]).
Proof.
  split.
  - intros Hv. unfold processFiles, saveConfig_request, saveConfig,
      getConfigurations.
    rewrite read_rows_valid by exact Hv. cbn [app bind]. split; reflexivity.
  - intros Hx.
    destruct (read_rows_invalid filesInfo rows [] Hx)
      as (pre & r & post & Heq & Hpre & Hr & Hth).
    exists pre, r, post. repeat split; try assumption.
    + unfold processFiles, getConfigurations. rewrite Hth.
      destruct (validation_error filesInfo r); reflexivity.
    + unfold saveConfig_request, saveConfig, getConfigurations. rewrite Hth.
      cbn [bind]. destruct (validation_error filesInfo r); reflexivity.
Qed.

Lemma strict_eq_refl (v : value) :
  (forall x, v <> VNum x) -> strict_eq v v = true.
Proof.
  destruct v as [| |b|x|s]; intros H; cbn [strict_eq]; try reflexivity.
  - destruct b; reflexivity.
  - exfalso. apply (H x). reflexivity.
  - apply str_eqb_refl.
Qed.

Lemma JSON_value_id (v : value) :
  (forall x, v <> VNum x) -> JSON_value v = v.
Proof.
  destruct v; intros H; try reflexivity. exfalso. apply (H x). reflexivity.
Qed.

(** X14. A file saved from the page never opens the unit dialog when it
    is loaded back in a session with the same unit (a unit that is not a
    number): [applyConfig] goes straight to the merge, whatever the user
    would have answered. *)
Theorem own_file_never_prompts `{controls : Controls} (filesInfo : files_info)
  (confirm : jsstring -> bool) (rows : list row) (d : Doc.t) :
  (forall x, unit filesInfo <> VNum x) ->
  saveConfig filesInfo rows = Ok d ->
  prompts filesInfo (reload d) = false
  /\ applyConfig filesInfo confirm (reload d) rows
     = (fst (merge (Doc.configurations (reload d)) rows),
        Some (snd (merge (Doc.configurations (reload d)) rows))).
Proof.
  intros Hu Hs. unfold saveConfig in Hs.
  destruct (getConfigurations filesInfo rows) as [configs|e]; cbn [bind] in Hs;
    [|discriminate].
  injection Hs as <-.
  assert (Hp : prompts filesInfo
                 (reload {| Doc.unit := unit filesInfo;
                            Doc.configurations := Some (List.map save_entry configs) |})
               = false).
  { unfold prompts, reload. cbn [Doc.unit].
    rewrite (JSON_value_id _ Hu), (strict_eq_refl _ Hu).
    apply andb_false_r. }
  split; [exact Hp|].
  unfold applyConfig. unfold prompts in Hp. rewrite Hp. cbn [andb].
  destruct (merge _ rows). reflexivity.
Qed.

Lemma own_file_never_prompts_witness :
  exists d,
    saveConfig sample_unit distinct_rows = Ok d
    /\ prompts sample_unit (reload d) = false
    /\ applyConfig sample_unit (fun _ => false) (reload d) distinct_rows
       = (fst (merge (Doc.configurations (reload d)) distinct_rows),
          Some (snd (merge (Doc.configurations (reload d)) distinct_rows))).
Proof.
  destruct (saveConfig sample_unit distinct_rows) as [d|e] eqn:Hs.
  - exists d. split; [reflexivity|].
    apply (own_file_never_prompts sample_unit (fun _ => false) distinct_rows d).
    + discriminate.
    + exact Hs.
  - vm_compute in Hs. discriminate.
Defined.

Lemma list_sum_ones_zero {A : Type} (f : A -> nat) (l : list A) :
  (forall a, In a l -> f a = 0%nat) -> list_sum (List.map f l) = 0%nat.
Proof.
  induction l as [|a l IH]; intros H; [reflexivity|].
  cbn [List.map]. change (list_sum (f a :: List.map f l))
    with (f a + list_sum (List.map f l))%nat.
  rewrite (H a) by (left; reflexivity).
  rewrite IH by (intros b Hb; apply H; right; exact Hb). reflexivity.
Qed.

(** X15. The answer to a load.  The success notification is shown
    exactly when the answer carries no error and a document, and the user
    declines the unit dialog or the merge of the document runs to its end;
    otherwise a single alert is shown.  The rows stay as they are when the
    answer carries an error or no document, when the user declines, and
    when [configurations] is not an array.  When the merge runs, its count
    is logged, also when no record matches any row; when it meets a [null]
    the rows keep what the records before it wrote, nothing is logged and
    the alert reports the TypeError. *)
Theorem load_answer `{controls : Controls} (filesInfo : files_info)
  (TypeError_message : Loaded.type_error -> jsstring)
  (confirm : jsstring -> bool) (data : LoadData.data) (rows : list row) :
  (In loaded_notice
      (snd (loadConfigFromFile_then filesInfo TypeError_message confirm data rows))
   <-> truthy (LoadData.error data) = false
       /\ exists d, LoadData.config data = Some d
                    /\ (declined filesInfo confirm d = true \/ merges d = true))
  /\ (truthy (LoadData.error data) = true ->
      loadConfigFromFile_then filesInfo TypeError_message confirm data rows
      = (rows, [Alert (lit "Error loading config: "
                         ++ ToString (LoadData.error data))]))
  /\ (truthy (LoadData.error data) = false ->
      LoadData.config data = None ->
      loadConfigFromFile_then filesInfo TypeError_message confirm data rows
      = (rows, [load_failed (TypeError_message Loaded.UndefinedDocument)]))
  /\ (forall d,
        truthy (LoadData.error data) = false ->
        LoadData.config data = Some d ->
        (declined filesInfo confirm d = true ->
         loadConfigFromFile_then filesInfo TypeError_message confirm data rows
         = (rows, [loaded_notice]))
        /\ (declined filesInfo confirm d = false ->
            Loaded.configurations d = Loaded.NotArray ->
            loadConfigFromFile_then filesInfo TypeError_message confirm data rows
            = (rows,
               [load_failed (TypeError_message Loaded.ForEachNotAFunction)]))
        /\ (declined filesInfo confirm d = false ->
            Loaded.configurations d = Loaded.Absent ->
            loadConfigFromFile_then filesInfo TypeError_message confirm data rows
            = (rows, [applied_log 0; loaded_notice]))
        /\ (forall entries,
              declined filesInfo confirm d = false ->
              Loaded.configurations d = Loaded.Entries entries ->
              loadConfigFromFile_then filesInfo TypeError_message confirm data rows
              = (fst (merge (Some (before_null entries)) rows),
                 if has_null entries
                 then [load_failed (TypeError_message Loaded.NullEntry)]
                 else [applied_log
                         (snd (merge (Some (before_null entries)) rows));
                       loaded_notice]))
        /\ (forall cs,
              declined filesInfo confirm d = false ->
              Loaded.configurations d = Loaded.Entries (List.map Some cs) ->
              (forall c r, In c cs -> In r rows -> is_match c r = false) ->
              loadConfigFromFile_then filesInfo TypeError_message confirm data rows
              = (rows, [applied_log 0; loaded_notice]))).
Proof.
  assert (Herr : truthy (LoadData.error data) = true ->
    loadConfigFromFile_then filesInfo TypeError_message confirm data rows
    = (rows, [Alert (lit "Error loading config: "
                       ++ ToString (LoadData.error data))])).
  { intros He. unfold loadConfigFromFile_then. rewrite He. reflexivity. }
  assert (Hnone : truthy (LoadData.error data) = false ->
    LoadData.config data = None ->
    loadConfigFromFile_then filesInfo TypeError_message confirm data rows
    = (rows, [load_failed (TypeError_message Loaded.UndefinedDocument)])).
  { intros He Hc. unfold loadConfigFromFile_then. rewrite He, Hc. reflexivity. }
  assert (Hdecl : forall d,
    truthy (LoadData.error data) = false -> LoadData.config data = Some d ->
    declined filesInfo confirm d = true ->
    loadConfigFromFile_then filesInfo TypeError_message confirm data rows
    = (rows, [loaded_notice])).
  { intros d He Hc Hd. unfold loadConfigFromFile_then. rewrite He, Hc.
    unfold applyConfig_loaded. unfold declined, unit_dialog in Hd.
    rewrite Hd. reflexivity. }
  assert (Hrun : forall d,
    truthy (LoadData.error data) = false -> LoadData.config data = Some d ->
    declined filesInfo confirm d = false ->
    loadConfigFromFile_then filesInfo TypeError_message confirm data rows
    = (fst (merge_loaded (Loaded.configurations d) rows),
       match snd (merge_loaded (Loaded.configurations d) rows) with
       | Loaded.Merged n => [applied_log n; loaded_notice]
       | Loaded.Declined => [loaded_notice]
       | Loaded.Thrown e => [load_failed (TypeError_message e)]
       end)).
  { intros d He Hc Hd. unfold loadConfigFromFile_then. rewrite He, Hc.
    unfold applyConfig_loaded. unfold declined, unit_dialog in Hd.
    rewrite Hd. destruct (merge_loaded (Loaded.configurations d) rows).
    reflexivity. }
  assert (Hentries : forall d entries,
    truthy (LoadData.error data) = false -> LoadData.config data = Some d ->
    declined filesInfo confirm d = false ->
    Loaded.configurations d = Loaded.Entries entries ->
    loadConfigFromFile_then filesInfo TypeError_message confirm data rows
    = (fst (merge (Some (before_null entries)) rows),
       if has_null entries
       then [load_failed (TypeError_message Loaded.NullEntry)]
       else [applied_log (snd (merge (Some (before_null entries)) rows));
             loaded_notice])).
  { intros d entries He Hc Hd Hcs. rewrite (Hrun d He Hc Hd), Hcs.
    rewrite merge_loaded_spec. cbn [fst snd].
    destruct (has_null entries); reflexivity. }
  split; [|split; [exact Herr|split; [exact Hnone|]]].
  - destruct (truthy (LoadData.error data)) eqn:He.
    { rewrite (Herr eq_refl). cbn [snd In]. split.
      - intros [H|[]]. discriminate H.
      - intros [H _]. discriminate H. }
    destruct (LoadData.config data) as [d|] eqn:Hc.
    2:{ rewrite (Hnone eq_refl eq_refl). cbn [snd In]. split.
        - intros [H|[]]. discriminate H.
        - intros (_ & d & H & _). discriminate H. }
    destruct (declined filesInfo confirm d) eqn:Hd.
    { rewrite (Hdecl d eq_refl eq_refl Hd). cbn [snd In]. split.
      - intros _. split; [reflexivity|]. exists d. auto.
      - intros _. left; reflexivity. }
    rewrite (Hrun d eq_refl eq_refl Hd). unfold merges. cbn [snd].
    destruct (Loaded.configurations d) as [|entries|] eqn:Hcs.
    + cbn [In]. split.
      * intros _. split; [reflexivity|]. exists d.
        split; [reflexivity|]. right. rewrite Hcs. reflexivity.
      * intros _. right; left; reflexivity.
    + rewrite merge_loaded_spec. cbn [snd].
      destruct (has_null entries) eqn:Hn; cbn [In]; split.
      * intros [H|[]]. discriminate H.
      * intros (_ & d' & Hd' & [H|H]).
        -- injection Hd' as <-. congruence.
        -- injection Hd' as <-. rewrite Hcs, Hn in H. discriminate H.
      * intros _. split; [reflexivity|]. exists d.
        split; [reflexivity|]. right. rewrite Hcs, Hn. reflexivity.
      * intros _. right; left; reflexivity.
    + cbn [merge_loaded snd In]. split.
      * intros [H|[]]. discriminate H.
      * intros (_ & d' & Hd' & [H|H]).
        -- injection Hd' as <-. congruence.
        -- injection Hd' as <-. rewrite Hcs in H. discriminate H.
  - intros d He Hc. split; [apply Hdecl; assumption|].
    split; [|split; [|split]].
    + intros Hd Hcs. rewrite (Hrun d He Hc Hd), Hcs. reflexivity.
    + intros Hd Hcs. rewrite (Hrun d He Hc Hd), Hcs. reflexivity.
    + intros entries. apply Hentries; assumption.
    + intros cs Hd Hcs Hno. rewrite (Hentries d _ He Hc Hd Hcs).
      destruct (before_null_records cs) as [-> ->].
      rewrite (merge_no_match cs rows Hno). reflexivity.
Qed.

(** ** More on the normalizer *)

Lemma digit_char_plain (d : N) (s : jsstring) :
  (d < 10)%N -> head_plain (digit_char d :: s).
Proof. unfold head_plain, digit_char. lia. Qed.

Lemma head_plain_app (s t : jsstring) :
  head_plain s -> head_plain t -> head_plain (s ++ t).
Proof. destruct s; cbn [app head_plain]; auto. Qed.

Lemma digits_plain (ds : list N) :
  Forall (fun d => (d < 10)%N) ds -> head_plain (List.map digit_char ds).
Proof.
  destruct 1 as [|d ds Hd _]; cbn [List.map]; [exact I|].
  apply digit_char_plain, Hd.
Qed.

Lemma format_decimal_plain (ds : list N) (n : Z) :
  Forall (fun d => (d < 10)%N) ds -> head_plain (format_decimal ds n).
Proof.
  intros H. pose proof (digits_plain ds H) as Hcs.
  unfold format_decimal. cbv zeta.
  destruct ((Z.of_nat (List.length ds) <=? n) && (n <=? 21)).
  { apply head_plain_app; [exact Hcs|].
    destruct (Z.to_nat _); cbn [repeat head_plain]; [exact I | lia]. }
  destruct ((0 <? n) && (n <=? 21)).
  { destruct (Z.to_nat n), (List.map digit_char ds);
      cbn [firstn app head_plain] in *; try lia; exact Hcs. }
  destruct ((-6 <? n) && (n <=? 0)).
  { cbn [head_plain]. lia. }
  destruct (List.map digit_char ds) as [|c [|c' r]];
    cbn [app head_plain] in *; try lia; exact Hcs.
Qed.

(** The text of a number is neither "None" nor "null". *)
Lemma Number_toString_not_absent (x : number) :
  str_eqb (Number_toString x) (lit "None") = false
  /\ str_eqb (Number_toString x) (lit "null") = false.
Proof.
  destruct x as [s|s| |s m e]; try (split; reflexivity);
    try (destruct s; split; reflexivity).
  cbn [Number_toString].
  match goal with
  | |- context [shortest_digits ?f ?k ?x ?num ?den ?n0] =>
      pose proof (shortest_digits_small f k x num den n0) as Hd;
      destruct (shortest_digits f k x num den n0) as [ds n]
  end.
  cbn [fst] in Hd. pose proof (format_decimal_plain ds n Hd) as Hp.
  destruct s; cbn [app]; [split; reflexivity|].
  destruct (format_decimal ds n) as [|c r]; [split; reflexivity|].
  cbn [head_plain] in Hp. destruct Hp as [H1 H2].
  split; cbn [lit List.map list_ascii_of_string str_eqb];
    apply andb_false_iff; left; apply N.eqb_neq; assumption.
Qed.

(** X16. The normalizer sees every value but [undefined] through its
    string form: [null], a boolean or a number given as a range setting
    normalizes as the string [String(v)] does, so a record whose range
    setting is the number 5 carries the key of a row whose attribute is
    "5".  [undefined] is the exception: it gives "N/A", the string
    "undefined" gives itself. *)
Theorem normalizer_string_form (v : value) :
  (v <> VUndefined ->
   normalizeRangeSetting v = normalizeRangeSetting (VStr (ToString v)))
  /\ normalizeRangeSetting VUndefined = lit "N/A"
  /\ normalizeRangeSetting (VStr (ToString VUndefined)) = lit "undefined".
Proof.
  split; [|split; reflexivity].
  destruct v as [| |b|x|s]; intros H; try reflexivity.
  - contradiction.
  - destruct b; reflexivity.
  - destruct (Number_toString_not_absent x) as [H1 H2].
    unfold normalizeRangeSetting. cbn [strict_eq orb ToString].
    rewrite H1, H2. reflexivity.
Qed.

Lemma str_eqb_length (a b : jsstring) :
  List.length a <> List.length b -> str_eqb a b = false.
Proof.
  intros H. destruct (str_eqb a b) eqn:E; [|reflexivity].
  apply str_eqb_eq in E. subst. contradiction.
Qed.

(** X17. Only the exact strings "None" and "null" count as absent.
    With white space around them the normalizer returns them trimmed,
    "None" or "null", and not "N/A"; "N/A" with white space around it
    normalizes to "N/A". *)
Theorem normalizer_padded_words (l t : jsstring) :
  all_whitespace l -> all_whitespace t -> l ++ t <> [] ->
  normalizeRangeSetting (VStr (l ++ lit "None" ++ t)) = lit "None"
  /\ normalizeRangeSetting (VStr (l ++ lit "null" ++ t)) = lit "null"
  /\ normalizeRangeSetting (VStr (l ++ lit "N/A" ++ t)) = lit "N/A".
Proof.
  intros Hl Ht Hne.
  assert (Hlen : forall w w' : jsstring,
            List.length w = 4%nat -> List.length w' = 4%nat ->
            str_eqb (l ++ w ++ t) w' = false).
  { intros w w' Hw Hw'. apply str_eqb_length.
    rewrite !length_app, Hw, Hw'.
    destruct l, t; cbn [List.length app] in *; try lia. congruence. }
  unfold normalizeRangeSetting. cbn [strict_eq orb ToString].
  rewrite !Hlen by reflexivity.
  rewrite !(trim_padded l _ t Hl Ht).
  split; [reflexivity|]. split; [reflexivity|].
  destruct (str_eqb (l ++ lit "N/A" ++ t) (lit "None")
            || str_eqb (l ++ lit "N/A" ++ t) (lit "null")); reflexivity.
Qed.

Lemma normalizer_padded_words_witness :
  normalizeRangeSetting (VStr (lit " " ++ lit "None" ++ lit "")) = lit "None"
  /\ normalizeRangeSetting (VStr (lit " " ++ lit "null" ++ lit "")) = lit "null"
  /\ normalizeRangeSetting (VStr (lit " " ++ lit "N/A" ++ lit "")) = lit "N/A".
Proof.
  apply (normalizer_padded_words (lit " ") (lit "")).
  - each_row reflexivity.
  - constructor.
  - discriminate.
Defined.

(** ** Validity after a merge *)

(** A control ends with its own text or with what it takes from the
    value of a matching record that supplies the field. *)
Lemma field_after_source `{controls : Controls} (k : control)
  (cs : list Doc.record)
  (r : row) (s : jsstring) :
  field_after k cs r s = s
  \/ exists c, In c cs /\ supplied k c <> VUndefined
               /\ field_after k cs r s = taken k (supplied k c).
Proof.
  unfold field_after. revert s; induction cs as [|c cs IH]; intros s;
    cbn [fold_left]; [left; reflexivity|].
  destruct (IH (if is_match c r then assign k (supplied k c) s else s))
    as [Heq | (c' & Hin & Hf & Heq)].
  - rewrite Heq. destruct (is_match c r); [|left; reflexivity].
    destruct (supplied k c) eqn:Hfc; cbn [assign];
      [left; reflexivity | ..];
      right; exists c; (split; [left; reflexivity|]);
      (split; [rewrite Hfc; discriminate|]); rewrite Hfc; reflexivity.
  - right. exists c'. split; [right; exact Hin|]. split; assumption.
Qed.

(** X18. The merge keeps a valid table valid when the records are
    sound: if every row is valid and every record leaves out the reference
    or supplies one from which the control takes a text that parses as a
    number, and likewise the tolerance, with a number not below zero, then
    every row is valid after the merge, and extraction on the merged rows
    returns records. *)
Theorem merge_keeps_valid `{controls : Controls} (filesInfo : files_info)
  (cs : list Doc.record)
  (rows : list row) :
  Forall (fun c => sound_reference (Doc.reference c) = true
                   /\ sound_tolerance (Doc.tolerance c) = true) cs ->
  Forall (fun r => row_valid r = true) rows ->
  Forall (fun r => row_valid r = true) (fst (merge (Some cs) rows))
  /\ exists configs,
       getConfigurations filesInfo (fst (merge (Some cs) rows)) = Ok configs.
Proof.
  intros Hcs Hv. rewrite Forall_forall in Hcs.
  assert (Hrows : Forall (fun r => row_valid r = true)
                    (fst (merge (Some cs) rows))).
  { rewrite merge_spec. cbn [fst]. apply Forall_map.
    eapply Forall_impl; [|exact Hv]. intros r Hr.
    unfold row_valid in *. rewrite steps_fields.
    cbn [referenceInput toleranceInput].
    apply andb_true_iff in Hr. destruct Hr as [Hn Hl].
    apply negb_true_iff in Hn. apply orb_false_iff in Hn.
    destruct Hn as [Href Htol].
    assert (Href' : isNaN (parseFloat (VStr
              (field_after Reference cs r (referenceInput r)))) = false).
    { destruct (field_after_source Reference cs r (referenceInput r))
        as [-> | (c & Hin & Hf & ->)]; [exact Href|].
      destruct (Hcs c Hin) as [Hs _]. unfold sound_reference in Hs.
      cbn [supplied] in *. unfold parseFloat. cbn [ToString].
      destruct (Doc.reference c); try contradiction;
        apply negb_true_iff in Hs; exact Hs. }
    assert (Htol' : isNaN (parseFloat (VStr
              (field_after Tolerance cs r (toleranceInput r)))) = false
            /\ ltb (parseFloat (VStr
                 (field_after Tolerance cs r (toleranceInput r)))) zero
               = false).
    { destruct (field_after_source Tolerance cs r (toleranceInput r))
        as [-> | (c & Hin & Hf & ->)].
      - split; [exact Htol | apply negb_true_iff, Hl].
      - destruct (Hcs c Hin) as [_ Hs]. unfold sound_tolerance in Hs.
        cbn [supplied] in *. unfold parseFloat. cbn [ToString].
        destruct (Doc.tolerance c); try contradiction;
          apply andb_true_iff in Hs; destruct Hs as [H1 H2];
          apply negb_true_iff in H1, H2; split; assumption. }
    destruct Htol' as [Htn Htl]. rewrite Href', Htn, Htl. reflexivity. }
  split; [exact Hrows|]. eexists. unfold getConfigurations.
  apply read_rows_valid, Hrows.
Qed.

Lemma merge_keeps_valid_witness :
  Forall (fun r => row_valid r = true)
    (fst (merge
            (Some [sample_record "10" VNull "V" VUndefined
                     (VStr (lit "5")) (VStr (lit "0.2"))])
            distinct_rows))
  /\ exists configs,
       getConfigurations sample_unit
         (fst (merge
                 (Some [sample_record "10" VNull "V" VUndefined
                          (VStr (lit "5")) (VStr (lit "0.2"))])
                 distinct_rows))
       = Ok configs.
Proof.
  apply (merge_keeps_valid sample_unit
           [sample_record "10" VNull "V" VUndefined
              (VStr (lit "5")) (VStr (lit "0.2"))]
           distinct_rows).
  - each_row ltac:(split; by_evaluation).
  - each_row by_evaluation.
Defined.

(** ** Numbers through the file *)

(** X19. A reference or tolerance that passed the check of
    [getConfigurations] survives the file: the text [saveConfig] writes
    for the number, read by [parseFloat] as the next extraction does, is
    a number equal to it by [===], and the very same number unless it is
    [-0], which comes back as [0]; saving again writes the same text. *)
Theorem saved_number_reads_back (s : jsstring) :
  isNaN (parseFloat (VStr s)) = false ->
  eqb (parseFloat (VStr (Number_toString (parseFloat (VStr s)))))
    (parseFloat (VStr s)) = true
  /\ (parseFloat (VStr s) <> S754_zero true ->
      parseFloat (VStr (Number_toString (parseFloat (VStr s))))
      = parseFloat (VStr s))
  /\ Number_toString
       (parseFloat (VStr (Number_toString (parseFloat (VStr s)))))
     = Number_toString (parseFloat (VStr s)).
Proof.
  unfold parseFloat. cbn [ToString]. intros Hn.
  destruct (read_back s Hn) as [He Hl].
  split; [exact He|]. split; [exact Hl|].
  destruct (parseFloat_string s) as [[]|[]| |sx m e] eqn:Hx;
    try reflexivity; try discriminate Hn;
    rewrite Hl by discriminate; reflexivity.
Qed.

Lemma saved_number_reads_back_witness :
  Number_toString (parseFloat (VStr (lit "0.10"))) = lit "0.1"
  /\ parseFloat (VStr (Number_toString (parseFloat (VStr (lit "0.10")))))
     = parseFloat (VStr (lit "0.10")).
Proof.
  split; [by_evaluation|].
  apply (saved_number_reads_back (lit "0.10")); [by_evaluation|].
  vm_compute. discriminate.
Defined.

(** ** The handlers on sample data *)

(** Two selects for the same file: the later one decides. *)
Example selections_sample :
  getMeasurementTypeSelections sample_selects
  = [ (lit "a.csv", lit "Resistance"); (lit "b.txt", lit "Current") ].
Proof. by_evaluation. Qed.

(** A file for another unit, and a user who answers no: the rows stay,
    nothing is logged, the notification is shown all the same. *)
Example load_declined :
  loadConfigFromFile_then sample_unit (fun _ => lit "") (fun _ => false)
    {| LoadData.error := VUndefined;
       LoadData.config :=
         Some {| Loaded.unit := VStr (lit "A");
                 Loaded.configurations :=
                   Loaded.Entries
                     [Some (sample_record "10" VNull "V" VUndefined
                              (VStr (lit "5")) (VStr (lit "0.2")))] |} |}
    distinct_rows
  = (distinct_rows, [loaded_notice]).
Proof. by_evaluation. Qed.

(** A document whose second entry is [null]: the first record is merged,
    then the load fails. *)
Example load_null_entry :
  loadConfigFromFile_then sample_unit (fun _ => lit "config is null")
    (fun _ => true)
    {| LoadData.error := VUndefined;
       LoadData.config :=
         Some {| Loaded.unit := VStr (lit "V");
                 Loaded.configurations :=
                   Loaded.Entries
                     [ Some (sample_record "10" VNull "V" VUndefined
                               (VStr (lit "5")) (VStr (lit "0.2")));
                       None ] |} |}
    distinct_rows
  = ([ sample_row "10" "N/A" "V" "  bench A " "5" "0.2";
       sample_row "20" "Range1" "V" "" "2.5e0" "0" ],
     [load_failed (lit "config is null")]).
Proof. by_evaluation. Qed.

(** A row with a tolerance below zero: [processFiles] sends nothing. *)
Example process_blocked :
  processFiles sample_unit sample_selects
    [sample_row "10" "N/A" "V" "" "0" "-1"] (lit " EQ-1 ")
  = [Alert (lit "Configuration error: Tolerance must be positive for test point 10 V")].
Proof. by_evaluation. Qed.
